(** * DiceBox signaling broker (server.js): session/room state machine

  A shallow embedding of the WebSocket signaling server of
  [src/server.js] (the storage-backed version, lines 381-1133) and the
  properties of its specification: host election, host migration with a
  grace period, session restore, relay, rate limiting and the error
  taxonomy of the connection.

  Modelling conventions.
  - JavaScript strings are lists of UTF-16 code units ([list N]); [js]
    turns an ASCII literal into one.
  - The global [Map]s of the server are finite maps ([gmap]); the closure
    variables of a connection ([peerId], [sessionToken], [ip]) and the
    [readyState] of its socket live in the [conns] map.
  - Everything a handler sends is appended to the [outbox] log, in order.
  - One handler invocation is one atomic transition: with the in-process
    storage backend every [await] resolves before the next socket or timer
    event is dispatched.  [Date.now()] is read once per invocation and is
    an input of the transition, as is the value of [generatePeerId()]. *)

From stdpp Require Import base numbers option list gmap sets strings.
From Stdlib Require Import ZArith Lia Ascii.

Local Open Scope Z_scope.

(** ** JavaScript values *)

Module Js.

(** A JavaScript string: its UTF-16 code units. *)
Abbreviation JSString := (list N).

(** An ASCII literal as a JavaScript string. *)
Definition js (s : string) : JSString :=
  N_of_ascii <$> String.list_ascii_of_string s.

(** The result of [JSON.parse]: the JSON data model.  Numbers are only
    ever tested for truthiness by the server, so an integer stands for
    them.  An object is the list of its own properties in insertion
    order, with unique keys (as [JSON.parse] builds it). *)
#[warnings="-register-all"]
Inductive JValue : Type :=
| JNull
| JBool (b : bool)
| JNum (n : Z)
| JStr (s : JSString)
| JArr (items : list JValue)
| JObj (fields : list (JSString * JValue)).

(** What the socket hands to the ['message'] handler, seen through
    [JSON.parse]: either the parse throws, or it yields a value. *)
Inductive Raw : Type :=
| BadJson
| Parsed (v : JValue).

(** [ToBoolean]. *)
Definition truthy (v : JValue) : bool :=
  match v with
  | JNull => false
  | JBool b => b
  | JNum n => negb (n =? 0)
  | JStr s => match s with [] => false | _ => true end
  | JArr _ | JObj _ => true
  end.

(** [if (x)] for a variable holding [null] or a string. *)
Definition truthyStr (o : option JSString) : bool :=
  match o with
  | Some (_ :: _) => true
  | _ => false
  end.

Fixpoint assoc (k : JSString) (fs : list (JSString * JValue)) : option JValue :=
  match fs with
  | [] => None
  | (k', v) :: rest => if decide (k' = k) then Some v else assoc k rest
  end.

(** [v.k]: property read; [None] is [undefined].  None of the property
    names the server reads exists on a prototype, so only own properties
    of objects answer. *)
Definition get_field (k : JSString) (v : JValue) : option JValue :=
  match v with
  | JObj fs => assoc k fs
  | _ => None
  end.

(** Property write on an object: an existing key keeps its place. *)
Fixpoint set_field (k : JSString) (v : JValue) (fs : list (JSString * JValue))
  : list (JSString * JValue) :=
  match fs with
  | [] => [(k, v)]
  | (k', v') :: rest =>
      if decide (k' = k) then (k, v) :: rest else (k', v') :: set_field k v rest
  end.

(** [{...message}]: the own properties of an object; nothing for other
    values that pass the type check of the handler. *)
Definition spread (v : JValue) : list (JSString * JValue) :=
  match v with
  | JObj fs => fs
  | _ => []
  end.

(** A property that holds a string. *)
Definition get_string (k : JSString) (v : JValue) : option JSString :=
  match get_field k v with
  | Some (JStr s) => Some s
  | _ => None
  end.

End Js.
Export Js.

(** ** Format validation (server.js, lines 568-595) *)

Module Validate.

Definition in_range (lo hi c : N) : bool := ((lo <=? c) && (c <=? hi))%N.

Definition is_digit (c : N) : bool := in_range 48 57 c.
Definition is_lower_hex (c : N) : bool := in_range 97 102 c.
Definition is_upper_hex (c : N) : bool := in_range 65 70 c.
Definition is_lower (c : N) : bool := in_range 97 122 c.
Definition is_upper (c : N) : bool := in_range 65 90 c.
Definition is_hyphen (c : N) : bool := (c =? 45)%N.
Definition is_underscore (c : N) : bool := (c =? 95)%N.

(** The six dice faces U+2680 .. U+2685, one code unit each. *)
Definition is_dice (c : N) : bool := in_range 9856 9861 c.

Definition len_between (lo hi : nat) (s : JSString) : bool :=
  ((lo <=? length s) && (length s <=? hi))%nat.

(** [/^[a-f0-9-]{32,36}$/i] *)
Definition isValidSessionToken (token : option JValue) : bool :=
  match token with
  | Some (JStr s) =>
      len_between 32 36 s
      && forallb (λ c, is_lower_hex c || is_upper_hex c || is_digit c || is_hyphen c) s
  | _ => false
  end.

(** [/^[a-zA-Z0-9-_]+$/] on a string of length 4 to 32. *)
Definition legacyRoomId (s : JSString) : bool :=
  len_between 4 32 s
  && match s with [] => false | _ => true end
  && forallb (λ c, is_lower c || is_upper c || is_digit c || is_hyphen c || is_underscore c) s.

Definition isValidRoomId (roomId : option JValue) : bool :=
  match roomId with
  | Some (JStr s) =>
      if len_between 4 10 s && forallb is_dice s then true
      else legacyRoomId s
  | _ => false
  end.

(** [/^[a-f0-9]+$/] on a string of length 32. *)
Definition isValidPeerId (peerId : option JValue) : bool :=
  match peerId with
  | Some (JStr s) =>
      (length s =? 32)%nat
      && match s with [] => false | _ => true end
      && forallb (λ c, is_lower_hex c || is_digit c) s
  | _ => false
  end.

End Validate.
Export Validate.

(** ** The storage backend ([./state-storage], not part of the sources) *)

Module Storage.

(** Modelled from the spec: the Session Ledger entry
    [sessionToken → {peerId, roomId, lastSeen}] of the missing module
    [./state-storage]. *)
Record Session : Type := mkSession {
  s_peerId : JSString;
  s_roomId : option JSString;
  s_lastSeen : Z
}.

(** Modelled from the spec: the peer-to-room mapping of the missing module
    [./state-storage]; the fields are the ones server.js stores with
    [storage.setPeer] ([undefined] is [None]). *)
Record Peer : Type := mkPeer {
  p_roomId : option JSString;
  p_ip : option JSString;
  p_sessionToken : option JSString
}.

(** Modelled from the spec: the Room Directory record of the missing module
    [./state-storage], as server.js writes it with [storage.setRoom]; the
    member set is kept beside it ([addRoomMember], [getRoomMembers]). *)
Record Room : Type := mkRoom {
  hostPeerId : option JSString;
  createdAt : option Z
}.

(** Modelled from the spec: the in-process backend of the missing module
    [./state-storage], one map per contract of the Session Ledger and the
    Room Directory.  Member sets are lists without duplicates, in insertion
    order, which is what [getRoomMembers] returns as an array. *)
Record Store : Type := mkStore {
  sessions : gmap JSString Session;
  peers : gmap JSString Peer;
  rooms : gmap JSString Room;
  roomMembers : gmap JSString (list JSString)
}.

Definition empty : Store := mkStore ∅ ∅ ∅ ∅.

(** Modelled from the spec: [getSession] of the missing [./state-storage]
    ("get session by token"); [null] is [None]. *)
Definition getSession (token : JSString) (s : Store) : option Session :=
  sessions s !! token.

(** Modelled from the spec: [setSession] of the missing [./state-storage]
    ("create session by token"). *)
Definition setSession (token : JSString) (v : Session) (s : Store) : Store :=
  mkStore (<[token := v]> (sessions s)) (peers s) (rooms s) (roomMembers s).

(** Modelled from the spec: [updateSessionLastSeen] of the missing
    [./state-storage] ("refresh last-seen"); nothing happens for an unknown
    token. *)
Definition updateSessionLastSeen (token : JSString) (now : Z) (s : Store) : Store :=
  mkStore (alter (λ v, mkSession (s_peerId v) (s_roomId v) now) token (sessions s))
          (peers s) (rooms s) (roomMembers s).

(** Modelled from the spec: [updateSessionRoom] of the missing
    [./state-storage] ("bind/unbind a session's room"); nothing happens for
    an unknown token. *)
Definition updateSessionRoom (token : JSString) (roomId : option JSString) (s : Store) : Store :=
  mkStore (alter (λ v, mkSession (s_peerId v) roomId (s_lastSeen v)) token (sessions s))
          (peers s) (rooms s) (roomMembers s).

(** Modelled from the spec: [getPeer], [setPeer], [deletePeer] and [hasPeer]
    of the missing [./state-storage] ("get/set/delete peer-to-room mapping,
    existence check for a peer identity"). *)
Definition getPeer (peerId : JSString) (s : Store) : option Peer :=
  peers s !! peerId.

(** Modelled from the spec: see [getPeer]. *)
Definition setPeer (peerId : JSString) (v : Peer) (s : Store) : Store :=
  mkStore (sessions s) (<[peerId := v]> (peers s)) (rooms s) (roomMembers s).

(** Modelled from the spec: see [getPeer]. *)
Definition deletePeer (peerId : JSString) (s : Store) : Store :=
  mkStore (sessions s) (delete peerId (peers s)) (rooms s) (roomMembers s).

(** Modelled from the spec: see [getPeer].  The argument is a stored
    [hostPeerId], which may be [null]: no peer is registered under it. *)
Definition hasPeer (peerId : option JSString) (s : Store) : bool :=
  match peerId with
  | Some p => bool_decide (is_Some (peers s !! p))
  | None => false
  end.

(** Modelled from the spec: [getRoom], [setRoom] and [deleteRoom] of the
    missing [./state-storage]: the room record is created or overwritten by
    [setRoom]; deleting the room deletes its member set with it. *)
Definition getRoom (roomId : JSString) (s : Store) : option Room :=
  rooms s !! roomId.

(** Modelled from the spec: see [getRoom]. *)
Definition setRoom (roomId : JSString) (v : Room) (s : Store) : Store :=
  mkStore (sessions s) (peers s) (<[roomId := v]> (rooms s)) (roomMembers s).

(** Modelled from the spec: see [getRoom]. *)
Definition deleteRoom (roomId : JSString) (s : Store) : Store :=
  mkStore (sessions s) (peers s) (delete roomId (rooms s)) (delete roomId (roomMembers s)).

(** Modelled from the spec: [getRoomMembers], [addRoomMember] and
    [removeRoomMember] of the missing [./state-storage]: [members] is a set
    of peer identities. *)
Definition getRoomMembers (roomId : JSString) (s : Store) : list JSString :=
  default [] (roomMembers s !! roomId).

(** Modelled from the spec: see [getRoomMembers]. *)
Definition addRoomMember (roomId peerId : JSString) (s : Store) : Store :=
  let ms := getRoomMembers roomId s in
  mkStore (sessions s) (peers s) (rooms s)
          (<[roomId := if bool_decide (peerId ∈ ms) then ms else ms ++ [peerId]]> (roomMembers s)).

(** Modelled from the spec: see [getRoomMembers]. *)
Definition removeRoomMember (roomId peerId : JSString) (s : Store) : Store :=
  mkStore (sessions s) (peers s) (rooms s)
          (alter (filter (λ m, m ≠ peerId)) roomId (roomMembers s)).

(** Modelled from the spec: the expiry test of the sweep of the missing
    [./state-storage]: a session "expires when now − lastSeen exceeds a
    fixed TTL". *)
Definition expired (ttlSeconds now : Z) (v : Session) : Prop :=
  ttlSeconds * 1000 < now - s_lastSeen v.

#[global] Instance expired_dec ttl now v : Decision (expired ttl now v).
Proof. unfold expired. apply _. Defined.

(** Modelled from the spec: [cleanupExpiredSessions] of the missing
    [./state-storage]: removes the expired sessions and returns them. *)
Definition cleanupExpiredSessions (ttlSeconds now : Z) (s : Store)
  : list (JSString * Session) * Store :=
  (map_to_list (filter (λ kv, expired ttlSeconds now kv.2) (sessions s)),
   mkStore (filter (λ kv, ¬ expired ttlSeconds now kv.2) (sessions s))
           (peers s) (rooms s) (roomMembers s)).

End Storage.
Export Storage.

(** ** The server state *)

(** [RATE_LIMIT] (lines 422-426) and [ROOM_CLEANUP_DELAY] (line 440). *)
Definition windowMs : Z := 1000.
Definition maxMessages : Z := 50.
Definition maxConnectionsPerIp : nat := 10.
Definition ROOM_CLEANUP_DELAY : Z := 30000.

(** [ws.readyState], without [CONNECTING]: the server only sees sockets
    after the handshake. *)
Inductive ReadyState : Type := OPEN | CLOSING | CLOSED.

(** What the server sends, one constructor per message shape. *)
Inductive OutMsg : Type :=
| MError (errorType reason : string)
| MPeerIdNew (peerId : JSString)
| MPeerIdRestored (peerId : JSString) (roomId : option JSString)
| MHeartbeatAck
| MRoomInfoInvalid
| MRoomInfoExists (roomId : JSString) (host : option JSString)
| MRoomInfoAbsent (roomId : JSString)
| MRegisterHostSuccess (roomId : JSString)
| MRegisterHostFailed (roomId : option JValue) (reason : string)
| MClaimHostSuccess (roomId : JSString)
| MClaimHostFailed (roomId : option JValue) (reason : string)
| MJoinRoomSuccess (roomId : JSString) (host : option JSString)
| MJoinRoomFailed (roomId : option JValue) (reason : string)
| MPeerConnecting (peerId : JSString)
| MRelay (payload : list (JSString * JValue))
| MHostDisconnected (roomId : JSString)
| MHostReconnected (roomId host : JSString)
| MRoomClosed (roomId : JSString) (reason : string).

(** The variables one connection closes over ([ip], [peerId],
    [sessionToken], lines 691-704) and the state of its socket.  A
    [sessionToken] that is not a string is kept as [None]: it fails the
    format check, and the variable is assigned again before it is read. *)
Record Conn : Type := mkConn {
  c_ip : JSString;
  c_peerId : option JSString;
  c_sessionToken : option JSString;
  c_readyState : ReadyState
}.

(** An entry of [messageRates]. *)
Record RateData : Type := mkRate {
  count : Z;
  windowStart : Z
}.

(** The module-level state of server.js (lines 428-443), the pending
    timeouts of the runtime ([timers]: handle to room and due time), the
    accepted connections and the log of everything sent. *)
Record State : Type := mkState {
  storage : Store;
  wsConnections : gmap JSString nat;
  hostWsConnections : gmap JSString nat;
  connectionsByIp : gmap JSString (gset nat);
  messageRates : gmap JSString RateData;
  cleanupTimers : gmap JSString nat;
  timers : gmap nat (JSString * Z);
  nextTimer : nat;
  conns : gmap nat Conn;
  outbox : list (nat * OutMsg)
}.

Definition initial : State := mkState Storage.empty ∅ ∅ ∅ ∅ ∅ ∅ 0%nat ∅ [].

Definition upd_storage (f : Store → Store) (st : State) : State :=
  mkState (f (storage st)) (wsConnections st) (hostWsConnections st) (connectionsByIp st)
          (messageRates st) (cleanupTimers st) (timers st) (nextTimer st) (conns st) (outbox st).

Definition set_wsConnections (v : gmap JSString nat) (st : State) : State :=
  mkState (storage st) v (hostWsConnections st) (connectionsByIp st)
          (messageRates st) (cleanupTimers st) (timers st) (nextTimer st) (conns st) (outbox st).

Definition set_hostWsConnections (v : gmap JSString nat) (st : State) : State :=
  mkState (storage st) (wsConnections st) v (connectionsByIp st)
          (messageRates st) (cleanupTimers st) (timers st) (nextTimer st) (conns st) (outbox st).

Definition set_connectionsByIp (v : gmap JSString (gset nat)) (st : State) : State :=
  mkState (storage st) (wsConnections st) (hostWsConnections st) v
          (messageRates st) (cleanupTimers st) (timers st) (nextTimer st) (conns st) (outbox st).

Definition set_messageRates (v : gmap JSString RateData) (st : State) : State :=
  mkState (storage st) (wsConnections st) (hostWsConnections st) (connectionsByIp st)
          v (cleanupTimers st) (timers st) (nextTimer st) (conns st) (outbox st).

Definition set_cleanupTimers (v : gmap JSString nat) (st : State) : State :=
  mkState (storage st) (wsConnections st) (hostWsConnections st) (connectionsByIp st)
          (messageRates st) v (timers st) (nextTimer st) (conns st) (outbox st).

Definition set_timers (v : gmap nat (JSString * Z)) (st : State) : State :=
  mkState (storage st) (wsConnections st) (hostWsConnections st) (connectionsByIp st)
          (messageRates st) (cleanupTimers st) v (nextTimer st) (conns st) (outbox st).

Definition set_nextTimer (v : nat) (st : State) : State :=
  mkState (storage st) (wsConnections st) (hostWsConnections st) (connectionsByIp st)
          (messageRates st) (cleanupTimers st) (timers st) v (conns st) (outbox st).

Definition set_conns (v : gmap nat Conn) (st : State) : State :=
  mkState (storage st) (wsConnections st) (hostWsConnections st) (connectionsByIp st)
          (messageRates st) (cleanupTimers st) (timers st) (nextTimer st) v (outbox st).

Definition set_outbox (v : list (nat * OutMsg)) (st : State) : State :=
  mkState (storage st) (wsConnections st) (hostWsConnections st) (connectionsByIp st)
          (messageRates st) (cleanupTimers st) (timers st) (nextTimer st) (conns st) v.

(** ** Sending and timers (lines 598-688) *)

(** [null] for a falsy string, the string otherwise: the value an
    [if (x)] branch works with. *)
Definition asTruthy (o : option JSString) : option JSString :=
  if truthyStr o then o else None.

(** [sendTo(ws, message)]: only an [OPEN] socket is written to. *)
Definition sendTo (ws : nat) (message : OutMsg) (st : State) : State :=
  match conns st !! ws with
  | Some c =>
      match c_readyState c with
      | OPEN => set_outbox (outbox st ++ [(ws, message)]) st
      | _ => st
      end
  | None => st
  end.

(** [sendTo] on the result of a [Map.get], which may be [undefined]. *)
Definition sendToMaybe (ws : option nat) (message : OutMsg) (st : State) : State :=
  match ws with
  | Some w => sendTo w message st
  | None => st
  end.

Definition sendToPeer (peerId : JSString) (message : OutMsg) (st : State) : State :=
  sendToMaybe (wsConnections st !! peerId) message st.

Definition sendError (ws : nat) (errorType reason : string) (st : State) : State :=
  sendTo ws (MError errorType reason) st.

(** [for (const memberId of members) sendToPeer(memberId, message)]. *)
Definition notifyAll (members : list JSString) (message : OutMsg) (st : State) : State :=
  foldl (λ acc memberId, sendToPeer memberId message acc) st members.

(** [ws.close()]: an open socket starts closing; its ['close'] event comes
    later. *)
Definition wsClose (ws : nat) (st : State) : State :=
  match conns st !! ws with
  | Some c =>
      match c_readyState c with
      | OPEN =>
          set_conns (<[ws := mkConn (c_ip c) (c_peerId c) (c_sessionToken c) CLOSING]> (conns st)) st
      | _ => st
      end
  | None => st
  end.

Definition checkRateLimit (peerId : JSString) (now : Z) (st : State) : bool * State :=
  let rateData :=
    match messageRates st !! peerId with
    | Some rd => if windowMs <? now - windowStart rd then mkRate 0 now else rd
    | None => mkRate 0 now
    end in
  let rateData := mkRate (count rateData + 1) (windowStart rateData) in
  (count rateData <=? maxMessages,
   set_messageRates (<[peerId := rateData]> (messageRates st)) st).

Definition checkConnectionLimit (ip : JSString) (st : State) : bool :=
  match connectionsByIp st !! ip with
  | Some connections => bool_decide (size connections < maxConnectionsPerIp)%nat
  | None => true
  end.

Definition trackConnection (ip : JSString) (ws : nat) (st : State) : State :=
  set_connectionsByIp
    (<[ip := {[ws]} ∪ default ∅ (connectionsByIp st !! ip)]> (connectionsByIp st)) st.

(** [untrackConnection(ip, ws)]; [ip] is [undefined] when it is read from a
    peer record that was written without one. *)
Definition untrackConnection (ip : option JSString) (ws : nat) (st : State) : State :=
  match ip with
  | Some i =>
      match connectionsByIp st !! i with
      | Some connections =>
          let connections' := connections ∖ {[ws]} in
          if bool_decide (size connections' = 0%nat)
          then set_connectionsByIp (delete i (connectionsByIp st)) st
          else set_connectionsByIp (<[i := connections']> (connectionsByIp st)) st
      | None => st
      end
  | None => st
  end.

(** [clearTimeout(timer)]. *)
Definition clearTimeout (timer : nat) (st : State) : State :=
  set_timers (delete timer (timers st)) st.

(** The block [const existingTimer = cleanupTimers.get(roomId); if
    (existingTimer) { clearTimeout(existingTimer);
    cleanupTimers.delete(roomId); }] of lines 780-784, 873-877 and
    906-910. *)
Definition cancelCleanup (roomId : JSString) (st : State) : State :=
  match cleanupTimers st !! roomId with
  | Some timer => set_cleanupTimers (delete roomId (cleanupTimers st)) (clearTimeout timer st)
  | None => st
  end.

(** [scheduleRoomCleanup(roomId)] (lines 661-688): arms a timeout due
    [ROOM_CLEANUP_DELAY] after [now]. *)
Definition scheduleRoomCleanup (roomId : JSString) (now : Z) (st : State) : State :=
  match getRoom roomId (storage st) with
  | None => st
  | Some _ =>
      let st1 :=
        match cleanupTimers st !! roomId with
        | Some existingTimer => clearTimeout existingTimer st
        | None => st
        end in
      let timer := nextTimer st1 in
      set_cleanupTimers (<[roomId := timer]> (cleanupTimers st1))
        (set_nextTimer (S timer)
           (set_timers (<[timer := (roomId, now + ROOM_CLEANUP_DELAY)]> (timers st1)) st1))
  end.

(** The callback of the timeout armed by [scheduleRoomCleanup] (lines
    671-685), once the runtime has taken the timeout off its queue. *)
Definition cleanupCallback (roomId : JSString) (st : State) : State :=
  match getRoom roomId (storage st) with
  | Some currentRoom =>
      if negb (truthyStr (hostPeerId currentRoom)) then
        let members := getRoomMembers roomId (storage st) in
        let st := notifyAll members (MRoomClosed roomId "Host did not return") st in
        let st := upd_storage (deleteRoom roomId) st in
        let st := set_hostWsConnections (delete roomId (hostWsConnections st)) st in
        set_cleanupTimers (delete roomId (cleanupTimers st)) st
      else st
  | None => st
  end.

(** The runtime fires the timeout [timer]. *)
Definition onTimer (timer : nat) (st : State) : State :=
  match timers st !! timer with
  | Some (roomId, _) => cleanupCallback roomId (clearTimeout timer st)
  | None => st
  end.

(** ** The connection handlers (lines 690-1078) *)

Section Server.

(** [SESSION_EXPIRY_SECONDS] is exported by the missing [./state-storage];
    the spec only calls it "a fixed TTL". *)
Variable SESSION_EXPIRY_SECONDS : Z.

(** The message types the dispatcher tells apart. *)
Inductive MsgType : Type :=
| THello | THeartbeat | TQueryRoom | TRegisterHost | TClaimHost | TJoinRoom
| TSignal | TLeaveRoom | TUnknown.

(** The [case] labels of the [switch] (and the two [message.type]
    comparisons before it). *)
Definition classify (ty : JSString) : MsgType :=
  if decide (ty = js "hello") then THello
  else if decide (ty = js "heartbeat") then THeartbeat
  else if decide (ty = js "query-room") then TQueryRoom
  else if decide (ty = js "register-host") then TRegisterHost
  else if decide (ty = js "claim-host") then TClaimHost
  else if decide (ty = js "join-room") then TJoinRoom
  else if decide (ty = js "offer") then TSignal
  else if decide (ty = js "answer") then TSignal
  else if decide (ty = js "ice-candidate") then TSignal
  else if decide (ty = js "leave-room") then TLeaveRoom
  else TUnknown.

(** [!message || typeof message.type !== 'string'] fails: the type. *)
Definition messageType (message : JValue) : option JSString :=
  if truthy message then get_string (js "type") message else None.

(** A ledger call with the connection's [sessionToken]. *)
Definition withToken (token : option JSString) (f : JSString → Store → Store)
  (st : State) : State :=
  match token with
  | Some t => upd_storage (f t) st
  | None => st
  end.

(** [{ ...peer, roomId }]. *)
Definition peerWithRoom (peer : option Peer) (roomId : option JSString) : Peer :=
  match peer with
  | Some p => mkPeer roomId (p_ip p) (p_sessionToken p)
  | None => mkPeer roomId None None
  end.

Definition setConnPeer (ws : nat) (peerId : JSString) (st : State) : State :=
  match conns st !! ws with
  | Some c =>
      set_conns (<[ws := mkConn (c_ip c) (Some peerId) (c_sessionToken c) (c_readyState c)]> (conns st)) st
  | None => st
  end.

Definition setConnToken (ws : nat) (token : option JSString) (st : State) : State :=
  match conns st !! ws with
  | Some c =>
      set_conns (<[ws := mkConn (c_ip c) (c_peerId c) token (c_readyState c)]> (conns st)) st
  | None => st
  end.

(** Lines 767-793: the restored peer was in a room. *)
Definition restoreRoom (ws : nat) (peerId previousRoomId : JSString) (st : State) : State :=
  match getRoom previousRoomId (storage st) with
  | Some room =>
      let members := getRoomMembers previousRoomId (storage st) in
      let st :=
        if negb (bool_decide (peerId ∈ members))
           && negb (bool_decide (hostPeerId room = Some peerId))
        then upd_storage (addRoomMember previousRoomId peerId) st
        else st in
      if negb (truthyStr (hostPeerId room)) then
        let st := upd_storage (setRoom previousRoomId (mkRoom (Some peerId) None)) st in
        let st := set_hostWsConnections (<[previousRoomId := ws]> (hostWsConnections st)) st in
        let st := cancelCleanup previousRoomId st in
        notifyAll (getRoomMembers previousRoomId (storage st))
                  (MHostReconnected previousRoomId peerId) st
      else st
  | None => st
  end.

(** Lines 739-793: a known, fresh session. *)
Definition restoreSession (ws : nat) (ip sessionToken : JSString) (existingSession : Session)
  (now : Z) (st : State) : State :=
  let peerId := s_peerId existingSession in
  let previousRoomId := s_roomId existingSession in
  let st := setConnPeer ws peerId st in
  let st := upd_storage (updateSessionLastSeen sessionToken now) st in
  let st :=
    match wsConnections st !! peerId with
    | Some oldWs => if bool_decide (oldWs ≠ ws) then wsClose oldWs st else st
    | None => st
    end in
  let st := set_wsConnections (<[peerId := ws]> (wsConnections st)) st in
  let st := upd_storage (setPeer peerId (mkPeer previousRoomId (Some ip) (Some sessionToken))) st in
  let st := sendTo ws (MPeerIdRestored peerId previousRoomId) st in
  match asTruthy previousRoomId with
  | Some roomId => restoreRoom ws peerId roomId st
  | None => st
  end.

(** Lines 794-804: an unknown or stale token; [fresh] is what
    [generatePeerId()] returns. *)
Definition newSession (ws : nat) (ip sessionToken fresh : JSString) (now : Z) (st : State) : State :=
  let st := setConnPeer ws fresh st in
  let st := upd_storage (setSession sessionToken (mkSession fresh None now)) st in
  let st := set_wsConnections (<[fresh := ws]> (wsConnections st)) st in
  let st := upd_storage (setPeer fresh (mkPeer None (Some ip) (Some sessionToken))) st in
  sendTo ws (MPeerIdNew fresh) st.

(** Lines 722-806: the first message of a connection. *)
Definition onHandshake (ws : nat) (c : Conn) (message : JValue) (ty : JSString)
  (now : Z) (fresh : JSString) (st : State) : State :=
  if bool_decide (ty ≠ js "hello") then
    sendError ws "protocol-error" "First message must be hello" st
  else
    let st := setConnToken ws (get_string (js "sessionToken") message) st in
    if negb (isValidSessionToken (get_field (js "sessionToken") message)) then
      wsClose ws (sendError ws "invalid-session" "Invalid session token format" st)
    else
      match get_string (js "sessionToken") message with
      | Some sessionToken =>
          match getSession sessionToken (storage st) with
          | Some existingSession =>
              if now - s_lastSeen existingSession <? SESSION_EXPIRY_SECONDS * 1000
              then restoreSession ws (c_ip c) sessionToken existingSession now st
              else newSession ws (c_ip c) sessionToken fresh now st
          | None => newSession ws (c_ip c) sessionToken fresh now st
          end
      | None => st
      end.

(** Lines 829-854. *)
Definition queryRoom (ws : nat) (message : JValue) (st : State) : State :=
  if negb (isValidRoomId (get_field (js "roomId") message)) then
    sendTo ws MRoomInfoInvalid st
  else
    match get_string (js "roomId") message with
    | Some roomId =>
        match getRoom roomId (storage st) with
        | Some room => sendTo ws (MRoomInfoExists roomId (hostPeerId room)) st
        | None => sendTo ws (MRoomInfoAbsent roomId) st
        end
    | None => st
    end.

(** The writes of a successful [register-host] or [claim-host] (lines
    872-887 and 905-919), up to the reply. *)
Definition installHost (ws : nat) (c : Conn) (peerId : JSString) (peer : option Peer)
  (roomId : JSString) (created : option Z) (st : State) : State :=
  let st := cancelCleanup roomId st in
  let st := upd_storage (setRoom roomId (mkRoom (Some peerId) created)) st in
  let st := set_hostWsConnections (<[roomId := ws]> (hostWsConnections st)) st in
  let st := upd_storage (setPeer peerId (peerWithRoom peer (Some roomId))) st in
  withToken (c_sessionToken c) (λ t, updateSessionRoom t (Some roomId)) st.

(** Lines 857-890. *)
Definition registerHost (ws : nat) (c : Conn) (peerId : JSString) (peer : option Peer)
  (message : JValue) (now : Z) (st : State) : State :=
  if negb (isValidRoomId (get_field (js "roomId") message)) then
    sendTo ws (MRegisterHostFailed (get_field (js "roomId") message) "Invalid room ID format") st
  else
    match get_string (js "roomId") message with
    | Some roomId =>
        match getRoom roomId (storage st) with
        | Some existingRoom =>
            if hasPeer (hostPeerId existingRoom) (storage st) then
              sendTo ws (MRegisterHostFailed (Some (JStr roomId)) "Room already has a host") st
            else
              sendTo ws (MRegisterHostSuccess roomId)
                (installHost ws c peerId peer roomId (Some now) st)
        | None =>
            sendTo ws (MRegisterHostSuccess roomId)
              (installHost ws c peerId peer roomId (Some now) st)
        end
    | None => st
    end.

(** Lines 893-925. *)
Definition claimHost (ws : nat) (c : Conn) (peerId : JSString) (peer : option Peer)
  (message : JValue) (now : Z) (st : State) : State :=
  if negb (isValidRoomId (get_field (js "roomId") message)) then
    sendTo ws (MClaimHostFailed (get_field (js "roomId") message) "Invalid room ID format") st
  else
    match get_string (js "roomId") message with
    | Some roomId =>
        match getRoom roomId (storage st) with
        | Some room =>
            if negb (hasPeer (hostPeerId room) (storage st)) then
              sendTo ws (MClaimHostSuccess roomId)
                (installHost ws c peerId peer roomId (createdAt room) st)
            else
              sendTo ws (MClaimHostFailed (Some (JStr roomId)) "Room already has active host") st
        | None =>
            sendTo ws (MClaimHostSuccess roomId)
              (installHost ws c peerId peer roomId (Some now) st)
        end
    | None => st
    end.

(** Lines 928-969. *)
Definition joinRoom (ws : nat) (c : Conn) (peerId : JSString) (peer : option Peer)
  (message : JValue) (st : State) : State :=
  if negb (isValidRoomId (get_field (js "roomId") message)) then
    sendTo ws (MJoinRoomFailed (get_field (js "roomId") message) "Invalid room ID format") st
  else
    match get_string (js "roomId") message with
    | Some roomId =>
        match getRoom roomId (storage st) with
        | None =>
            sendTo ws (MJoinRoomFailed (Some (JStr roomId)) "Room does not exist") st
        | Some room =>
            if negb (hasPeer (hostPeerId room) (storage st)) then
              sendTo ws (MJoinRoomFailed (Some (JStr roomId)) "Room host is disconnected") st
            else
              let st := upd_storage (setPeer peerId (peerWithRoom peer (Some roomId))) st in
              let st := upd_storage (addRoomMember roomId peerId) st in
              let st := withToken (c_sessionToken c) (λ t, updateSessionRoom t (Some roomId)) st in
              let st := sendTo ws (MJoinRoomSuccess roomId (hostPeerId room)) st in
              sendToMaybe (hostWsConnections st !! roomId) (MPeerConnecting peerId) st
        end
    | None => st
    end.

(** Lines 972-993: [offer], [answer] and [ice-candidate]. *)
Definition relaySignal (ws : nat) (peerId : JSString) (message : JValue) (st : State) : State :=
  if negb (isValidPeerId (get_field (js "targetPeerId") message)) then
    sendError ws "invalid-peer" "Invalid target peer ID" st
  else
    match get_string (js "targetPeerId") message with
    | Some targetPeerId =>
        if negb (hasPeer (Some targetPeerId) (storage st)) then
          sendError ws "peer-not-found" "Target peer not found" st
        else
          sendToPeer targetPeerId
            (MRelay (set_field (js "fromPeerId") (JStr peerId) (spread message))) st
    | None => st
    end.

(** The host of [roomId] goes away (lines 1003-1010 on [leave-room], lines
    1048-1055 on ['close']): the members are told, the host slot is cleared
    and the cleanup timer is armed. *)
Definition hostGone (roomId : JSString) (now : Z) (st : State) : State :=
  let members := getRoomMembers roomId (storage st) in
  let st := notifyAll members (MHostDisconnected roomId) st in
  let st := upd_storage (setRoom roomId (mkRoom None None)) st in
  let st := set_hostWsConnections (delete roomId (hostWsConnections st)) st in
  scheduleRoomCleanup roomId now st.

(** Lines 996-1022. *)
Definition leaveRoom (c : Conn) (peerId : JSString) (peer : option Peer)
  (now : Z) (st : State) : State :=
  match peer with
  | Some p =>
      match asTruthy (p_roomId p) with
      | Some roomId =>
          let st :=
            match getRoom roomId (storage st) with
            | Some room =>
                if bool_decide (hostPeerId room = Some peerId)
                then hostGone roomId now st
                else upd_storage (removeRoomMember roomId peerId) st
            | None => st
            end in
          let st := upd_storage (setPeer peerId (peerWithRoom peer None)) st in
          withToken (c_sessionToken c) (λ t, updateSessionRoom t None) st
      | None => st
      end
  | None => st
  end.

(** Lines 808-1027: a message of an authenticated connection. *)
Definition onActive (ws : nat) (c : Conn) (peerId : JSString) (message : JValue)
  (ty : JSString) (now : Z) (st : State) : State :=
  let '(ok, st) := checkRateLimit peerId now st in
  if negb ok then sendError ws "rate-limit" "Too many messages" st
  else
    let st :=
      match asTruthy (c_sessionToken c) with
      | Some t => upd_storage (updateSessionLastSeen t now) st
      | None => st
      end in
    let peer := getPeer peerId (storage st) in
    match classify ty with
    | THeartbeat => sendTo ws MHeartbeatAck st
    | TQueryRoom => queryRoom ws message st
    | TRegisterHost => registerHost ws c peerId peer message now st
    | TClaimHost => claimHost ws c peerId peer message now st
    | TJoinRoom => joinRoom ws c peerId peer message st
    | TSignal => relaySignal ws peerId message st
    | TLeaveRoom => leaveRoom c peerId peer now st
    | THello | TUnknown => st
    end.

(** [ws.on('message', ...)] (lines 706-1028). *)
Definition onMessage (ws : nat) (data : Raw) (now : Z) (fresh : JSString) (st : State) : State :=
  match conns st !! ws with
  | None => st
  | Some c =>
      match data with
      | BadJson => sendError ws "invalid-json" "Invalid JSON message" st
      | Parsed message =>
          match messageType message with
          | None => sendError ws "invalid-message" "Message must have a type" st
          | Some ty =>
              match asTruthy (c_peerId c) with
              | None => onHandshake ws c message ty now fresh st
              | Some peerId => onActive ws c peerId message ty now st
              end
          end
      end
  end.

(** [ws.on('close', ...)] (lines 1030-1073). *)
Definition onClose (ws : nat) (now : Z) (st : State) : State :=
  match conns st !! ws with
  | None => st
  | Some c =>
      let st :=
        set_conns (<[ws := mkConn (c_ip c) (c_peerId c) (c_sessionToken c) CLOSED]> (conns st)) st in
      match asTruthy (c_peerId c) with
      | None => untrackConnection (Some (c_ip c)) ws st
      | Some peerId =>
          let st :=
            match getPeer peerId (storage st) with
            | Some peer =>
                let st := untrackConnection (p_ip peer) ws st in
                match asTruthy (p_roomId peer) with
                | Some roomId =>
                    match getRoom roomId (storage st) with
                    | Some room =>
                        if bool_decide (hostPeerId room = Some peerId)
                        then hostGone roomId now st
                        else st
                    | None => st
                    end
                | None => st
                end
            | None => st
            end in
          let st := set_messageRates (delete peerId (messageRates st)) st in
          let st := set_wsConnections (delete peerId (wsConnections st)) st in
          upd_storage (deletePeer peerId) st
      end
  end.

(** [wss.on('connection', ...)] (lines 690-704).  A connection over the
    limit is told so and closed before any handler is attached to it. *)
Definition onConnection (ws : nat) (ip : JSString) (st : State) : State :=
  if negb (checkConnectionLimit ip st) then
    set_outbox (outbox st ++ [(ws, MError "rate-limit" "Too many connections")]) st
  else
    set_conns (<[ws := mkConn ip None None OPEN]> (conns st)) (trackConnection ip ws st).

(** The sweep of stale rate entries (lines 1081-1088). *)
Definition sweepRates (now : Z) (st : State) : State :=
  set_messageRates
    (filter (λ kv, ¬ (windowMs * 10 < now - windowStart kv.2)) (messageRates st)) st.

(** The sweep of expired sessions (lines 1091-1108). *)
Definition sweepSessions (now : Z) (st : State) : State :=
  let '(expired, sto) := cleanupExpiredSessions SESSION_EXPIRY_SECONDS now (storage st) in
  let st := upd_storage (λ _, sto) st in
  foldl (λ acc kv,
           match asTruthy (s_roomId kv.2) with
           | Some roomId => upd_storage (removeRoomMember roomId (s_peerId kv.2)) acc
           | None => acc
           end) st expired.

(** ** The transition system *)

Inductive Event : Type :=
| EConnection (ws : nat) (ip : JSString)
| EMessage (ws : nat) (data : Raw) (now : Z) (fresh : JSString)
| EClose (ws : nat) (now : Z)
| ETimer (timer : nat) (now : Z)
| ESweepRates (now : Z)
| ESweepSessions (now : Z).

(** The socket [ws] is a connection that has not closed yet. *)
Definition alive (ws : nat) (st : State) : bool :=
  match conns st !! ws with
  | Some c => match c_readyState c with CLOSED => false | _ => true end
  | None => false
  end.

(** The timeout [timer] is pending and due at [now]. *)
Definition isDue (timer : nat) (now : Z) (st : State) : bool :=
  match timers st !! timer with
  | Some (_, at_) => bool_decide (at_ ≤ now)
  | None => false
  end.

(** When the runtime can deliver an event: a socket connects once; a
    socket that is not closed yet receives messages and closes once;
    [generatePeerId()] yields 32 hex characters; a timeout fires when it is
    pending and due. *)
Definition enabled (e : Event) (st : State) : bool :=
  match e with
  | EConnection ws _ => bool_decide (conns st !! ws = None)
  | EMessage ws _ _ fresh => alive ws st && isValidPeerId (Some (JStr fresh))
  | EClose ws _ => alive ws st
  | ETimer timer now => isDue timer now st
  | ESweepRates _ | ESweepSessions _ => true
  end.

Definition apply (e : Event) (st : State) : State :=
  match e with
  | EConnection ws ip => onConnection ws ip st
  | EMessage ws data now fresh => onMessage ws data now fresh st
  | EClose ws now => onClose ws now st
  | ETimer timer _ => onTimer timer st
  | ESweepRates now => sweepRates now st
  | ESweepSessions now => sweepSessions now st
  end.

Inductive step : State → Event → State → Prop :=
| step_event e st : enabled e st = true → step st e (apply e st).

Inductive reachable : State → Prop :=
| reachable_initial : reachable initial
| reachable_step st e st' : reachable st → step st e st' → reachable st'.

(** A run: the events applied in order. *)
Definition run (es : list Event) (st : State) : State :=
  foldl (λ acc e, apply e acc) st es.

(** Every event of the run can be delivered when its turn comes. *)
Fixpoint enabledAll (es : list Event) (st : State) : bool :=
  match es with
  | [] => true
  | e :: rest => enabled e st && enabledAll rest (apply e st)
  end.

End Server.



(** [ws] is an authenticated connection of the identity [peerId]. *)
Definition activeConn (ws : nat) (c : Conn) (peerId : JSString) (st : State) : Prop :=
  conns st !! ws = Some c ∧ asTruthy (c_peerId c) = Some peerId.

(** ** Concrete peers, rooms and messages for the examples *)

Module Scenario.

Definition ttl : Z := 300.
Definition ipA : JSString := js "10.0.0.1".
Definition tokenH : JSString := js "aaaaaaaa-aaaa-aaaa-aaaa-aaaaaaaaaaaa".
Definition tokenM : JSString := js "bbbbbbbb-bbbb-bbbb-bbbb-bbbbbbbbbbbb".
Definition tokenG : JSString := js "cccccccc-cccc-cccc-cccc-cccccccccccc".
Definition idH : JSString := js "11111111111111111111111111111111".
Definition idM : JSString := js "22222222222222222222222222222222".
Definition idG : JSString := js "33333333333333333333333333333333".
Definition idX : JSString := js "99999999999999999999999999999999".
Definition roomX : JSString := js "abcd1234".
Definition roomY : JSString := js "wxyz5678".

Definition hello (token : JSString) : Raw :=
  Parsed (JObj [(js "type", JStr (js "hello")); (js "sessionToken", JStr token)]).

Definition roomMsg (type : string) (roomId : JSString) : JValue :=
  JObj [(js "type", JStr (js type)); (js "roomId", JStr roomId)].

Definition plainMsg (type : string) : JValue :=
  JObj [(js "type", JStr (js type))].

(** H connects on socket 1 and introduces itself. *)
Definition oneActiveEvents : list Event :=
  [EConnection 1 ipA; EMessage 1 (hello tokenH) 0 idH].

Definition oneActive : State := run ttl oneActiveEvents initial.

(** H hosts room X, M has joined it. *)
Definition hostAndMemberEvents : list Event :=
  oneActiveEvents
  ++ [EMessage 1 (Parsed (roomMsg "register-host" roomX)) 1 idX;
      EConnection 2 ipA; EMessage 2 (hello tokenM) 2 idM;
      EMessage 2 (Parsed (roomMsg "join-room" roomX)) 3 idX].

Definition hostAndMember : State := run ttl hostAndMemberEvents initial.

(** The host H of room X has lost its transport. *)
Definition hostLostEvents : list Event := hostAndMemberEvents ++ [EClose 1 10].

Definition hostLost : State := run ttl hostLostEvents initial.

End Scenario.

(** The socket of [ws] is [OPEN]. *)
Definition isOpen (ws : nat) (st : State) : bool :=
  match conns st !! ws with
  | Some c => match c_readyState c with OPEN => true | _ => false end
  | None => false
  end.

Definition sentTo (ws : nat) (m : OutMsg) (st : State) : list (nat * OutMsg) :=
  if isOpen ws st then [(ws, m)] else [].

Definition sentToPeer (peerId : JSString) (m : OutMsg) (st : State) : list (nat * OutMsg) :=
  match wsConnections st !! peerId with
  | Some ws => sentTo ws m st
  | None => []
  end.

Definition delivered (members : list JSString) (m : OutMsg) (st : State) : list (nat * OutMsg) :=
  members ≫= (λ p, sentToPeer p m st).

(** C9 as the spec words it: every message of an authenticated connection
    moves [lastSeen] to the time of the message. *)
Definition everyMessageRefreshes (ttl : Z) : Prop :=
  ∀ ws c peerId tok message ty now fresh st,
    activeConn ws c peerId st →
    asTruthy (c_sessionToken c) = Some tok →
    messageType message = Some ty →
    is_Some (sessions (storage st) !! tok) →
    s_lastSeen <$> sessions (storage (onMessage ttl ws (Parsed message) now fresh st)) !! tok
    = Some now.

(** H has sent 50 heartbeats at time 5. *)
Definition fiftyHeartbeats : State :=
  run Scenario.ttl
    (replicate 50 (EMessage 1 (Parsed (Scenario.plainMsg "heartbeat")) 5 Scenario.idX))
    Scenario.oneActive.

(** A registered transport has an entry in the ledger. *)
Definition registryInLedger (wsC : gmap JSString nat) (ps : gmap JSString Peer) : Prop :=
  ∀ p w, wsC !! p = Some w → is_Some (ps !! p).

(** A registered transport is a connection of that identity. *)
Definition registryOwned (wsC : gmap JSString nat) (cs : gmap nat Conn) : Prop :=
  ∀ p w, wsC !! p = Some w → ∃ c, cs !! w = Some c ∧ c_peerId c = Some p.

(** Identities are never the empty string. *)
Definition connIdsOk (cs : gmap nat Conn) : Prop :=
  ∀ w c p, cs !! w = Some c → c_peerId c = Some p → p ≠ [].

Definition sessionIdsOk (ss : gmap JSString Session) : Prop :=
  ∀ tok v, ss !! tok = Some v → s_peerId v ≠ [].

Definition hostIdsOk (rs : gmap JSString Room) : Prop :=
  ∀ r room h, rs !! r = Some room → hostPeerId room = Some h → h ≠ [].

(** The transport recorded for the host of a room is a connection of the
    host recorded in the directory. *)
Definition hostWsOwned (hws : gmap JSString nat) (rs : gmap JSString Room)
  (cs : gmap nat Conn) : Prop :=
  ∀ r w, hws !! r = Some w →
         ∃ room c h, rs !! r = Some room ∧ hostPeerId room = Some h
                     ∧ cs !! w = Some c ∧ c_peerId c = Some h.

(** Every pending timeout is the one its room is waiting for. *)
Definition timersTracked (tms : gmap nat (JSString * Z)) (cts : gmap JSString nat) : Prop :=
  ∀ t r due, tms !! t = Some (r, due) → cts !! r = Some t.

(** Timer handles are handed out in increasing order, and no two rooms
    wait for the same one. *)
Definition timerIdsBounded (cts : gmap JSString nat) (next : nat) : Prop :=
  ∀ r t, cts !! r = Some t → (t < next)%nat.

Definition timersInjective (cts : gmap JSString nat) : Prop :=
  ∀ r1 r2 t, cts !! r1 = Some t → cts !! r2 = Some t → r1 = r2.

(** [ws] is a connection that has authenticated as [p]. *)
Definition connOf (ws : nat) (p : JSString) (st : State) : Prop :=
  ∃ c, conns st !! ws = Some c ∧ c_peerId c = Some p.

(** What holds in every reachable state. *)
Record Inv (st : State) : Prop := mkInv {
  inv_registry_ledger : registryInLedger (wsConnections st) (peers (storage st));
  inv_registry_conn : registryOwned (wsConnections st) (conns st);
  inv_conn_id : connIdsOk (conns st);
  inv_session_id : sessionIdsOk (sessions (storage st));
  inv_host_id : hostIdsOk (rooms (storage st));
  inv_host_ws : hostWsOwned (hostWsConnections st) (rooms (storage st)) (conns st);
  inv_timers : timersTracked (timers st) (cleanupTimers st);
  inv_timer_ids : timerIdsBounded (cleanupTimers st) (nextTimer st);
  inv_timer_inj : timersInjective (cleanupTimers st)
}.

(** The host the directory records for a room. *)
Definition hostOf (r : JSString) (st : State) : option JSString :=
  rooms (storage st) !! r ≫= hostPeerId.

(** [p] has a transport in the registry. *)
Definition live (p : JSString) (st : State) : Prop :=
  is_Some (wsConnections st !! p).

(** [p] is recorded as host of [r]: in the directory, or as the identity
    behind the host transport of the room. *)
Definition recordedHost (r p : JSString) (st : State) : Prop :=
  hostOf r st = Some p
  ∨ ∃ w, hostWsConnections st !! r = Some w ∧ connOf w p st.

(** The host recorded for [r], if any, is neither in the registry nor in
    the ledger. *)
Definition noLiveHost (r : JSString) (st : State) : Prop :=
  ∀ q, hostOf r st = Some q →
       wsConnections st !! q = None ∧ peers (storage st) !! q = None.

(** Every host that a transition newly records was installed over a room
    without a live host. *)
Definition hostInstallChecked (st st' : State) : Prop :=
  ∀ r p, hostOf r st' = Some p → hostOf r st ≠ Some p → noLiveHost r st.

(** The state a message of an authenticated connection is routed in: the
    rate counter has counted it and [lastSeen] is refreshed (lines
    808-817). *)
Definition admitted (c : Conn) (peerId : JSString) (now : Z) (st : State) : State :=
  let st1 := (checkRateLimit peerId now st).2 in
  match asTruthy (c_sessionToken c) with
  | Some t => upd_storage (updateSessionLastSeen t now) st1
  | None => st1
  end.

(** No room record, or a recorded host that the ledger does not know (any
    more): the condition under which [register-host] and [claim-host]
    install the caller. *)
Definition hostSlotFree (roomId : JSString) (st : State) : bool :=
  match getRoom roomId (storage st) with
  | Some room => negb (hasPeer (hostPeerId room) (storage st))
  | None => true
  end.

(** M offers to H and claims to be somebody else. *)
Definition forgedOffer : JValue :=
  JObj [(js "type", JStr (js "offer"));
        (js "targetPeerId", JStr Scenario.idH);
        (js "fromPeerId", JStr Scenario.idG);
        (js "sdp", JStr (js "v=0"))].

(** The ledger has the peer in no room (or does not have the peer). *)
Definition inNoRoom (peerId : JSString) (st : State) : Prop :=
  ∀ peer, getPeer peerId (storage st) = Some peer → asTruthy (p_roomId peer) = None.

(** G hosts a second room Y beside room X of H and M. *)
Definition twoRoomsEvents : list Event :=
  Scenario.hostAndMemberEvents
  ++ [EConnection 3 Scenario.ipA; EMessage 3 (Scenario.hello Scenario.tokenG) 4 Scenario.idG;
      EMessage 3 (Parsed (Scenario.roomMsg "register-host" Scenario.roomY)) 5 Scenario.idX].

Definition twoRooms : State := run Scenario.ttl twoRoomsEvents initial.

(** After H lost its transport, a new socket 3 has connected. *)
Definition reconnectingEvents : list Event :=
  Scenario.hostLostEvents ++ [EConnection 3 Scenario.ipA].

Definition reconnecting : State := run Scenario.ttl reconnectingEvents initial.

(** [m] tells that room [r] is closed. *)
Definition isRoomClosed (r : JSString) (m : OutMsg) : bool :=
  match m with
  | MRoomClosed r' _ => bool_decide (r' = r)
  | _ => false
  end.

(** The [room-closed] messages for [r] in a log. *)
Definition closedIn (r : JSString) (out : list (nat * OutMsg)) : list (nat * OutMsg) :=
  filter (λ x, isRoomClosed r x.2 = true) out.

(** The [room-closed] messages for [r] sent so far. *)
Definition closedNotices (r : JSString) (st : State) : list (nat * OutMsg) :=
  closedIn r (outbox st).

(** Room [r] has a record without host, and its cleanup timeout [t] is
    pending, due at [due]. *)
Definition awaiting (r : JSString) (t : nat) (due : Z) (st : State) : Prop :=
  (∃ room, rooms (storage st) !! r = Some room ∧ hostPeerId room = None)
  ∧ cleanupTimers st !! r = Some t
  ∧ timers st !! t = Some (r, due).

(** No timeout is pending for room [r]. *)
Definition noTimerFor (r : JSString) (st : State) : Prop :=
  ∀ t due, timers st !! t ≠ Some (r, due).

(** Nothing is sent about the closing of [r] between [st] and [st']. *)
Definition quiet (r : JSString) (st st' : State) : Prop :=
  closedNotices r st' = closedNotices r st.

(** A timeout that is pending for [r] after a transition was pending
    before it, unless the transition left [r] without host. *)
Definition armsOnlyHostless (r : JSString) (st st' : State) : Prop :=
  ∀ t due, timers st' !! t = Some (r, due) →
           timers st !! t = Some (r, due) ∨ hostOf r st' = None.

(** [awaiting], on the maps it speaks about. *)
Definition awaitingF (r : JSString) (t : nat) (due : Z) (rs : gmap JSString Room)
  (cts : gmap JSString nat) (tms : gmap nat (JSString * Z)) : Prop :=
  (∃ room, rs !! r = Some room ∧ hostPeerId room = None)
  ∧ cts !! r = Some t
  ∧ tms !! t = Some (r, due).

(** What a transition other than the firing of the timeout can make of a
    room that awaits its cleanup: it still awaits it, or it has a host again
    and the timeout is cancelled. *)
Definition outcomeF (r : JSString) (t : nat) (due : Z) (rs : gmap JSString Room)
  (cts : gmap JSString nat) (tms : gmap nat (JSString * Z)) : Prop :=
  awaitingF r t due rs cts tms
  ∨ (∃ p, rs !! r ≫= hostPeerId = Some p) ∧ cts !! r = None ∧ tms !! t = None.

Definition outcome (r : JSString) (t : nat) (due : Z) (st : State) : Prop :=
  outcomeF r t due (rooms (storage st)) (cleanupTimers st) (timers st).

(** Room [r] keeps a host after every event of the run. *)
Fixpoint staysHosted (ttl : Z) (r : JSString) (es : list Event) (st : State) : Prop :=
  match es with
  | [] => True
  | e :: rest => hostOf r (apply ttl e st) ≠ None ∧ staysHosted ttl r rest (apply ttl e st)
  end.

(** No event of the run leaves room [r] with a host. *)
Fixpoint staysHostless (ttl : Z) (r : JSString) (es : list Event) (st : State) : Prop :=
  match es with
  | [] => True
  | e :: rest => hostOf r (apply ttl e st) = None ∧ staysHostless ttl r rest (apply ttl e st)
  end.

(** What a message handler may do to a connection: the address stays,
    once [peerId] is set, [peerId] and [sessionToken] stay too, and the
    socket is marked closed after it exactly when it was before. *)
Definition connStep (c c' : Conn) : Prop :=
  c_ip c' = c_ip c
  ∧ (asTruthy (c_peerId c) ≠ None →
     c_peerId c' = c_peerId c ∧ c_sessionToken c' = c_sessionToken c)
  ∧ (c_readyState c' = CLOSED ↔ c_readyState c = CLOSED).

Definition connsKept (st st' : State) : Prop :=
  ∀ ws c, conns st !! ws = Some c → ∃ c', conns st' !! ws = Some c' ∧ connStep c c'.

(** Every tracked set of sockets is non-empty, within the cap, and made
    of connections accepted from that address. *)
Definition ipTracked (st : State) : Prop :=
  ∀ ip S, connectionsByIp st !! ip = Some S →
    S ≠ ∅ ∧ (size S ≤ maxConnectionsPerIp)%nat
    ∧ ∀ ws, ws ∈ S → ∃ c, conns st !! ws = Some c ∧ c_ip c = ip.

(** Every connection that has not closed is tracked under its address. *)
Definition aliveTracked (st : State) : Prop :=
  ∀ ws c, conns st !! ws = Some c → c_readyState c ≠ CLOSED →
    ∃ S, connectionsByIp st !! c_ip c = Some S ∧ ws ∈ S.

(** No handler but the connection handler makes a connection. *)
Definition connsDom (st st' : State) : Prop :=
  ∀ ws, conns st !! ws = None → conns st' !! ws = None.

(** Every registered transport is a connection that has not closed. *)
Definition registryAlive (st : State) : Prop :=
  ∀ p w, wsConnections st !! p = Some w → alive w st = true.

(** H, the host of X, says hello again on socket 3; the close of its old
    socket 1 then takes H out of the registry and the ledger and vacates
    the room; H claims the room back on socket 3, which puts H into the
    ledger again, but not into the registry. *)
Definition reclaimedEvents : list Event :=
  Scenario.hostAndMemberEvents
  ++ [EConnection 3 Scenario.ipA; EMessage 3 (Scenario.hello Scenario.tokenH) 5 Scenario.idX;
      EClose 1 10;
      EMessage 3 (Parsed (Scenario.roomMsg "claim-host" Scenario.roomX)) 11 Scenario.idX].

Definition reclaimed : State := run Scenario.ttl reclaimedEvents initial.

(** C2 as the spec words it, with liveness read off the transport
    registry: a valid [claim-host] installs the caller whenever the
    recorded host of the room, if any, has no transport in the registry. *)
Definition claimDecidedByRegistry (ttl : Z) : Prop :=
  ∀ ws c peerId message roomId now fresh st,
    reachable ttl st →
    activeConn ws c peerId st →
    c_readyState c = OPEN →
    messageType message = Some (js "claim-host") →
    get_field (js "roomId") message = Some (JStr roomId) →
    isValidRoomId (Some (JStr roomId)) = true →
    (checkRateLimit peerId now st).1 = true →
    (∀ h, hostOf roomId st = Some h → wsConnections st !! h = None) →
    hostOf roomId (onMessage ttl ws (Parsed message) now fresh st) = Some peerId.

(** C5 as the spec words it: a signaling message whose target is
    well-formed and names a peer that is in the ledger (the test of the
    handler) and has an open connection of its own reaches the target. *)
Definition relayReachesLivePeers (ttl : Z) : Prop :=
  ∀ ws c A message ty B wB now fresh st,
    reachable ttl st →
    activeConn ws c A st →
    messageType message = Some ty →
    ty = js "offer" ∨ ty = js "answer" ∨ ty = js "ice-candidate" →
    get_field (js "targetPeerId") message = Some (JStr B) →
    isValidPeerId (Some (JStr B)) = true →
    hasPeer (Some B) (storage st) = true →
    connOf wB B st →
    isOpen wB st = true →
    (checkRateLimit A now st).1 = true →
    outbox (onMessage ttl ws (Parsed message) now fresh st)
    = outbox st
      ++ [(wB, MRelay (set_field (js "fromPeerId") (JStr A) (spread message)))].

(** M, a member of X, has registered room Y as its host. *)
Definition ownRoomEvents : list Event :=
  Scenario.hostAndMemberEvents
  ++ [EMessage 2 (Parsed (Scenario.roomMsg "register-host" Scenario.roomY)) 4 Scenario.idX].

Definition ownRoom : State := run Scenario.ttl ownRoomEvents initial.

(** C10 as it is worded: after a successful [join-room] for a second room
    Y, a [leave-room] takes the peer out of the members of Y. *)
Definition leaveRemovesFromSecondRoom (ttl : Z) : Prop :=
  ∀ ws c peerId message leave X Y roomY now fresh now2 fresh2 st,
    reachable ttl st →
    activeConn ws c peerId st →
    messageType message = Some (js "join-room") →
    get_field (js "roomId") message = Some (JStr Y) →
    isValidRoomId (Some (JStr Y)) = true →
    messageType leave = Some (js "leave-room") →
    X ≠ Y →
    peerId ∈ getRoomMembers X (storage st) →
    rooms (storage st) !! Y = Some roomY →
    hasPeer (hostPeerId roomY) (storage st) = true →
    (checkRateLimit peerId now st).1 = true →
    (checkRateLimit peerId now2 (onMessage ttl ws (Parsed message) now fresh st)).1 = true →
    peerId ∉ getRoomMembers Y
               (storage (onMessage ttl ws (Parsed leave) now2 fresh2
                           (onMessage ttl ws (Parsed message) now fresh st))).

(** H, the host of X, has joined room Y of G. *)
Definition joinedElsewhereEvents : list Event :=
  twoRoomsEvents
  ++ [EMessage 1 (Parsed (Scenario.roomMsg "join-room" Scenario.roomY)) 6 Scenario.idX].

Definition joinedElsewhere : State := run Scenario.ttl joinedElsewhereEvents initial.

(** H, the host of X, has joined room Y of G and then lost its transport:
    the ledger had H in Y, so nothing happened to X, which still records
    H. *)
Definition strayHostEvents : list Event :=
  joinedElsewhereEvents ++ [EClose 1 100].

(** After that, the member M of X has lost its transport too, and a new
    socket 4 has connected. *)
Definition departedHostEvents : list Event :=
  strayHostEvents ++ [EClose 2 110; EConnection 4 Scenario.ipA].

Definition departedHost : State := run Scenario.ttl departedHostEvents initial.

(** While H and M are connected, a new socket 3 has connected. *)
Definition secondSocketEvents : list Event :=
  Scenario.hostAndMemberEvents ++ [EConnection 3 Scenario.ipA].

Definition secondSocket : State := run Scenario.ttl secondSocketEvents initial.

(** C4 as it is worded, with "hostless" read as the spec defines it (a
    recorded host that is in neither the registry nor the ledger counts as
    no host): a restored identity is installed as host of its room whenever
    the room has no live host. *)
Definition restoreInstallsWhenHostless (ttl : Z) : Prop :=
  ∀ ws c tok v message now fresh r room st,
    reachable ttl st →
    conns st !! ws = Some c →
    asTruthy (c_peerId c) = None →
    c_readyState c = OPEN →
    messageType message = Some (js "hello") →
    get_field (js "sessionToken") message = Some (JStr tok) →
    isValidSessionToken (Some (JStr tok)) = true →
    sessions (storage st) !! tok = Some v →
    now - s_lastSeen v < ttl * 1000 →
    asTruthy (s_roomId v) = Some r →
    rooms (storage st) !! r = Some room →
    noLiveHost r st →
    hostOf r (onMessage ttl ws (Parsed message) now fresh st) = Some (s_peerId v).

(** A timeout for [r] that is pending after a transition was pending
    before it, or [r] has a record without host after it. *)
Definition armsOnlyVacated (r : JSString) (st st' : State) : Prop :=
  ∀ t due, timers st' !! t = Some (r, due) →
           timers st !! t = Some (r, due)
           ∨ ∃ room, rooms (storage st') !! r = Some room ∧ hostPeerId room = None.

(** Every pending timeout belongs to a room that awaits its cleanup. *)
Definition pendingAwaits (st : State) : Prop :=
  ∀ t r due, timers st !! t = Some (r, due) → awaiting r t due st.

(** M, a member of X, has said hello again on socket 3; the close of its
    old socket 2 has taken it out of the registry and the ledger; then the
    host H has lost its transport.  M is still listed in X and connected on
    socket 3. *)
Definition unheardMemberEvents : list Event :=
  secondSocketEvents
  ++ [EMessage 3 (Scenario.hello Scenario.tokenM) 5 Scenario.idX; EClose 2 10; EClose 1 200].

Definition unheardMember : State := run Scenario.ttl unheardMemberEvents initial.

(** The state [hostAndMember] with a timeout for room X left pending. *)
Definition lateTimer : State :=
  set_timers (<[7%nat := (Scenario.roomX, 0)]> ∅) Scenario.hostAndMember.

(** C3 as it is worded, first half: whenever the transport of the
    recorded host of a room closes, the room awaits its cleanup, due one
    grace period later. *)
Definition hostLossStartsGrace (ttl : Z) : Prop :=
  ∀ ws c h r room now st,
    reachable ttl st →
    conns st !! ws = Some c →
    asTruthy (c_peerId c) = Some h →
    wsConnections st !! h = Some ws →
    rooms (storage st) !! r = Some room →
    hostPeerId room = Some h →
    ∃ t, awaiting r t (now + ROOM_CLEANUP_DELAY) (onClose ws now st).

(** C3 as it is worded, second half: when the timeout of a room that
    awaits its cleanup fires, every listed member that is connected (on an
    open socket that has completed the handshake as that member) is sent
    [room-closed]. *)
Definition closingReachesMembers (ttl : Z) : Prop :=
  ∀ r t due m w st,
    reachable ttl st →
    awaiting r t due st →
    m ∈ getRoomMembers r (storage st) →
    connOf w m st →
    isOpen w st = true →
    (w, MRoomClosed r "Host did not return") ∈ outbox (onTimer t st).

(** What follows a migration in the example: G joins the room, the new
    host M loses its transport, and the timeout armed for that fires. *)
Definition secondLossEvents : list Event :=
  [EConnection 3 Scenario.ipA; EMessage 3 (Scenario.hello Scenario.tokenG) 21 Scenario.idG;
   EMessage 3 (Parsed (Scenario.roomMsg "join-room" Scenario.roomX)) 22 Scenario.idX;
   EClose 2 30; ETimer 1 40000].

(** C3 as it is worded, on what follows a migration: once a
    [claim-host] has succeeded for a room that awaited its cleanup, no run
    of events sends a [room-closed] for that room. *)
Definition migrationSilencesRoom (ttl : Z) : Prop :=
  ∀ r t due ws c peerId message now fresh es st,
    reachable ttl st →
    awaiting r t due st →
    activeConn ws c peerId st →
    c_readyState c = OPEN →
    messageType message = Some (js "claim-host") →
    get_field (js "roomId") message = Some (JStr r) →
    isValidRoomId (Some (JStr r)) = true →
    (checkRateLimit peerId now st).1 = true →
    enabledAll ttl es (onMessage ttl ws (Parsed message) now fresh st) = true →
    closedNotices r (run ttl es (onMessage ttl ws (Parsed message) now fresh st))
    = closedNotices r (onMessage ttl ws (Parsed message) now fresh st).

(** C4 as it is worded, on the member list: a restore adds to the
    members of the session's room only an identity that was listed there in
    some earlier state of the run. *)
Definition restoreAddsOnlyFormerMembers (ttl : Z) : Prop :=
  ∀ es ws c tok v message now fresh r,
    enabledAll ttl es initial = true →
    conns (run ttl es initial) !! ws = Some c →
    asTruthy (c_peerId c) = None →
    c_readyState c = OPEN →
    messageType message = Some (js "hello") →
    get_field (js "sessionToken") message = Some (JStr tok) →
    isValidSessionToken (Some (JStr tok)) = true →
    sessions (storage (run ttl es initial)) !! tok = Some v →
    now - s_lastSeen v < ttl * 1000 →
    asTruthy (s_roomId v) = Some r →
    s_peerId v
    ∈ getRoomMembers r (storage (onMessage ttl ws (Parsed message) now fresh
                                   (run ttl es initial))) →
    ∃ k, s_peerId v ∈ getRoomMembers r (storage (run ttl (take k es) initial)).

(** M has said hello again on socket 3, which closed its socket 2. *)
Definition supersededEvents : list Event :=
  secondSocketEvents ++ [EMessage 3 (Scenario.hello Scenario.tokenM) 5 Scenario.idX].

Definition superseded : State := run Scenario.ttl supersededEvents initial.

(** * Properties *)

(** ** The validators on sample inputs *)

Example isValidRoomId_abcd1234 : isValidRoomId (Some (JStr (js "abcd1234"))) = true.
Proof. reflexivity. Qed.

Example isValidRoomId_dice : isValidRoomId (Some (JStr [9856; 9857; 9861; 9858]%N)) = true.
Proof. reflexivity. Qed.

Example isValidRoomId_short : isValidRoomId (Some (JStr (js "abc"))) = false.
Proof. reflexivity. Qed.

Example isValidRoomId_number : isValidRoomId (Some (JNum 1234)) = false.
Proof. reflexivity. Qed.

Example isValidSessionToken_uuid :
isValidSessionToken (Some (JStr (js "123e4567-E89B-12d3-a456-426614174000"))) = true.
Proof. reflexivity. Qed.

Example isValidSessionToken_missing : isValidSessionToken None = false.
Proof. reflexivity. Qed.

Example isValidPeerId_hex :
isValidPeerId (Some (JStr (js "0123456789abcdef0123456789abcdef"))) = true.
Proof. reflexivity. Qed.

Example isValidPeerId_upper :
isValidPeerId (Some (JStr (js "0123456789ABCDEF0123456789abcdef"))) = false.
Proof. reflexivity. Qed.

(** ** Frame lemmas: what sending and timers leave alone *)

Lemma sendTo_unfold ws m st :
  sendTo ws m st = if isOpen ws st then set_outbox (outbox st ++ [(ws, m)]) st else st.
Proof. unfold sendTo, isOpen. repeat case_match; congruence. Qed.

Lemma asTruthy_Some o p : asTruthy o = Some p → o = Some p ∧ p ≠ [].
Proof.
  unfold asTruthy, truthyStr. destruct o as [[|x l]|]; intros H; try discriminate.
  inversion H; subst. split; [done | discriminate].
Qed.

Lemma asTruthy_of_Some p : p ≠ [] → asTruthy (Some p) = Some p.
Proof. destruct p; [done | reflexivity]. Qed.

(** ** Rate limiting *)




Section RateLimiting.

Variable ttl : Z.


End RateLimiting.


(** ** The error taxonomy of a connection *)

Section ErrorTaxonomy.

Variable ttl : Z.

Lemma isOpen_set_outbox ws out st : isOpen ws (set_outbox out st) = isOpen ws st.
Proof. reflexivity. Qed.

Lemma isOpen_true ws c st :
  conns st !! ws = Some c → c_readyState c = OPEN → isOpen ws st = true.
Proof. intros Hc Ho. unfold isOpen. by rewrite Hc, Ho. Qed.

(** C8.  On an open connection: malformed JSON, a message without a string
    type and a first message that is not [hello] are each answered with a
    structured error and change nothing else, so the connection stays
    open; a [hello] whose session token fails the format check is answered
    with a structured error and the socket is closed. *)
Theorem connection_error_taxonomy ws c st now fresh :
  conns st !! ws = Some c →
  c_readyState c = OPEN →
  (onMessage ttl ws BadJson now fresh st
   = set_outbox (outbox st ++ [(ws, MError "invalid-json" "Invalid JSON message")]) st
   ∧ isOpen ws (onMessage ttl ws BadJson now fresh st) = true)
  ∧ (∀ v, messageType v = None →
       onMessage ttl ws (Parsed v) now fresh st
       = set_outbox (outbox st ++ [(ws, MError "invalid-message" "Message must have a type")]) st
       ∧ isOpen ws (onMessage ttl ws (Parsed v) now fresh st) = true)
  ∧ (∀ v ty, messageType v = Some ty → ty ≠ js "hello" → asTruthy (c_peerId c) = None →
       onMessage ttl ws (Parsed v) now fresh st
       = set_outbox (outbox st ++ [(ws, MError "protocol-error" "First message must be hello")]) st
       ∧ isOpen ws (onMessage ttl ws (Parsed v) now fresh st) = true)
  ∧ (∀ v, messageType v = Some (js "hello") → asTruthy (c_peerId c) = None →
       isValidSessionToken (get_field (js "sessionToken") v) = false →
       onMessage ttl ws (Parsed v) now fresh st
       = set_conns
           (<[ws := mkConn (c_ip c) (c_peerId c) (get_string (js "sessionToken") v) CLOSING]>
              (conns st))
           (set_outbox
              (outbox st ++ [(ws, MError "invalid-session" "Invalid session token format")]) st)
       ∧ isOpen ws (onMessage ttl ws (Parsed v) now fresh st) = false).
Proof.
  intros Hc Ho. pose proof (isOpen_true _ _ _ Hc Ho) as Hopen.
  assert (E1 : ∀ et r, sendError ws et r st = set_outbox (outbox st ++ [(ws, MError et r)]) st).
  { intros. unfold sendError. by rewrite sendTo_unfold, Hopen. }
  assert (E4 : ∀ v, messageType v = Some (js "hello") → asTruthy (c_peerId c) = None →
       isValidSessionToken (get_field (js "sessionToken") v) = false →
       onMessage ttl ws (Parsed v) now fresh st
       = set_conns
           (<[ws := mkConn (c_ip c) (c_peerId c) (get_string (js "sessionToken") v) CLOSING]>
              (conns st))
           (set_outbox
              (outbox st ++ [(ws, MError "invalid-session" "Invalid session token format")]) st)).
  { intros v Hty Hp Htok. unfold onMessage, onHandshake. rewrite Hc, Hty, Hp.
    rewrite bool_decide_eq_false_2 by (intros X; by apply X).
    rewrite Htok. cbn [negb]. unfold setConnToken. rewrite Hc.
    unfold sendError. rewrite sendTo_unfold. unfold isOpen. cbn [conns set_conns].
    rewrite lookup_insert_eq. cbn [c_readyState]. rewrite Ho.
    unfold wsClose. cbn [conns set_conns set_outbox]. rewrite lookup_insert_eq.
    cbn [c_readyState c_ip c_peerId c_sessionToken].
    unfold set_conns, set_outbox. cbn. by rewrite insert_insert_eq. }
  split; [| split; [| split]].
  - unfold onMessage. by rewrite Hc, E1.
  - intros v Hty. unfold onMessage. by rewrite Hc, Hty, E1.
  - intros v ty Hty Hne Hp. unfold onMessage, onHandshake. rewrite Hc, Hty, Hp.
    rewrite bool_decide_eq_true_2 by done. by rewrite E1.
  - intros v Hty Hp Htok. rewrite (E4 v Hty Hp Htok). split; [done|].
    unfold isOpen. cbn. by rewrite lookup_insert_eq.
Qed.

End ErrorTaxonomy.

Lemma connection_error_taxonomy_witness :
  let st := run Scenario.ttl [EConnection 1 Scenario.ipA] initial in
  outbox (onMessage Scenario.ttl 1 BadJson 0 Scenario.idX st)
  = [(1%nat, MError "invalid-json" "Invalid JSON message")]
  ∧ outbox (onMessage Scenario.ttl 1 (Parsed (JNum 5)) 0 Scenario.idX st)
    = [(1%nat, MError "invalid-message" "Message must have a type")]
  ∧ isOpen 1 (onMessage Scenario.ttl 1 (Parsed (Scenario.plainMsg "join-room")) 0 Scenario.idX st)
    = true
  ∧ isOpen 1 (onMessage Scenario.ttl 1 (Scenario.hello (js "not-a-token")) 0 Scenario.idX st)
    = false.
Proof.
  pose proof (connection_error_taxonomy Scenario.ttl 1
    (mkConn Scenario.ipA None None OPEN)
    (run Scenario.ttl [EConnection 1 Scenario.ipA] initial) 0 Scenario.idX) as H.
  destruct H as ((H1 & _) & H2 & H3 & H4).
  - reflexivity.
  - reflexivity.
  - cbn zeta. split; [| split; [| split]].
    + rewrite H1. reflexivity.
    + destruct (H2 (JNum 5)) as [-> _]; reflexivity.
    + destruct (H3 (Scenario.plainMsg "join-room") (js "join-room")) as [_ ->];
        (reflexivity || discriminate).
    + destruct (H4 (JObj [(js "type", JStr (js "hello"));
                          (js "sessionToken", JStr (js "not-a-token"))])) as [_ E];
        [reflexivity | reflexivity | reflexivity | exact E].
Defined.

(** ** What sending changes: the outbox only *)

Lemma set_outbox_id st : set_outbox (outbox st) st = st.
Proof. by destruct st. Qed.

Lemma sendTo_eq ws m st : sendTo ws m st = set_outbox (outbox st ++ sentTo ws m st) st.
Proof.
  rewrite sendTo_unfold. unfold sentTo. destruct (isOpen ws st); [done|].
  by rewrite app_nil_r, set_outbox_id.
Qed.

Lemma sendToPeer_eq p m st :
  sendToPeer p m st = set_outbox (outbox st ++ sentToPeer p m st) st.
Proof.
  unfold sendToPeer, sendToMaybe, sentToPeer. destruct (wsConnections st !! p).
  - apply sendTo_eq.
  - by rewrite app_nil_r, set_outbox_id.
Qed.

Lemma sendToMaybe_eq w m st :
  sendToMaybe w m st
  = set_outbox (outbox st ++ match w with Some ws => sentTo ws m st | None => [] end) st.
Proof.
  destruct w; simpl; [apply sendTo_eq | by rewrite app_nil_r, set_outbox_id].
Qed.

Lemma sendError_eq ws et r st :
  sendError ws et r st = set_outbox (outbox st ++ sentTo ws (MError et r) st) st.
Proof. apply sendTo_eq. Qed.

Lemma sentToPeer_set_outbox p m out st :
  sentToPeer p m (set_outbox out st) = sentToPeer p m st.
Proof. reflexivity. Qed.

Lemma notifyAll_eq members m : ∀ st,
  notifyAll members m st = set_outbox (outbox st ++ delivered members m st) st.
Proof.
  unfold notifyAll, delivered.
  induction members as [|p ps IH]; intros st; simpl.
  - by rewrite app_nil_r, set_outbox_id.
  - rewrite IH, sendToPeer_eq. simpl. rewrite <- app_assoc. f_equal.
Qed.

(** ** Unfolding the handlers *)

Ltac unfold_handlers :=
  unfold onMessage, onActive, onHandshake, restoreSession, restoreRoom, newSession,
    queryRoom, registerHost, claimHost, joinRoom, relaySignal, leaveRoom, hostGone,
    installHost, onClose, onConnection, onTimer, cleanupCallback, sweepRates,
    scheduleRoomCleanup, cancelCleanup, clearTimeout, checkRateLimit,
    withToken, setConnPeer, setConnToken, wsClose, trackConnection, untrackConnection in *.

Ltac sends := rewrite ?sendTo_eq, ?sendToPeer_eq, ?sendToMaybe_eq, ?sendError_eq, ?notifyAll_eq.

Ltac proj :=
  cbn [storage wsConnections hostWsConnections connectionsByIp messageRates cleanupTimers
       timers nextTimer conns outbox upd_storage set_wsConnections set_hostWsConnections
       set_connectionsByIp set_messageRates set_cleanupTimers set_timers set_nextTimer
       set_conns set_outbox sessions peers rooms roomMembers setSession
       updateSessionLastSeen updateSessionRoom getPeer setPeer deletePeer getRoom setRoom
       deleteRoom addRoomMember removeRoomMember getSession fst snd
       c_ip c_peerId c_sessionToken c_readyState negb] in *.

Section Heartbeat.

Variable ttl : Z.

Lemma lastSeen_alter_room (tok t : JSString) (r : option JSString) (m : gmap JSString Session) :
  s_lastSeen <$> alter (λ v, mkSession (s_peerId v) r (s_lastSeen v)) t m !! tok
  = s_lastSeen <$> m !! tok.
Proof.
  rewrite lookup_alter. case_decide; [subst|done]. by destruct (m !! tok).
Qed.

(** Routing never moves a [lastSeen]. *)
Lemma routed_keeps_lastSeen ws c peerId message ty now st tok :
  let routed :=
    match classify ty with
    | THeartbeat => sendTo ws MHeartbeatAck st
    | TQueryRoom => queryRoom ws message st
    | TRegisterHost => registerHost ws c peerId (getPeer peerId (storage st)) message now st
    | TClaimHost => claimHost ws c peerId (getPeer peerId (storage st)) message now st
    | TJoinRoom => joinRoom ws c peerId (getPeer peerId (storage st)) message st
    | TSignal => relaySignal ws peerId message st
    | TLeaveRoom => leaveRoom c peerId (getPeer peerId (storage st)) now st
    | THello | TUnknown => st
    end in
  s_lastSeen <$> sessions (storage routed) !! tok = s_lastSeen <$> sessions (storage st) !! tok.
Proof.
  cbn zeta. unfold_handlers. repeat case_match; sends; proj; rewrite ?lastSeen_alter_room; try done.
Qed.

(** C9, as amended.  A message of an authenticated connection that parses,
    has a type and passes the rate check sets the [lastSeen] of the
    connection's session to the time of the message, whatever routing then
    does with it; a message that the rate limit rejects leaves every session
    as it was. *)
Theorem heartbeat_by_routed_message ws c peerId tok message ty now fresh st :
  activeConn ws c peerId st →
  asTruthy (c_sessionToken c) = Some tok →
  messageType message = Some ty →
  is_Some (sessions (storage st) !! tok) →
  let st' := onMessage ttl ws (Parsed message) now fresh st in
  ((checkRateLimit peerId now st).1 = true →
     s_lastSeen <$> sessions (storage st') !! tok = Some now)
  ∧ ((checkRateLimit peerId now st).1 = false →
       sessions (storage st') = sessions (storage st)).
Proof.
  intros [Hc Hp] Htok Hty [v Hv]. cbn zeta.
  unfold onMessage. rewrite Hc, Hty, Hp. unfold onActive.
  destruct (checkRateLimit peerId now st) as [ok st1] eqn:E.
  assert (Hst1 : storage st1 = storage st).
  { unfold checkRateLimit in E. inversion E. reflexivity. }
  cbn [fst]. split; intros ->; cbn [negb].
  - rewrite Htok.
    rewrite (routed_keeps_lastSeen ws c peerId message ty now
               (upd_storage (updateSessionLastSeen tok now) st1) tok).
    proj. rewrite Hst1, lookup_alter. rewrite decide_True by done. by rewrite Hv.
  - sends. proj. by rewrite Hst1.
Qed.

End Heartbeat.

(** The 51st message of the window, at time 500, is rejected by the rate
    limit and leaves [lastSeen] at 5. *)
Lemma heartbeat_rate_limited_counterexample : ¬ everyMessageRefreshes Scenario.ttl.
Proof.
  intros H.
  specialize (H 1%nat (mkConn Scenario.ipA (Some Scenario.idH) (Some Scenario.tokenH) OPEN)
                Scenario.idH Scenario.tokenH (Scenario.plainMsg "heartbeat") (js "heartbeat")
                500 Scenario.idX fiftyHeartbeats).
  assert (E : s_lastSeen <$> sessions (storage (onMessage Scenario.ttl 1
                (Parsed (Scenario.plainMsg "heartbeat")) 500 Scenario.idX fiftyHeartbeats))
              !! Scenario.tokenH = Some 5) by (vm_compute; reflexivity).
  rewrite E in H. discriminate H.
  - split; vm_compute; reflexivity.
  - reflexivity.
  - reflexivity.
  - vm_compute. eauto.
Qed.

Lemma heartbeat_by_routed_message_witness :
  s_lastSeen <$> sessions (storage (onMessage Scenario.ttl 1
      (Parsed (Scenario.roomMsg "join-room" (js "x"))) 500 Scenario.idX Scenario.oneActive))
    !! Scenario.tokenH = Some 500
  ∧ sessions (storage (onMessage Scenario.ttl 1
      (Parsed (Scenario.plainMsg "heartbeat")) 500 Scenario.idX fiftyHeartbeats))
    = sessions (storage fiftyHeartbeats).
Proof.
  split.
  - apply (heartbeat_by_routed_message Scenario.ttl 1
      (mkConn Scenario.ipA (Some Scenario.idH) (Some Scenario.tokenH) OPEN)
      Scenario.idH Scenario.tokenH (Scenario.roomMsg "join-room" (js "x")) (js "join-room")
      500 Scenario.idX Scenario.oneActive).
    + split; vm_compute; reflexivity.
    + reflexivity.
    + reflexivity.
    + vm_compute. eauto.
    + vm_compute. reflexivity.
  - apply (heartbeat_by_routed_message Scenario.ttl 1
      (mkConn Scenario.ipA (Some Scenario.idH) (Some Scenario.tokenH) OPEN)
      Scenario.idH Scenario.tokenH (Scenario.plainMsg "heartbeat") (js "heartbeat")
      500 Scenario.idX fiftyHeartbeats).
    + split; vm_compute; reflexivity.
    + reflexivity.
    + reflexivity.
    + vm_compute. eauto.
    + vm_compute. reflexivity.
Defined.

(** The invariants, on the maps they speak about. *)

(** ** The invariants under the updates of the maps *)

Section MapInvariants.

Implicit Types (wsC hws cts : gmap JSString nat) (cs : gmap nat Conn)
  (ps : gmap JSString Peer) (rs : gmap JSString Room) (ss : gmap JSString Session)
  (tms : gmap nat (JSString * Z)).

Lemma registryInLedger_set_peer wsC ps k v :
  registryInLedger wsC ps → registryInLedger wsC (<[k := v]> ps).
Proof.
  intros H p w Hp. destruct (decide (k = p)) as [->|]; simplify_map_eq; eauto.
Qed.

Lemma registryInLedger_register wsC ps k x v :
  registryInLedger wsC ps → registryInLedger (<[k := x]> wsC) (<[k := v]> ps).
Proof.
  intros H p w Hp. destruct (decide (k = p)) as [->|]; simplify_map_eq; eauto.
Qed.

Lemma registryInLedger_delete wsC ps k :
  registryInLedger wsC ps → registryInLedger (delete k wsC) (delete k ps).
Proof.
  intros H p w Hp. destruct (decide (k = p)) as [->|]; simplify_map_eq; eauto.
Qed.

Lemma registryOwned_conn_same wsC cs x c c' :
  registryOwned wsC cs → cs !! x = Some c → c_peerId c' = c_peerId c →
  registryOwned wsC (<[x := c']> cs).
Proof.
  intros H Hx Hid p w Hp. destruct (H p w Hp) as (c0 & Hc0 & Hp0).
  destruct (decide (x = w)) as [->|]; simplify_map_eq; eauto.
  eexists; split; [done | congruence].
Qed.

Lemma registryOwned_conn_fresh wsC cs x c' :
  registryOwned wsC cs → cs !! x = None → registryOwned wsC (<[x := c']> cs).
Proof.
  intros H Hx p w Hp. destruct (H p w Hp) as (c0 & Hc0 & Hp0).
  destruct (decide (x = w)) as [->|]; simplify_map_eq; eauto.
Qed.

Lemma registryOwned_conn_assign wsC cs x c c' :
  registryOwned wsC cs → cs !! x = Some c → c_peerId c = None →
  registryOwned wsC (<[x := c']> cs).
Proof.
  intros H Hx Hid p w Hp. destruct (H p w Hp) as (c0 & Hc0 & Hp0).
  destruct (decide (x = w)) as [->|]; simplify_map_eq; eauto.
Qed.

Lemma registryOwned_register wsC cs p x c :
  registryOwned wsC cs → cs !! x = Some c → c_peerId c = Some p →
  registryOwned (<[p := x]> wsC) cs.
Proof.
  intros H Hx Hid q w Hq. destruct (decide (p = q)) as [->|]; simplify_map_eq; eauto.
Qed.

Lemma registryOwned_delete wsC cs p :
  registryOwned wsC cs → registryOwned (delete p wsC) cs.
Proof.
  intros H q w Hq. destruct (decide (p = q)) as [->|]; simplify_map_eq; eauto.
Qed.

Lemma connIdsOk_insert_none cs x c' :
  connIdsOk cs → c_peerId c' = None → connIdsOk (<[x := c']> cs).
Proof.
  intros H Hc w c p Hw Hp. destruct (decide (x = w)) as [->|]; simplify_map_eq; eauto.
Qed.

Lemma connIdsOk_insert_some cs x c' p :
  connIdsOk cs → c_peerId c' = Some p → p ≠ [] → connIdsOk (<[x := c']> cs).
Proof.
  intros H Hc Hne w c q Hw Hp. destruct (decide (x = w)) as [->|]; simplify_map_eq; eauto.
Qed.

Lemma connIdsOk_insert_same cs x c c' :
  connIdsOk cs → cs !! x = Some c → c_peerId c' = c_peerId c → connIdsOk (<[x := c']> cs).
Proof.
  intros H Hx Hc w c0 q Hw Hp. destruct (decide (x = w)) as [->|]; simplify_map_eq; eauto.
  eapply H; [exact Hx | congruence].
Qed.

Lemma sessionIdsOk_insert ss k v :
  sessionIdsOk ss → s_peerId v ≠ [] → sessionIdsOk (<[k := v]> ss).
Proof.
  intros H Hv tok v' Hk. destruct (decide (k = tok)) as [->|]; simplify_map_eq; eauto.
Qed.

Lemma sessionIdsOk_alter ss k (f : Session → Session) :
  sessionIdsOk ss → (∀ v, s_peerId (f v) = s_peerId v) → sessionIdsOk (alter f k ss).
Proof.
  intros H Hf tok v' Hk. rewrite lookup_alter in Hk. case_decide; subst; [|eauto].
  destruct (ss !! tok) as [v0|] eqn:E; simplify_eq/=. rewrite Hf. eauto.
Qed.

Lemma sessionIdsOk_filter ss (P : JSString * Session → Prop) `{∀ x, Decision (P x)} :
  sessionIdsOk ss → sessionIdsOk (filter P ss).
Proof.
  intros Hs tok v Hk. apply map_lookup_filter_Some in Hk as [Hk _]. eauto.
Qed.

Lemma hostIdsOk_insert_none rs r created :
  hostIdsOk rs → hostIdsOk (<[r := mkRoom None created]> rs).
Proof.
  intros H r' room' h Hk Hh. destruct (decide (r = r')) as [->|]; simplify_map_eq; eauto.
Qed.

Lemma hostIdsOk_insert_some rs r h created :
  hostIdsOk rs → h ≠ [] → hostIdsOk (<[r := mkRoom (Some h) created]> rs).
Proof.
  intros H Hne r' room' h' Hk Hh. destruct (decide (r = r')) as [->|]; simplify_map_eq; eauto.
Qed.

Lemma hostIdsOk_delete rs r : hostIdsOk rs → hostIdsOk (delete r rs).
Proof.
  intros H r' room' h Hk Hh. destruct (decide (r = r')) as [->|]; simplify_map_eq; eauto.
Qed.

Lemma hostWsOwned_conn_same hws rs cs x c c' :
  hostWsOwned hws rs cs → cs !! x = Some c → c_peerId c' = c_peerId c →
  hostWsOwned hws rs (<[x := c']> cs).
Proof.
  intros H Hx Hid r w Hr. destruct (H r w Hr) as (room & c0 & h & ? & ? & ? & ?).
  destruct (decide (x = w)) as [->|]; simplify_map_eq.
  - exists room, c', h. repeat split; eauto. congruence.
  - exists room, c0, h. repeat split; eauto.
Qed.

Lemma hostWsOwned_conn_fresh hws rs cs x c' :
  hostWsOwned hws rs cs → cs !! x = None → hostWsOwned hws rs (<[x := c']> cs).
Proof.
  intros H Hx r w Hr. destruct (H r w Hr) as (room & c0 & h & ? & ? & ? & ?).
  destruct (decide (x = w)) as [->|]; simplify_map_eq.
  exists room, c0, h. repeat split; eauto.
Qed.

Lemma hostWsOwned_conn_assign hws rs cs x c c' :
  hostWsOwned hws rs cs → cs !! x = Some c → c_peerId c = None →
  hostWsOwned hws rs (<[x := c']> cs).
Proof.
  intros H Hx Hid r w Hr. destruct (H r w Hr) as (room & c0 & h & ? & ? & ? & ?).
  destruct (decide (x = w)) as [->|]; simplify_map_eq.
  exists room, c0, h. repeat split; eauto.
Qed.

Lemma hostWsOwned_install hws rs cs r w c h created :
  hostWsOwned hws rs cs → cs !! w = Some c → c_peerId c = Some h →
  hostWsOwned (<[r := w]> hws) (<[r := mkRoom (Some h) created]> rs) cs.
Proof.
  intros H Hw Hid r' w' Hr. destruct (decide (r = r')) as [->|]; simplify_map_eq.
  - eexists _, c, h. repeat split; eauto.
  - eauto.
Qed.

Lemma hostWsOwned_clear hws rs cs r room :
  hostWsOwned hws rs cs → hostWsOwned (delete r hws) (<[r := room]> rs) cs.
Proof.
  intros H r' w' Hr. destruct (decide (r = r')) as [->|]; simplify_map_eq. eauto.
Qed.

Lemma hostWsOwned_delete hws rs cs r :
  hostWsOwned hws rs cs → hostWsOwned (delete r hws) (delete r rs) cs.
Proof.
  intros H r' w' Hr. destruct (decide (r = r')) as [->|]; simplify_map_eq. eauto.
Qed.

Lemma timersTracked_cancel tms cts r t :
  timersTracked tms cts → cts !! r = Some t →
  timersTracked (delete t tms) (delete r cts).
Proof.
  intros H Hr t' r' due Ht. destruct (decide (t = t')) as [->|]; simplify_map_eq.
  pose proof (H _ _ _ Ht). destruct (decide (r = r')) as [->|]; simplify_map_eq. done.
Qed.

Lemma timersTracked_clear tms cts t :
  timersTracked tms cts → timersTracked (delete t tms) cts.
Proof.
  intros H t' r' due Ht. destruct (decide (t = t')) as [->|]; simplify_map_eq. eauto.
Qed.

Lemma timersTracked_fired tms cts r t due :
  timersTracked tms cts → tms !! t = Some (r, due) →
  timersTracked (delete t tms) (delete r cts).
Proof.
  intros H Hr. apply timersTracked_cancel; eauto.
Qed.

Lemma timersTracked_rearm tms cts r t0 t due :
  timersTracked tms cts → cts !! r = Some t0 →
  timersTracked (<[t := (r, due)]> (delete t0 tms)) (<[r := t]> cts).
Proof.
  intros H Hr t' r' due' Ht. destruct (decide (t = t')) as [->|]; simplify_map_eq; [done|].
  destruct (decide (t0 = t')) as [->|]; simplify_map_eq.
  pose proof (H _ _ _ Ht). destruct (decide (r = r')) as [->|]; simplify_map_eq. done.
Qed.

Lemma timersTracked_arm tms cts r t due :
  timersTracked tms cts → cts !! r = None →
  timersTracked (<[t := (r, due)]> tms) (<[r := t]> cts).
Proof.
  intros H Hr t' r' due' Ht. destruct (decide (t = t')) as [->|]; simplify_map_eq; [done|].
  pose proof (H _ _ _ Ht). destruct (decide (r = r')) as [->|]; simplify_map_eq. done.
Qed.

Lemma timerIdsBounded_delete cts (next : nat) (r : JSString) :
  timerIdsBounded cts next → timerIdsBounded (delete r cts) next.
Proof.
  intros H r' t Hr. destruct (decide (r = r')) as [->|]; simplify_map_eq. eauto.
Qed.

Lemma timerIdsBounded_arm cts (next : nat) (r : JSString) :
  timerIdsBounded cts next → timerIdsBounded (<[r := next]> cts) (S next).
Proof.
  intros H r' t Hr. destruct (decide (r = r')) as [->|]; simplify_map_eq; [lia|].
  pose proof (H _ _ Hr). lia.
Qed.

Lemma timersInjective_delete cts (r : JSString) :
  timersInjective cts → timersInjective (delete r cts).
Proof.
  intros H r1 r2 t H1 H2.
  destruct (decide (r = r1)), (decide (r = r2)); simplify_map_eq; eauto.
Qed.

Lemma timersInjective_arm cts (next : nat) (r : JSString) :
  timersInjective cts → timerIdsBounded cts next → timersInjective (<[r := next]> cts).
Proof.
  intros H Hb r1 r2 t H1 H2.
  destruct (decide (r = r1)), (decide (r = r2)); simplify_map_eq; eauto.
  - pose proof (Hb _ _ H2). lia.
  - pose proof (Hb _ _ H1). lia.
Qed.

End MapInvariants.

Create HintDb inv discriminated.

#[export] Hint Resolve
  registryInLedger_set_peer registryInLedger_register registryInLedger_delete
  registryOwned_conn_same registryOwned_conn_fresh registryOwned_conn_assign
  registryOwned_register registryOwned_delete
  connIdsOk_insert_none connIdsOk_insert_some connIdsOk_insert_same sessionIdsOk_insert sessionIdsOk_alter sessionIdsOk_filter
  hostIdsOk_insert_none hostIdsOk_insert_some hostIdsOk_delete
  hostWsOwned_conn_same hostWsOwned_conn_fresh hostWsOwned_conn_assign
  hostWsOwned_install hostWsOwned_clear hostWsOwned_delete
  timersTracked_cancel timersTracked_clear timersTracked_fired
  timersTracked_rearm timersTracked_arm
  timerIdsBounded_delete timerIdsBounded_arm timersInjective_delete timersInjective_arm : inv.

Ltac side :=
  solve [ intros; simplify_eq/=; done | done | simplify_map_eq; done
        | simplify_map_eq; congruence ].

#[export] Hint Extern 5 (_ !! _ = _) => side : inv.
#[export] Hint Extern 5 (_ = _) => side : inv.
#[export] Hint Extern 5 (_ ≠ _) => side : inv.

Ltac sends_hyps :=
  repeat match goal with
    | H : context [notifyAll _ _ _] |- _ => rewrite notifyAll_eq in H
    | H : context [sendTo _ _ _] |- _ => rewrite sendTo_eq in H
    | H : context [sendToPeer _ _ _] |- _ => rewrite sendToPeer_eq in H
    | H : context [sendToMaybe _ _ _] |- _ => rewrite sendToMaybe_eq in H
    | H : context [sendError _ _ _ _] |- _ => rewrite sendError_eq in H
    end.

Ltac inv_fields := sends; sends_hyps; constructor; proj; eauto 6 with inv.

Section Invariant.

Variable ttl : Z.

Lemma Inv_installHost ws c peerId peer roomId created st :
  Inv st → conns st !! ws = Some c → c_peerId c = Some peerId → peerId ≠ [] →
  Inv (installHost ws c peerId peer roomId created st).
Proof.
  intros [I1 I5 I2a I2b I2c I3 I4 I6 I7] Hc Hp Hne.
  unfold_handlers. repeat case_match; inv_fields.
Qed.

Lemma asTruthy_None_conn cs w c :
  connIdsOk cs → cs !! w = Some c → asTruthy (c_peerId c) = None → c_peerId c = None.
Proof.
  intros H Hw Ha. destruct (c_peerId c) as [p|] eqn:E; [|done].
  pose proof (H _ _ _ Hw E). by rewrite asTruthy_of_Some in Ha.
Qed.

Lemma isValidPeerId_nonempty p : isValidPeerId (Some (JStr p)) = true → p ≠ [].
Proof. by destruct p. Qed.

Lemma Inv_onActive ws c peerId message ty now st :
  Inv st → conns st !! ws = Some c → asTruthy (c_peerId c) = Some peerId →
  Inv (onActive ws c peerId message ty now st).
Proof.
  intros [I1 I5 I2a I2b I2c I3 I4 I6 I7] Hc Hp. apply asTruthy_Some in Hp as [Hp Hne].
  unfold_handlers. repeat case_match; inv_fields.
Qed.

Lemma Inv_set_outbox out st : Inv st → Inv (set_outbox out st).
Proof. intros []. by constructor. Qed.

Lemma Inv_sendTo ws m st : Inv st → Inv (sendTo ws m st).
Proof. rewrite sendTo_eq. apply Inv_set_outbox. Qed.

Lemma Inv_notifyAll ms m st : Inv st → Inv (notifyAll ms m st).
Proof. rewrite notifyAll_eq. apply Inv_set_outbox. Qed.

Lemma Inv_wsClose w st : Inv st → Inv (wsClose w st).
Proof.
  intros [I1 I5 I2a I2b I2c I3 I4 I6 I7]. unfold wsClose. repeat case_match; inv_fields.
Qed.

Lemma connOf_wsClose ws p w st : connOf ws p st → connOf ws p (wsClose w st).
Proof.
  intros (c & Hc & Hp). unfold wsClose, connOf. repeat case_match; proj; eauto.
  destruct (decide (w = ws)) as [->|]; simplify_map_eq; eauto.
Qed.

Lemma Inv_setConnToken ws tok st : Inv st → Inv (setConnToken ws tok st).
Proof.
  intros [I1 I5 I2a I2b I2c I3 I4 I6 I7]. unfold setConnToken. repeat case_match; inv_fields.
Qed.

Lemma Inv_setConnPeer ws p c st :
  Inv st → conns st !! ws = Some c → c_peerId c = None → p ≠ [] →
  Inv (setConnPeer ws p st) ∧ connOf ws p (setConnPeer ws p st).
Proof.
  intros [I1 I5 I2a I2b I2c I3 I4 I6 I7] Hc Hnone Hne. unfold setConnPeer, connOf. rewrite Hc.
  split; [inv_fields|]. proj. eexists. by rewrite lookup_insert_eq.
Qed.

Lemma Inv_lastSeen tok now st :
  Inv st → Inv (upd_storage (updateSessionLastSeen tok now) st).
Proof. intros [I1 I5 I2a I2b I2c I3 I4 I6 I7]. inv_fields. Qed.

Lemma Inv_register ws p v st :
  Inv st → connOf ws p st →
  Inv (upd_storage (setPeer p v) (set_wsConnections (<[p := ws]> (wsConnections st)) st)).
Proof. intros [I1 I5 I2a I2b I2c I3 I4 I6 I7] (c & Hc & Hp). inv_fields. Qed.

Lemma Inv_restoreRoom ws p r st :
  Inv st → connOf ws p st → p ≠ [] → Inv (restoreRoom ws p r st).
Proof.
  intros [I1 I5 I2a I2b I2c I3 I4 I6 I7] (c & Hc & Hp) Hne.
  unfold restoreRoom, cancelCleanup, clearTimeout. repeat case_match; inv_fields.
Qed.

Lemma Inv_restoreSession ws c ip tok v now st :
  Inv st → conns st !! ws = Some c → c_peerId c = None → s_peerId v ≠ [] →
  Inv (restoreSession ws ip tok v now st).
Proof.
  intros HI Hc Hnone Hne. unfold restoreSession.
  destruct (Inv_setConnPeer ws (s_peerId v) c st HI Hc Hnone Hne) as [H1 C1].
  set (st1 := setConnPeer ws (s_peerId v) st) in *.
  pose proof (Inv_lastSeen tok now st1 H1) as H2.
  assert (C2 : connOf ws (s_peerId v) (upd_storage (updateSessionLastSeen tok now) st1))
    by exact C1.
  set (st2 := upd_storage (updateSessionLastSeen tok now) st1) in *.
  set (st3 := match wsConnections st2 !! s_peerId v with
              | Some oldWs => if bool_decide (oldWs ≠ ws) then wsClose oldWs st2 else st2
              | None => st2
              end).
  assert (H3 : Inv st3 ∧ connOf ws (s_peerId v) st3).
  { subst st3. repeat case_match; split; auto using Inv_wsClose, connOf_wsClose. }
  destruct H3 as [H3 C3].
  pose proof (Inv_register ws (s_peerId v) (mkPeer (s_roomId v) (Some ip) (Some tok)) st3 H3 C3)
    as H4.
  set (st4 := upd_storage _ (set_wsConnections _ st3)) in *.
  assert (C4 : connOf ws (s_peerId v) st4) by exact C3.
  pose proof (Inv_sendTo ws (MPeerIdRestored (s_peerId v) (s_roomId v)) st4 H4) as H5.
  assert (C5 : connOf ws (s_peerId v) (sendTo ws (MPeerIdRestored (s_peerId v) (s_roomId v)) st4)).
  { rewrite sendTo_eq. exact C4. }
  destruct (asTruthy (s_roomId v)); [|done].
  by apply Inv_restoreRoom.
Qed.

Lemma Inv_newSession ws c ip tok fresh now st :
  Inv st → conns st !! ws = Some c → c_peerId c = None → fresh ≠ [] →
  Inv (newSession ws ip tok fresh now st).
Proof.
  intros HI Hc Hnone Hne. unfold newSession.
  destruct (Inv_setConnPeer ws fresh c st HI Hc Hnone Hne) as [[I1 I5 I2a I2b I2c I3 I4 I6 I7] (c1 & Hc1 & Hp1)].
  inv_fields.
Qed.

Lemma Inv_onHandshake ws c message ty now fresh st :
  Inv st → conns st !! ws = Some c → asTruthy (c_peerId c) = None →
  isValidPeerId (Some (JStr fresh)) = true →
  Inv (onHandshake ttl ws c message ty now fresh st).
Proof.
  intros HI Hc Hp Hf.
  pose proof (asTruthy_None_conn _ _ _ (inv_conn_id _ HI) Hc Hp) as Hnone.
  apply isValidPeerId_nonempty in Hf.
  unfold onHandshake. case_match; [by apply Inv_sendTo|].
  pose proof (Inv_setConnToken ws (get_string (js "sessionToken") message) st HI) as H1.
  assert (∃ c1, conns (setConnToken ws (get_string (js "sessionToken") message) st) !! ws
                = Some c1 ∧ c_peerId c1 = None) as (c1 & Hc1 & Hn1).
  { unfold setConnToken. rewrite Hc. proj. eexists. by rewrite lookup_insert_eq. }
  set (st1 := setConnToken _ _ st) in *.
  case_match; [by apply Inv_wsClose, Inv_sendTo|].
  case_match; [|done].
  case_match eqn:Hs; [|by eapply Inv_newSession].
  case_match; [|by eapply Inv_newSession].
  eapply Inv_restoreSession; eauto.
  eapply (inv_session_id _ H1). exact Hs.
Qed.

Lemma Inv_onMessage ws data now fresh st :
  Inv st → isValidPeerId (Some (JStr fresh)) = true →
  Inv (onMessage ttl ws data now fresh st).
Proof.
  intros HI Hf. unfold onMessage. repeat case_match; subst;
    eauto using Inv_sendTo, Inv_onActive, Inv_onHandshake.
  all: by apply Inv_sendTo.
Qed.

Lemma Inv_onClose ws now st : Inv st → Inv (onClose ws now st).
Proof.
  intros [I1 I5 I2a I2b I2c I3 I4 I6 I7].
  unfold onClose. unfold_handlers. repeat case_match; inv_fields.
Qed.

Lemma Inv_onConnection ws ip st :
  Inv st → conns st !! ws = None → Inv (onConnection ws ip st).
Proof.
  intros [I1 I5 I2a I2b I2c I3 I4 I6 I7] Hc.
  unfold_handlers. repeat case_match; inv_fields.
Qed.

Lemma Inv_onTimer t st : Inv st → Inv (onTimer t st).
Proof.
  intros [I1 I5 I2a I2b I2c I3 I4 I6 I7].
  unfold_handlers. repeat case_match; inv_fields.
Qed.

Lemma Inv_sweepRates now st : Inv st → Inv (sweepRates now st).
Proof. intros []. by constructor. Qed.

Lemma Inv_removeMembers (l : list (JSString * Session)) : ∀ st,
  Inv st →
  Inv (foldl (λ acc kv,
                match asTruthy (s_roomId kv.2) with
                | Some roomId => upd_storage (removeRoomMember roomId (s_peerId kv.2)) acc
                | None => acc
                end) st l).
Proof.
  induction l as [|kv l IH]; intros st HI; [done|]. simpl. apply IH.
  destruct (asTruthy _); [|done]. destruct HI. by constructor.
Qed.

Lemma Inv_sweepSessions now st : Inv st → Inv (sweepSessions ttl now st).
Proof.
  intros [I1 I5 I2a I2b I2c I3 I4 I6 I7]. unfold sweepSessions, cleanupExpiredSessions.
  apply Inv_removeMembers. inv_fields.
Qed.

Lemma Inv_step st e st' : Inv st → step ttl st e st' → Inv st'.
Proof.
  intros HI Hs. destruct Hs as [e st He].
  destruct e; simpl in *.
  - apply Inv_onConnection; [done|]. by apply bool_decide_eq_true in He.
  - apply andb_true_iff in He as [_ He]. by apply Inv_onMessage.
  - by apply Inv_onClose.
  - by apply Inv_onTimer.
  - by apply Inv_sweepRates.
  - by apply Inv_sweepSessions.
Qed.

Lemma Inv_initial : Inv initial.
Proof. constructor; intros ?; intros; simplify_map_eq. Qed.

Lemma Inv_reachable st : reachable ttl st → Inv st.
Proof.
  induction 1; eauto using Inv_initial, Inv_step.
Qed.

End Invariant.

Section SingleHost.

Variable ttl : Z.

Lemma hasPeer_false_noLive q st :
  Inv st → hasPeer (Some q) (storage st) = false →
  wsConnections st !! q = None ∧ peers (storage st) !! q = None.
Proof.
  intros HI Hp. unfold hasPeer in Hp. apply bool_decide_eq_false in Hp.
  assert (peers (storage st) !! q = None) as Hn.
  { destruct (peers (storage st) !! q) eqn:E; [|done]. exfalso. apply Hp. eauto. }
  split; [|done]. destruct (wsConnections st !! q) eqn:E; [|done].
  destruct (inv_registry_ledger _ HI _ _ E) as [? ?]. congruence.
Qed.

Lemma hostInstallChecked_onActive ws c peerId message ty now st :
  Inv st → hostInstallChecked st (onActive ws c peerId message ty now st).
Proof.
  intros HI. pose proof (hasPeer_false_noLive) as HP.
  unfold_handlers. repeat case_match; sends; sends_hyps; proj.
  all: unfold hostInstallChecked, hostOf, getRoom in *; proj; intros r' p' H1' H2'; try done.
  all: rewrite lookup_insert in H1'; case_decide; [subst; simplify_eq/= | done].
  all: try (exfalso; apply H2'; rewrite lookup_insert_eq; done).
  all: intros q Hq; unfold hostOf in Hq.
  all: try (match goal with H : rooms _ !! _ = _ |- _ => rewrite H in Hq end; simplify_eq/=).
  all: apply HP; [done|].
  all: try match goal with H : hasPeer _ _ = false |- _ => rewrite Hq in H; exact H end.
  all: match goal with
       | H : negb (hasPeer _ _) = true |- _ =>
           rewrite Hq in H; apply negb_true_iff in H; exact H
       end.
Qed.

Lemma hostOf_set_outbox r out st : hostOf r (set_outbox out st) = hostOf r st.
Proof. reflexivity. Qed.

Lemma storage_wsClose w st : storage (wsClose w st) = storage st.
Proof. unfold wsClose. by repeat case_match. Qed.

Lemma storage_setConnToken w t st : storage (setConnToken w t st) = storage st.
Proof. unfold setConnToken. by repeat case_match. Qed.

Lemma storage_setConnPeer w p st : storage (setConnPeer w p st) = storage st.
Proof. unfold setConnPeer. by repeat case_match. Qed.

Lemma hostInstallChecked_frame st st' :
  rooms (storage st') = rooms (storage st) → hostInstallChecked st st'.
Proof.
  intros E r p H1 H2. unfold hostOf in *. rewrite E in H1. done.
Qed.

Lemma rooms_restoreRoom_pre ws ip tok v now st :
  rooms (storage (restoreSession ws ip tok v now st)) = rooms (storage st)
  ∨ ∃ r room,
      rooms (storage st) !! r = Some room ∧ truthyStr (hostPeerId room) = false
      ∧ rooms (storage (restoreSession ws ip tok v now st))
        = <[r := mkRoom (Some (s_peerId v)) None]> (rooms (storage st)).
Proof.
  unfold restoreSession.
  match goal with
  | |- context [match asTruthy (s_roomId v) with Some roomId => restoreRoom ws _ roomId ?pre | None => _ end] =>
      set (st1 := pre); assert (E : rooms (storage st1) = rooms (storage st))
  end.
  { subst st1. sends. proj. repeat case_match; rewrite ?storage_wsClose; proj;
      by rewrite storage_setConnPeer. }
  destruct (asTruthy (s_roomId v)) as [r|]; [|by left].
  unfold restoreRoom, cancelCleanup, clearTimeout, getRoom.
  destruct (rooms (storage st1) !! r) as [room|] eqn:Hr; [|by left].
  destruct (truthyStr (hostPeerId room)) eqn:Ht; cbn [negb].
  - left. repeat case_match; sends; proj; done.
  - right. exists r, room. rewrite <- E. split; [done|]. split; [done|].
    repeat case_match; sends; proj; done.
Qed.

Lemma hostInstallChecked_onHandshake ws c message ty now fresh st :
  Inv st → hostInstallChecked st (onHandshake ttl ws c message ty now fresh st).
Proof.
  intros HI. unfold onHandshake.
  assert (Hnew : ∀ ip tok, hostInstallChecked st
            (newSession ws ip tok fresh now
               (setConnToken ws (get_string (js "sessionToken") message) st))).
  { intros. apply hostInstallChecked_frame. unfold newSession. sends. proj.
    by rewrite storage_setConnPeer, storage_setConnToken. }
  case_match; [apply hostInstallChecked_frame; by sends|].
  case_match.
  { apply hostInstallChecked_frame. sends. rewrite storage_wsClose. proj.
    by rewrite storage_setConnToken. }
  destruct (get_string (js "sessionToken") message) as [tok|] eqn:Htok;
    [|apply hostInstallChecked_frame; by rewrite storage_setConnToken].
  case_match; [|apply Hnew]. case_match; [|apply Hnew].
  set (st1 := setConnToken _ _ st) in *.
  destruct (rooms_restoreRoom_pre ws (c_ip c) tok s now st1) as [E|(r & room & Hr & Ht & E)].
  - apply hostInstallChecked_frame. rewrite E. subst st1. by rewrite storage_setConnToken.
  - subst st1. rewrite storage_setConnToken in *.
    intros r' p' H1' H2'. unfold hostOf in *. rewrite E in H1'.
    rewrite lookup_insert in H1'. case_decide; [subst r'|done].
    intros q Hq. unfold hostOf in Hq. rewrite Hr in Hq. simpl in Hq.
    pose proof (inv_host_id _ HI _ _ _ Hr Hq) as Hne.
    rewrite Hq in Ht. by destruct q.
Qed.

Lemma hostInstallChecked_shrink st st' :
  (∀ r p, hostOf r st' = Some p → hostOf r st = Some p) → hostInstallChecked st st'.
Proof. intros H r p H1 H2. by apply H in H1. Qed.

Lemma hostInstallChecked_onClose ws now st : hostInstallChecked st (onClose ws now st).
Proof.
  apply hostInstallChecked_shrink. intros r p. unfold hostOf.
  unfold onClose. unfold_handlers. repeat case_match; sends; proj; try done.
  all: rewrite lookup_insert; destruct (decide _); done.
Qed.

Lemma hostInstallChecked_onTimer t st : hostInstallChecked st (onTimer t st).
Proof.
  apply hostInstallChecked_shrink. intros r p. unfold hostOf.
  unfold_handlers. repeat case_match; sends; proj; try done.
  all: rewrite lookup_delete; destruct (decide _); done.
Qed.

Lemma rooms_removeMembers (l : list (JSString * Session)) : ∀ st,
  rooms (storage (foldl (λ acc kv,
                match asTruthy (s_roomId kv.2) with
                | Some roomId => upd_storage (removeRoomMember roomId (s_peerId kv.2)) acc
                | None => acc
                end) st l)) = rooms (storage st).
Proof.
  induction l as [|kv l IH]; intros st; [done|]. simpl. rewrite IH.
  by destruct (asTruthy _).
Qed.

Lemma hostInstallChecked_step st e st' :
  Inv st → step ttl st e st' → hostInstallChecked st st'.
Proof.
  intros HI Hs. destruct Hs as [e st He]. destruct e; cbn [apply].
  - apply hostInstallChecked_frame. unfold onConnection, trackConnection. by case_match.
  - unfold onMessage. repeat case_match;
      auto using hostInstallChecked_onActive, hostInstallChecked_onHandshake;
      apply hostInstallChecked_frame; by sends.
  - apply hostInstallChecked_onClose.
  - apply hostInstallChecked_onTimer.
  - by apply hostInstallChecked_frame.
  - apply hostInstallChecked_frame. unfold sweepSessions, cleanupExpiredSessions.
    by rewrite rooms_removeMembers.
Qed.

(** C1.  In every reachable state, two identities recorded as host of the
    same room (in the directory or behind the room's host transport) are
    the same identity; and whenever a transition records a new host for a
    room, the host recorded before it, if any, was neither in the transport
    registry nor in the ledger: every host is installed over a room that
    was checked to have no live host. *)
Theorem single_host_invariant st :
  reachable ttl st →
  (∀ r p q, recordedHost r p st → recordedHost r q st → live p st → live q st → p = q)
  ∧ (∀ e st' r p, step ttl st e st' → hostOf r st' = Some p → hostOf r st ≠ Some p →
                  noLiveHost r st).
Proof.
  intros Hr. pose proof (Inv_reachable ttl st Hr) as HI. split.
  - assert (Hhost : ∀ r p, recordedHost r p st → hostOf r st = Some p).
    { intros r p [H|(w & Hw & c & Hc & Hp)]; [done|].
      destruct (inv_host_ws _ HI _ _ Hw) as (room & c' & h & Hroom & Hh & Hc' & Hp').
      unfold hostOf. rewrite Hroom. simpl. congruence. }
    intros r p q Hp Hq _ _. apply Hhost in Hp, Hq. congruence.
  - intros e st' r p Hs. by apply (hostInstallChecked_step st e st' HI Hs).
Qed.

End SingleHost.

Lemma reachable_run ttl es : ∀ st,
  reachable ttl st → enabledAll ttl es st = true → reachable ttl (run ttl es st).
Proof.
  induction es as [|e es IH]; intros st Hr He; [done|].
  simpl in He. apply andb_true_iff in He as [He1 He2].
  apply (IH (apply ttl e st)); [|done].
  eapply reachable_step; [exact Hr|]. by constructor.
Qed.

Lemma hostLost_reachable : reachable Scenario.ttl Scenario.hostLost.
Proof.
  apply (reachable_run Scenario.ttl Scenario.hostLostEvents initial).
  - constructor.
  - vm_compute. reflexivity.
Qed.

Lemma single_host_invariant_witness :
  noLiveHost Scenario.roomX Scenario.hostLost.
Proof.
  destruct (single_host_invariant Scenario.ttl Scenario.hostLost hostLost_reachable) as [_ H].
  set (e := EMessage 2 (Parsed (Scenario.roomMsg "claim-host" Scenario.roomX)) 20 Scenario.idX).
  apply (H e (apply Scenario.ttl e Scenario.hostLost) Scenario.roomX Scenario.idM).
  - constructor. vm_compute. reflexivity.
  - vm_compute. reflexivity.
  - vm_compute. discriminate.
Defined.

Section Routing.

Variable ttl : Z.

Lemma onMessage_routed ws c peerId message ty now fresh st :
  activeConn ws c peerId st →
  messageType message = Some ty →
  (checkRateLimit peerId now st).1 = true →
  onMessage ttl ws (Parsed message) now fresh st
  = let st1 := admitted c peerId now st in
    let peer := getPeer peerId (storage st1) in
    match classify ty with
    | THeartbeat => sendTo ws MHeartbeatAck st1
    | TQueryRoom => queryRoom ws message st1
    | TRegisterHost => registerHost ws c peerId peer message now st1
    | TClaimHost => claimHost ws c peerId peer message now st1
    | TJoinRoom => joinRoom ws c peerId peer message st1
    | TSignal => relaySignal ws peerId message st1
    | TLeaveRoom => leaveRoom c peerId peer now st1
    | THello | TUnknown => st1
    end.
Proof.
  intros [Hc Hp] Hty Hok. unfold onMessage, onActive, admitted.
  rewrite Hc, Hty, Hp. destruct (checkRateLimit peerId now st) as [ok st1].
  simpl in Hok. subst ok. reflexivity.
Qed.

(** Admission touches the rate counters and the sessions only. *)
Lemma admitted_frame c peerId now st :
  let st1 := admitted c peerId now st in
  rooms (storage st1) = rooms (storage st)
  ∧ peers (storage st1) = peers (storage st)
  ∧ roomMembers (storage st1) = roomMembers (storage st)
  ∧ wsConnections st1 = wsConnections st
  ∧ hostWsConnections st1 = hostWsConnections st
  ∧ conns st1 = conns st
  ∧ timers st1 = timers st
  ∧ cleanupTimers st1 = cleanupTimers st
  ∧ nextTimer st1 = nextTimer st
  ∧ outbox st1 = outbox st.
Proof.
  unfold admitted, checkRateLimit. cbn. by destruct (asTruthy _).
Qed.

Lemma admitted_sessions c peerId now st tok :
  sessions (storage (admitted c peerId now st)) !! tok
  = if bool_decide (asTruthy (c_sessionToken c) = Some tok)
    then (λ v, mkSession (s_peerId v) (s_roomId v) now) <$> sessions (storage st) !! tok
    else sessions (storage st) !! tok.
Proof.
  unfold admitted, checkRateLimit. cbn. destruct (asTruthy _) as [t|] eqn:E; proj.
  - rewrite lookup_alter. case_bool_decide; simplify_eq.
    + by rewrite decide_True.
    + rewrite decide_False; [done|]. congruence.
  - by rewrite bool_decide_eq_false_2.
Qed.

Lemma get_string_of_field k v s : get_field k v = Some (JStr s) → get_string k v = Some s.
Proof. unfold get_string. by intros ->. Qed.

Lemma isOpen_conns ws st st' : conns st' = conns st → isOpen ws st' = isOpen ws st.
Proof. unfold isOpen. by intros ->. Qed.

Lemma classify_claim_host : classify (js "claim-host") = TClaimHost.
Proof. reflexivity. Qed.

Lemma classify_register_host : classify (js "register-host") = TRegisterHost.
Proof. reflexivity. Qed.

Lemma classify_join_room : classify (js "join-room") = TJoinRoom.
Proof. reflexivity. Qed.

Lemma classify_leave_room : classify (js "leave-room") = TLeaveRoom.
Proof. reflexivity. Qed.

Lemma sentTo_open ws m c st :
  conns st !! ws = Some c → c_readyState c = OPEN → sentTo ws m st = [(ws, m)].
Proof. intros Hc Ho. unfold sentTo, isOpen. by rewrite Hc, Ho. Qed.

(** C2, as amended.  A [claim-host] with a valid room id, on an open authenticated
    connection and within the rate limit, succeeds exactly when the room has
    no record or its recorded host is not in the ledger: then the caller is
    told [claim-host-success], is the recorded host, its socket is the host
    transport, and the cleanup timer of the room is cancelled; otherwise the
    caller is told that the room already has an active host and the room,
    its host transport and the timers stay as they were.  [register-host]
    succeeds under the very same condition. *)
Theorem claim_host_iff_no_live_host ws c peerId message regMessage roomId now fresh st :
  activeConn ws c peerId st →
  c_readyState c = OPEN →
  messageType message = Some (js "claim-host") →
  messageType regMessage = Some (js "register-host") →
  get_field (js "roomId") message = Some (JStr roomId) →
  get_field (js "roomId") regMessage = Some (JStr roomId) →
  isValidRoomId (Some (JStr roomId)) = true →
  (checkRateLimit peerId now st).1 = true →
  let st' := onMessage ttl ws (Parsed message) now fresh st in
  let reg := onMessage ttl ws (Parsed regMessage) now fresh st in
  (hostSlotFree roomId st = true
   ↔ rooms (storage st) !! roomId = None
     ∨ ∃ room, rooms (storage st) !! roomId = Some room
               ∧ hasPeer (hostPeerId room) (storage st) = false)
  ∧ (if hostSlotFree roomId st then
       outbox st' = outbox st ++ [(ws, MClaimHostSuccess roomId)]
       ∧ hostOf roomId st' = Some peerId
       ∧ hostWsConnections st' !! roomId = Some ws
       ∧ cleanupTimers st' !! roomId = None
       ∧ (∀ t, cleanupTimers st !! roomId = Some t → timers st' !! t = None)
     else
       outbox st'
       = outbox st ++ [(ws, MClaimHostFailed (Some (JStr roomId)) "Room already has active host")]
       ∧ rooms (storage st') = rooms (storage st)
       ∧ hostWsConnections st' = hostWsConnections st
       ∧ cleanupTimers st' = cleanupTimers st
       ∧ timers st' = timers st)
  ∧ outbox reg
    = outbox st
      ++ [(ws, if hostSlotFree roomId st then MRegisterHostSuccess roomId
               else MRegisterHostFailed (Some (JStr roomId)) "Room already has a host")].
Proof.
  intros Hact Hopen Hty Hty' Hrid Hrid' Hvalid Hok. cbn zeta.
  rewrite !(onMessage_routed ws c peerId _ _ now fresh st Hact) by done.
  rewrite classify_claim_host, classify_register_host. cbn zeta.
  destruct Hact as [Hc Hp].
  destruct (admitted_frame c peerId now st) as (Er & Ep & Em & Ew & Eh & Ec & Et & Ect & En & Eo).
  set (st1 := admitted c peerId now st) in *. clearbody st1.
  assert (Hs : ∀ m s, conns s = conns st1 → sentTo ws m s = [(ws, m)]).
  { intros m s Hs. eapply sentTo_open; [|done]. by rewrite Hs, Ec. }
  unfold claimHost, registerHost, hostSlotFree, getRoom, hasPeer.
  rewrite Hrid, Hrid', Hvalid, (get_string_of_field _ _ _ Hrid), (get_string_of_field _ _ _ Hrid').
  cbn [negb]. rewrite Er, Ep.
  split.
  { destruct (rooms (storage st) !! roomId) as [room|] eqn:Hroom.
    - rewrite negb_true_iff. split; [eauto|]. by intros [?|(? & [= <-] & ?)].
    - split; eauto. }
  assert (Hinstall : ∀ created,
    let s := installHost ws c peerId (getPeer peerId (storage st1)) roomId created st1 in
    conns s = conns st1 ∧ outbox s = outbox st
    ∧ hostOf roomId s = Some peerId
    ∧ hostWsConnections s !! roomId = Some ws
    ∧ cleanupTimers s !! roomId = None
    ∧ (∀ t, cleanupTimers st !! roomId = Some t → timers s !! t = None)).
  { intros created. cbn zeta.
    unfold installHost, cancelCleanup, clearTimeout, withToken, hostOf. rewrite Ect.
    destruct (cleanupTimers st !! roomId) as [n|] eqn:Hn; destruct (c_sessionToken c);
      proj; rewrite ?Eo, ?Ect, ?Et, ?lookup_insert_eq, ?lookup_delete_eq;
      repeat split; try done.
    all: intros t [= <-]; by rewrite lookup_delete_eq. }
  destruct (rooms (storage st) !! roomId) as [room|] eqn:Hroom.
  - destruct (match hostPeerId room with
              | Some p => bool_decide (is_Some (peers (storage st) !! p))
              | None => false
              end) eqn:Hlive; cbn [negb].
    + sends. proj. rewrite !Hs by done. rewrite Eo, Er, Eh, Ect, Et. done.
    + destruct (Hinstall (createdAt room)) as (I1 & I2 & I3 & I4 & I5 & I6).
      destruct (Hinstall (Some now)) as (J1 & J2 & _).
      sends. proj. rewrite !Hs by done. rewrite I2, J2. done.
  - destruct (Hinstall (Some now)) as (I1 & I2 & I3 & I4 & I5 & I6).
    sends. proj. rewrite !Hs by done. rewrite I2. done.
Qed.

End Routing.

Lemma claim_host_iff_no_live_host_witness :
  let claim := Scenario.roomMsg "claim-host" Scenario.roomX in
  hostOf Scenario.roomX (onMessage Scenario.ttl 2 (Parsed claim) 20 Scenario.idX Scenario.hostLost)
  = Some Scenario.idM
  ∧ outbox (onMessage Scenario.ttl 2 (Parsed claim) 20 Scenario.idX Scenario.hostAndMember)
    = outbox Scenario.hostAndMember
      ++ [(2%nat, MClaimHostFailed (Some (JStr Scenario.roomX)) "Room already has active host")].
Proof.
  set (cM := mkConn Scenario.ipA (Some Scenario.idM) (Some Scenario.tokenM) OPEN).
  set (reg := Scenario.roomMsg "register-host" Scenario.roomX).
  cbn zeta. split.
  - pose proof (claim_host_iff_no_live_host Scenario.ttl 2 cM Scenario.idM
      (Scenario.roomMsg "claim-host" Scenario.roomX) reg Scenario.roomX 20 Scenario.idX
      Scenario.hostLost) as H.
    destruct H as (_ & H & _);
      [split; vm_compute; reflexivity | vm_compute; reflexivity .. |].
    replace (hostSlotFree Scenario.roomX Scenario.hostLost) with true in H
      by (vm_compute; reflexivity).
    apply H.
  - pose proof (claim_host_iff_no_live_host Scenario.ttl 2 cM Scenario.idM
      (Scenario.roomMsg "claim-host" Scenario.roomX) reg Scenario.roomX 20 Scenario.idX
      Scenario.hostAndMember) as H.
    destruct H as (_ & H & _);
      [split; vm_compute; reflexivity | vm_compute; reflexivity .. |].
    replace (hostSlotFree Scenario.roomX Scenario.hostAndMember) with false in H
      by (vm_compute; reflexivity).
    apply H.
Defined.

Lemma reclaimed_reachable : reachable Scenario.ttl reclaimed.
Proof.
  apply (reachable_run Scenario.ttl reclaimedEvents initial).
  - constructor.
  - vm_compute. reflexivity.
Qed.

(** In [reclaimed] the recorded host H of room X has no transport in the
    registry, but it is in the ledger: the [claim-host] of M is refused and H
    stays the recorded host. *)
Lemma claim_host_registry_counterexample : ¬ claimDecidedByRegistry Scenario.ttl.
Proof.
  intros H.
  specialize (H 2%nat (mkConn Scenario.ipA (Some Scenario.idM) (Some Scenario.tokenM) OPEN)
                Scenario.idM (Scenario.roomMsg "claim-host" Scenario.roomX) Scenario.roomX
                20 Scenario.idX reclaimed reclaimed_reachable).
  assert (E : hostOf Scenario.roomX
                (onMessage Scenario.ttl 2
                   (Parsed (Scenario.roomMsg "claim-host" Scenario.roomX)) 20 Scenario.idX
                   reclaimed) = Some Scenario.idH) by (vm_compute; reflexivity).
  rewrite E in H. discriminate H.
  - split; vm_compute; reflexivity.
  - reflexivity.
  - reflexivity.
  - reflexivity.
  - reflexivity.
  - vm_compute. reflexivity.
  - intros h Hh.
    assert (Eh : hostOf Scenario.roomX reclaimed = Some Scenario.idH) by (vm_compute; reflexivity).
    rewrite Eh in Hh. injection Hh as <-. vm_compute. reflexivity.
Qed.

(** ** Relay *)

Lemma assoc_set_field_eq k v fs : assoc k (set_field k v fs) = Some v.
Proof.
  induction fs as [|[k' v'] fs IH]; simpl.
  - by rewrite decide_True.
  - destruct (decide (k' = k)); simpl.
    + by rewrite decide_True.
    + by rewrite decide_False.
Qed.

Lemma assoc_set_field_ne k k' v fs : k' ≠ k → assoc k' (set_field k v fs) = assoc k' fs.
Proof.
  intros Hne. induction fs as [|[k0 v0] fs IH]; simpl.
  - by rewrite decide_False.
  - destruct (decide (k0 = k)) as [->|]; simpl.
    + rewrite !decide_False; done.
    + destruct (decide (k0 = k')); done.
Qed.

Lemma assoc_spread k message : assoc k (spread message) = get_field k message.
Proof. by destruct message. Qed.

Section Relay.

Variable ttl : Z.

Lemma classify_signal ty :
  ty = js "offer" ∨ ty = js "answer" ∨ ty = js "ice-candidate" → classify ty = TSignal.
Proof. intros [->|[->| ->]]; reflexivity. Qed.

(** C5, as amended.  An [offer], [answer] or [ice-candidate] of the
    authenticated peer [A], within the rate limit, whose [targetPeerId] is
    well-formed and names a peer [B] of the ledger, adds to the outbox the
    payload as sent, with [fromPeerId] set to [A] whatever the client wrote
    there, addressed to the transport the registry has for [B], if the
    registry has one and it is open; otherwise it adds nothing, not even an
    error for the sender.  The transport the registry has for [B] is a
    connection of [B] and of no other identity. *)
Theorem relay_only_to_target ws c A message ty B now fresh st :
  reachable ttl st →
  activeConn ws c A st →
  messageType message = Some ty →
  ty = js "offer" ∨ ty = js "answer" ∨ ty = js "ice-candidate" →
  get_field (js "targetPeerId") message = Some (JStr B) →
  isValidPeerId (Some (JStr B)) = true →
  hasPeer (Some B) (storage st) = true →
  (checkRateLimit A now st).1 = true →
  let st' := onMessage ttl ws (Parsed message) now fresh st in
  let relayed := set_field (js "fromPeerId") (JStr A) (spread message) in
  outbox st' = outbox st ++ sentToPeer B (MRelay relayed) st
  ∧ (∀ wsB, wsConnections st !! B = Some wsB → isOpen wsB st = true →
       outbox st' = outbox st ++ [(wsB, MRelay relayed)])
  ∧ (wsConnections st !! B = None
     ∨ (∃ wsB, wsConnections st !! B = Some wsB ∧ isOpen wsB st = false) →
     outbox st' = outbox st)
  ∧ assoc (js "fromPeerId") relayed = Some (JStr A)
  ∧ (∀ k, k ≠ js "fromPeerId" → assoc k relayed = get_field k message)
  ∧ (∀ wsB, wsConnections st !! B = Some wsB →
       connOf wsB B st
       ∧ ∀ C wsC, C ≠ B → wsConnections st !! C = Some wsC → wsC ≠ wsB).
Proof.
  intros Hr Hact Hty Hsig Htarget Hvalid HB Hok. cbn zeta.
  pose proof (Inv_reachable ttl st Hr) as HI.
  rewrite (onMessage_routed ttl ws c A _ _ now fresh st Hact) by done.
  rewrite (classify_signal _ Hsig). cbn zeta.
  destruct (admitted_frame c A now st) as (Er & Ep & Em & Ew & Eh & Ec & Et & Ect & En & Eo).
  set (st1 := admitted c A now st) in *. clearbody st1.
  assert (Hout : outbox (relaySignal ws A message st1)
                 = outbox st
                   ++ sentToPeer B
                        (MRelay (set_field (js "fromPeerId") (JStr A) (spread message))) st).
  { unfold relaySignal. rewrite Htarget, Hvalid, (get_string_of_field _ _ _ Htarget).
    cbn [negb]. unfold hasPeer in *. rewrite Ep, HB. cbn [negb].
    rewrite sendToPeer_eq. unfold sentToPeer, sentTo. rewrite Ew.
    destruct (wsConnections st !! B) as [wsB|]; proj; rewrite Eo; [|done].
    by rewrite (isOpen_conns wsB st st1 Ec). }
  split; [exact Hout|]. split; [|split; [|split; [|split]]].
  - intros wsB Hw Ho. rewrite Hout. unfold sentToPeer, sentTo. by rewrite Hw, Ho.
  - intros [Hn|(wsB & Hw & Ho)]; rewrite Hout; unfold sentToPeer, sentTo.
    + by rewrite Hn, app_nil_r.
    + by rewrite Hw, Ho, app_nil_r.
  - apply assoc_set_field_eq.
  - intros k Hk. by rewrite assoc_set_field_ne, assoc_spread.
  - intros wsB Hw. split; [by apply (inv_registry_conn _ HI)|].
    intros C wsC Hne HC ->.
    destruct (inv_registry_conn _ HI _ _ Hw) as (c1 & Hc1 & Hp1).
    destruct (inv_registry_conn _ HI _ _ HC) as (c2 & Hc2 & Hp2).
    congruence.
Qed.

End Relay.

Lemma hostAndMember_reachable : reachable Scenario.ttl Scenario.hostAndMember.
Proof.
  apply (reachable_run Scenario.ttl Scenario.hostAndMemberEvents initial).
  - constructor.
  - vm_compute. reflexivity.
Qed.

(** In [reclaimed] the target H is in the ledger and is connected on the
    open socket 3, but the registry has no transport for it: the offer of M
    is dropped. *)
Lemma relay_dropped_counterexample : ¬ relayReachesLivePeers Scenario.ttl.
Proof.
  intros H.
  specialize (H 2%nat (mkConn Scenario.ipA (Some Scenario.idM) (Some Scenario.tokenM) OPEN)
                Scenario.idM forgedOffer (js "offer") Scenario.idH 3%nat 20 Scenario.idX
                reclaimed reclaimed_reachable).
  assert (E : outbox (onMessage Scenario.ttl 2 (Parsed forgedOffer) 20 Scenario.idX reclaimed)
              = outbox reclaimed) by (vm_compute; reflexivity).
  rewrite E in H.
  assert (Hnil : [(3%nat, MRelay (set_field (js "fromPeerId") (JStr Scenario.idM)
                                    (spread forgedOffer)))] = []).
  { apply (app_inv_head (outbox reclaimed)). rewrite app_nil_r. symmetry. apply H.
    - split; vm_compute; reflexivity.
    - reflexivity.
    - by left.
    - reflexivity.
    - reflexivity.
    - vm_compute. reflexivity.
    - eexists. split; vm_compute; reflexivity.
    - vm_compute. reflexivity.
    - vm_compute. reflexivity. }
  discriminate Hnil.
Qed.

Lemma relay_only_to_target_witness :
  outbox (onMessage Scenario.ttl 2 (Parsed forgedOffer) 20 Scenario.idX Scenario.hostAndMember)
  = outbox Scenario.hostAndMember
    ++ [(1%nat, MRelay [(js "type", JStr (js "offer"));
                        (js "targetPeerId", JStr Scenario.idH);
                        (js "fromPeerId", JStr Scenario.idM);
                        (js "sdp", JStr (js "v=0"))])]
  ∧ outbox (onMessage Scenario.ttl 2 (Parsed forgedOffer) 20 Scenario.idX reclaimed)
    = outbox reclaimed.
Proof.
  split.
  - pose proof (relay_only_to_target Scenario.ttl 2
      (mkConn Scenario.ipA (Some Scenario.idM) (Some Scenario.tokenM) OPEN)
      Scenario.idM forgedOffer (js "offer") Scenario.idH 20 Scenario.idX
      Scenario.hostAndMember hostAndMember_reachable) as H.
    destruct H as (_ & H & _);
      [split; vm_compute; reflexivity | reflexivity | by left | vm_compute; reflexivity .. |].
    apply (H 1%nat); vm_compute; reflexivity.
  - pose proof (relay_only_to_target Scenario.ttl 2
      (mkConn Scenario.ipA (Some Scenario.idM) (Some Scenario.tokenM) OPEN)
      Scenario.idM forgedOffer (js "offer") Scenario.idH 20 Scenario.idX
      reclaimed reclaimed_reachable) as H.
    destruct H as (_ & _ & H & _);
      [split; vm_compute; reflexivity | reflexivity | by left | vm_compute; reflexivity .. |].
    apply H. left. vm_compute. reflexivity.
Defined.

(** ** Leaving and joining rooms *)

Section Rooms.

Variable ttl : Z.

Lemma leaveRoom_inNoRoom c peerId now st :
  inNoRoom peerId st →
  leaveRoom c peerId (getPeer peerId (storage st)) now st = st.
Proof.
  intros H. unfold leaveRoom. destruct (getPeer peerId (storage st)) as [p|] eqn:E; [|done].
  by rewrite (H p).
Qed.

Lemma inNoRoom_leaveRoom c peerId now st :
  inNoRoom peerId (leaveRoom c peerId (getPeer peerId (storage st)) now st).
Proof.
  unfold leaveRoom.
  destruct (getPeer peerId (storage st)) as [p|] eqn:E; [|by intros p; rewrite E].
  destruct (asTruthy (p_roomId p)) as [r|] eqn:Er; [|by intros p'; rewrite E; intros [= <-]].
  intros p'. unfold inNoRoom, getPeer, withToken, hostGone, scheduleRoomCleanup, clearTimeout.
  repeat case_match; sends; proj; rewrite lookup_insert_eq; by intros [= <-].
Qed.

Lemma conns_leaveRoom c peerId peer now st :
  conns (leaveRoom c peerId peer now st) = conns st.
Proof.
  unfold leaveRoom, withToken, hostGone, scheduleRoomCleanup, clearTimeout.
  repeat case_match; sends; proj; done.
Qed.

(** C7.  A [leave-room] of an authenticated peer that the ledger has in no
    room (within the rate limit) does nothing beyond counting the message
    and refreshing [lastSeen]: nothing is sent, and rooms, member sets,
    host transports and timers stay as they were.  After any [leave-room]
    the peer is in no room, so a second [leave-room] is such a no-op. *)
Theorem leave_room_idempotent ws c peerId message now fresh now2 fresh2 st :
  activeConn ws c peerId st →
  messageType message = Some (js "leave-room") →
  (checkRateLimit peerId now st).1 = true →
  let st' := onMessage ttl ws (Parsed message) now fresh st in
  (checkRateLimit peerId now2 st').1 = true →
  let st'' := onMessage ttl ws (Parsed message) now2 fresh2 st' in
  (inNoRoom peerId st →
     st' = admitted c peerId now st
     ∧ outbox st' = outbox st
     ∧ roomMembers (storage st') = roomMembers (storage st)
     ∧ rooms (storage st') = rooms (storage st)
     ∧ hostWsConnections st' = hostWsConnections st
     ∧ timers st' = timers st)
  ∧ inNoRoom peerId st'
  ∧ st'' = admitted c peerId now2 st'
  ∧ outbox st'' = outbox st'
  ∧ roomMembers (storage st'') = roomMembers (storage st')
  ∧ rooms (storage st'') = rooms (storage st')
  ∧ hostWsConnections st'' = hostWsConnections st'
  ∧ timers st'' = timers st'.
Proof.
  intros Hact Hty Hok. cbn zeta.
  rewrite (onMessage_routed ttl ws c peerId _ _ now fresh st Hact) by done.
  rewrite classify_leave_room. cbn zeta.
  assert (Hframe : ∀ n s, inNoRoom peerId s → inNoRoom peerId (admitted c peerId n s)).
  { intros n s H p. unfold getPeer.
    destruct (admitted_frame c peerId n s) as (_ & -> & _). apply H. }
  set (st' := leaveRoom c peerId _ now (admitted c peerId now st)).
  assert (Hno : inNoRoom peerId st') by apply inNoRoom_leaveRoom.
  assert (Hact' : activeConn ws c peerId st').
  { destruct Hact as [Hc Hp]. split; [|done]. subst st'. rewrite conns_leaveRoom.
    by destruct (admitted_frame c peerId now st) as (_ & _ & _ & _ & _ & -> & _). }
  intros Hok2.
  rewrite (onMessage_routed ttl ws c peerId _ _ now2 fresh2 st' Hact') by done.
  rewrite classify_leave_room. cbn zeta.
  rewrite (leaveRoom_inNoRoom c peerId now2 _ (Hframe now2 st' Hno)).
  split; [| split; [done|]].
  - intros Hin. subst st'. rewrite (leaveRoom_inNoRoom c peerId now _ (Hframe now st Hin)).
    destruct (admitted_frame c peerId now st) as (Er & Ep & Em & Ew & Eh & Ec & Et & Ect & En & Eo).
    by rewrite Eo, Em, Er, Eh, Et.
  - destruct (admitted_frame c peerId now2 st') as (Er & Ep & Em & Ew & Eh & Ec & Et & Ect & En & Eo).
    by rewrite Eo, Em, Er, Eh, Et.
Qed.

Lemma elem_of_filter_ne (l : list JSString) (p q : JSString) :
  q ∈ filter (λ m, m ≠ p) l ↔ q ≠ p ∧ q ∈ l.
Proof. by rewrite list_elem_of_filter. Qed.

(** C10, as amended.  A peer recorded as member of room X that
    successfully joins a different room Y (Y has a recorded host that is in
    the ledger) is added to the members of Y and its current room becomes
    Y, while the member set of X is left as it was; a [leave-room] after
    that again leaves the member set of X alone.  If the peer is not the
    recorded host of Y, that [leave-room] removes it from the members of Y;
    if it is, the [leave-room] leaves the members of Y as they are, the
    peer included, vacates the host slot of Y and arms the cleanup timeout
    of Y. *)
Theorem join_second_room_keeps_first ws c peerId message leave X Y roomY now fresh
  now2 fresh2 st :
  activeConn ws c peerId st →
  messageType message = Some (js "join-room") →
  get_field (js "roomId") message = Some (JStr Y) →
  isValidRoomId (Some (JStr Y)) = true →
  messageType leave = Some (js "leave-room") →
  X ≠ Y →
  peerId ∈ getRoomMembers X (storage st) →
  rooms (storage st) !! Y = Some roomY →
  hasPeer (hostPeerId roomY) (storage st) = true →
  (checkRateLimit peerId now st).1 = true →
  let st' := onMessage ttl ws (Parsed message) now fresh st in
  (checkRateLimit peerId now2 st').1 = true →
  let st'' := onMessage ttl ws (Parsed leave) now2 fresh2 st' in
  (peerId ∈ getRoomMembers Y (storage st')
   ∧ (p_roomId <$> getPeer peerId (storage st')) = Some (Some Y)
   ∧ getRoomMembers X (storage st') = getRoomMembers X (storage st)
   ∧ peerId ∈ getRoomMembers X (storage st'))
  ∧ (getRoomMembers X (storage st'') = getRoomMembers X (storage st)
     ∧ peerId ∈ getRoomMembers X (storage st''))
  ∧ (hostPeerId roomY ≠ Some peerId → peerId ∉ getRoomMembers Y (storage st''))
  ∧ (hostPeerId roomY = Some peerId →
       getRoomMembers Y (storage st'') = getRoomMembers Y (storage st')
       ∧ peerId ∈ getRoomMembers Y (storage st'')
       ∧ awaiting Y (nextTimer st) (now2 + ROOM_CLEANUP_DELAY) st'').
Proof.
  intros Hact Hty Hrid Hvalid Hleave Hne Hin HY Hlive Hok. cbn zeta.
  rewrite (onMessage_routed ttl ws c peerId _ _ now fresh st Hact) by done.
  rewrite classify_join_room. cbn zeta.
  destruct (admitted_frame c peerId now st) as (Er & Ep & Em & Ew & Eh & Ec & Et & Ect & En & Eo).
  set (st1 := admitted c peerId now st) in *. clearbody st1.
  assert (Hy : Y ≠ []) by (intros ->; discriminate).
  set (st' := joinRoom ws c peerId _ message st1).
  assert (Hst' : roomMembers (storage st')
                 = <[Y := if bool_decide (peerId ∈ getRoomMembers Y (storage st))
                          then getRoomMembers Y (storage st)
                          else getRoomMembers Y (storage st) ++ [peerId]]>
                     (roomMembers (storage st))
                 ∧ (p_roomId <$> peers (storage st') !! peerId) = Some (Some Y)
                 ∧ rooms (storage st') = rooms (storage st)
                 ∧ conns st' = conns st
                 ∧ nextTimer st' = nextTimer st).
  { subst st'. unfold joinRoom, getRoom, hasPeer in *.
    rewrite Hrid, Hvalid, (get_string_of_field _ _ _ Hrid). cbn [negb].
    rewrite Er, HY, Ep, Hlive. cbn [negb]. unfold withToken, getRoomMembers.
    destruct (c_sessionToken c); sends; proj; rewrite Em, Er, Ec, En, lookup_insert_eq;
      repeat split; unfold getRoomMembers, getPeer, peerWithRoom; proj; rewrite ?Em;
      try done; by destruct (peers _ !! _). }
  destruct Hst' as (Hm' & Hp' & Hr' & Hc' & Hn').
  assert (HX' : getRoomMembers X (storage st') = getRoomMembers X (storage st)).
  { unfold getRoomMembers. rewrite Hm'. by rewrite lookup_insert_ne. }
  assert (HYin : peerId ∈ getRoomMembers Y (storage st')).
  { unfold getRoomMembers at 1. rewrite Hm', lookup_insert_eq. simpl.
    case_bool_decide; [done|]. apply elem_of_app. right. by apply list_elem_of_singleton. }
  intros Hok2.
  assert (Hact' : activeConn ws c peerId st').
  { destruct Hact as [Hc Hp]. split; [|done]. by rewrite Hc'. }
  rewrite (onMessage_routed ttl ws c peerId _ _ now2 fresh2 st' Hact') by done.
  rewrite classify_leave_room. cbn zeta.
  destruct (admitted_frame c peerId now2 st')
    as (Er2 & Ep2 & Em2 & _ & _ & _ & Et2 & Ect2 & En2 & _).
  set (st2 := admitted c peerId now2 st') in *. clearbody st2.
  split; [by rewrite HX'|].
  assert (Hpeer : ∃ p, peers (storage st') !! peerId = Some p ∧ p_roomId p = Some Y).
  { destruct (peers (storage st') !! peerId) as [p|]; [|done]. exists p. split; [done|].
    simpl in Hp'. congruence. }
  destruct Hpeer as (p & Hp & HpY).
  destruct (decide (hostPeerId roomY = Some peerId)) as [Hhost|Hhost].
  - assert (Hm'' : roomMembers (storage (leaveRoom c peerId (getPeer peerId (storage st2)) now2 st2))
                   = roomMembers (storage st')
                   ∧ awaiting Y (nextTimer st) (now2 + ROOM_CLEANUP_DELAY)
                       (leaveRoom c peerId (getPeer peerId (storage st2)) now2 st2)).
    { unfold leaveRoom, getPeer, getRoom. rewrite Ep2, Hp, HpY.
      rewrite (asTruthy_of_Some Y Hy). rewrite Er2, Hr', HY.
      rewrite bool_decide_eq_true_2 by done.
      unfold hostGone, scheduleRoomCleanup, clearTimeout, getRoom, withToken, awaiting.
      rewrite notifyAll_eq. proj. rewrite lookup_insert_eq.
      destruct (cleanupTimers st2 !! Y) as [n|] eqn:Hn; destruct (c_sessionToken c); proj;
        rewrite ?lookup_insert_eq, ?En2, ?Hn', ?Em2; repeat split; eauto;
        by rewrite lookup_insert_eq. }
    destruct Hm'' as [Hm'' Haw].
    set (st'' := leaveRoom c peerId _ now2 st2) in *.
    assert (HY'' : getRoomMembers Y (storage st'') = getRoomMembers Y (storage st')).
    { unfold getRoomMembers. by rewrite Hm''. }
    assert (HX'' : getRoomMembers X (storage st'') = getRoomMembers X (storage st)).
    { rewrite <- HX'. unfold getRoomMembers. by rewrite Hm''. }
    split; [split; [done|by rewrite HX'']|]. split; [done|].
    intros _. split; [done|]. split; [by rewrite HY''|done].
  - assert (Hm'' : roomMembers (storage (leaveRoom c peerId (getPeer peerId (storage st2)) now2 st2))
                   = alter (filter (λ m, m ≠ peerId)) Y (roomMembers (storage st'))).
    { unfold leaveRoom, getPeer, getRoom. rewrite Ep2, Hp, HpY.
      rewrite (asTruthy_of_Some Y Hy). rewrite Er2, Hr', HY.
      rewrite bool_decide_eq_false_2 by done.
      unfold withToken. destruct (c_sessionToken c); proj; rewrite ?Em2; reflexivity. }
    set (st'' := leaveRoom c peerId _ now2 st2) in *.
    assert (HX'' : getRoomMembers X (storage st'') = getRoomMembers X (storage st)).
    { rewrite <- HX'. unfold getRoomMembers. rewrite Hm''.
      by rewrite lookup_alter, decide_False by done. }
    split; [split; [done|by rewrite HX'']|]. split; [|done].
    intros _. unfold getRoomMembers. rewrite Hm'', lookup_alter, decide_True by done.
    destruct (roomMembers (storage st') !! Y); simpl; [|apply not_elem_of_nil].
    rewrite elem_of_filter_ne. tauto.
Qed.

End Rooms.

Lemma leave_room_idempotent_witness :
  let leave := Parsed (Scenario.plainMsg "leave-room") in
  let st' := onMessage Scenario.ttl 2 leave 20 Scenario.idX Scenario.hostAndMember in
  let st'' := onMessage Scenario.ttl 2 leave 21 Scenario.idX st' in
  outbox st'' = outbox st'
  ∧ roomMembers (storage st'') = roomMembers (storage st')
  ∧ rooms (storage st'') = rooms (storage st').
Proof.
  pose proof (leave_room_idempotent Scenario.ttl 2
    (mkConn Scenario.ipA (Some Scenario.idM) (Some Scenario.tokenM) OPEN)
    Scenario.idM (Scenario.plainMsg "leave-room") 20 Scenario.idX 21 Scenario.idX
    Scenario.hostAndMember) as H.
  destruct H as (_ & _ & _ & H1 & H2 & H3 & _);
    [split; vm_compute; reflexivity | vm_compute; reflexivity .. |].
  exact (conj H1 (conj H2 H3)).
Defined.

Lemma ownRoom_reachable : reachable Scenario.ttl ownRoom.
Proof.
  apply (reachable_run Scenario.ttl ownRoomEvents initial).
  - constructor.
  - vm_compute. reflexivity.
Qed.

(** In [ownRoom], M is a member of X and the recorded host of Y: its
    [join-room] for Y succeeds, and the [leave-room] after it takes the host
    branch, which leaves M among the members of Y. *)
Lemma leave_keeps_host_listed_counterexample : ¬ leaveRemovesFromSecondRoom Scenario.ttl.
Proof.
  intros H.
  apply (H 2%nat (mkConn Scenario.ipA (Some Scenario.idM) (Some Scenario.tokenM) OPEN)
           Scenario.idM (Scenario.roomMsg "join-room" Scenario.roomY)
           (Scenario.plainMsg "leave-room") Scenario.roomX Scenario.roomY
           (mkRoom (Some Scenario.idM) (Some 4)) 20 Scenario.idX 21 Scenario.idX ownRoom
           ownRoom_reachable).
  - split; vm_compute; reflexivity.
  - reflexivity.
  - reflexivity.
  - reflexivity.
  - reflexivity.
  - discriminate.
  - vm_compute. apply list_elem_of_here.
  - vm_compute. reflexivity.
  - vm_compute. reflexivity.
  - vm_compute. reflexivity.
  - vm_compute. reflexivity.
  - vm_compute. apply list_elem_of_here.
Qed.

Lemma join_second_room_keeps_first_witness :
  (Scenario.idM
   ∈ getRoomMembers Scenario.roomX
       (storage (onMessage Scenario.ttl 2 (Parsed (Scenario.plainMsg "leave-room")) 21
                   Scenario.idX
                   (onMessage Scenario.ttl 2
                      (Parsed (Scenario.roomMsg "join-room" Scenario.roomY)) 20 Scenario.idX
                      twoRooms)))
   ∧ (Scenario.idM
      ∉ getRoomMembers Scenario.roomY
          (storage (onMessage Scenario.ttl 2 (Parsed (Scenario.plainMsg "leave-room")) 21
                      Scenario.idX
                      (onMessage Scenario.ttl 2
                         (Parsed (Scenario.roomMsg "join-room" Scenario.roomY)) 20 Scenario.idX
                         twoRooms)))))
  ∧ Scenario.idM
    ∈ getRoomMembers Scenario.roomY
        (storage (onMessage Scenario.ttl 2 (Parsed (Scenario.plainMsg "leave-room")) 21
                    Scenario.idX
                    (onMessage Scenario.ttl 2
                       (Parsed (Scenario.roomMsg "join-room" Scenario.roomY)) 20 Scenario.idX
                       ownRoom))).
Proof.
  split.
  - pose proof (join_second_room_keeps_first Scenario.ttl 2
      (mkConn Scenario.ipA (Some Scenario.idM) (Some Scenario.tokenM) OPEN)
      Scenario.idM (Scenario.roomMsg "join-room" Scenario.roomY) (Scenario.plainMsg "leave-room")
      Scenario.roomX Scenario.roomY (mkRoom (Some Scenario.idG) (Some 5)) 20 Scenario.idX
      21 Scenario.idX twoRooms) as H.
    destruct H as (_ & (_ & H1) & H2 & _);
      [split; vm_compute; reflexivity | reflexivity | reflexivity | reflexivity | reflexivity
      | discriminate | vm_compute; apply list_elem_of_here | vm_compute; reflexivity ..|].
    exact (conj H1 (H2 ltac:(discriminate))).
  - pose proof (join_second_room_keeps_first Scenario.ttl 2
      (mkConn Scenario.ipA (Some Scenario.idM) (Some Scenario.tokenM) OPEN)
      Scenario.idM (Scenario.roomMsg "join-room" Scenario.roomY) (Scenario.plainMsg "leave-room")
      Scenario.roomX Scenario.roomY (mkRoom (Some Scenario.idM) (Some 4)) 20 Scenario.idX
      21 Scenario.idX ownRoom) as H.
    destruct H as (_ & _ & _ & H);
      [split; vm_compute; reflexivity | reflexivity | reflexivity | reflexivity | reflexivity
      | discriminate | vm_compute; apply list_elem_of_here | vm_compute; reflexivity ..|].
    destruct (H eq_refl) as (_ & H2 & _). exact H2.
Defined.

(** ** Session restore *)

Section Restore.

Variable ttl : Z.

(** The state in which the room of a restored session is reconciled
    (lines 741-765 done, lines 767-793 to come). *)
Lemma restoreSession_unfold ws ip tok v now st :
  restoreSession ws ip tok v now st
  = let pre :=
      sendTo ws (MPeerIdRestored (s_peerId v) (s_roomId v))
        (upd_storage (setPeer (s_peerId v) (mkPeer (s_roomId v) (Some ip) (Some tok)))
           (set_wsConnections
              (<[s_peerId v := ws]>
                 (wsConnections
                    match wsConnections (setConnPeer ws (s_peerId v) st) !! s_peerId v with
                    | Some oldWs =>
                        if bool_decide (oldWs ≠ ws)
                        then wsClose oldWs
                               (upd_storage (updateSessionLastSeen tok now)
                                  (setConnPeer ws (s_peerId v) st))
                        else upd_storage (updateSessionLastSeen tok now)
                               (setConnPeer ws (s_peerId v) st)
                    | None => upd_storage (updateSessionLastSeen tok now)
                                (setConnPeer ws (s_peerId v) st)
                    end))
              match wsConnections (setConnPeer ws (s_peerId v) st) !! s_peerId v with
              | Some oldWs =>
                  if bool_decide (oldWs ≠ ws)
                  then wsClose oldWs
                         (upd_storage (updateSessionLastSeen tok now)
                            (setConnPeer ws (s_peerId v) st))
                  else upd_storage (updateSessionLastSeen tok now)
                         (setConnPeer ws (s_peerId v) st)
              | None => upd_storage (updateSessionLastSeen tok now)
                          (setConnPeer ws (s_peerId v) st)
              end)) in
    match asTruthy (s_roomId v) with
    | Some roomId => restoreRoom ws (s_peerId v) roomId pre
    | None => pre
    end.
Proof. reflexivity. Qed.

Lemma restoreSession_pre ws c ip tok v now st :
  conns st !! ws = Some c → c_readyState c = OPEN →
  ∃ pre,
    restoreSession ws ip tok v now st
    = match asTruthy (s_roomId v) with
      | Some roomId => restoreRoom ws (s_peerId v) roomId pre
      | None => pre
      end
    ∧ conns pre !! ws
      = Some (mkConn (c_ip c) (Some (s_peerId v)) (c_sessionToken c) OPEN)
    ∧ (∀ oldWs, wsConnections st !! s_peerId v = Some oldWs → oldWs ≠ ws →
                isOpen oldWs pre = false)
    ∧ wsConnections pre = <[s_peerId v := ws]> (wsConnections st)
    ∧ rooms (storage pre) = rooms (storage st)
    ∧ roomMembers (storage pre) = roomMembers (storage st)
    ∧ hostWsConnections pre = hostWsConnections st
    ∧ timers pre = timers st
    ∧ cleanupTimers pre = cleanupTimers st
    ∧ outbox pre = outbox st ++ [(ws, MPeerIdRestored (s_peerId v) (s_roomId v))].
Proof.
  intros Hc Ho. rewrite restoreSession_unfold. cbn zeta.
  eexists. split; [reflexivity|].
  unfold setConnPeer. rewrite Hc. proj.
  destruct (wsConnections st !! s_peerId v) as [oldWs|] eqn:Hold.
  - case_bool_decide as Hne.
    + unfold wsClose. proj. rewrite lookup_insert_ne by done.
      destruct (conns st !! oldWs) as [co|] eqn:Hco.
      * destruct (c_readyState co) eqn:Hro; rewrite sendTo_eq; unfold sentTo, isOpen; proj;
          rewrite ?(lookup_insert_ne _ oldWs ws) by done; rewrite ?lookup_insert_eq; proj;
          rewrite ?Ho; repeat split; try done.
        all: intros o [= <-] _; rewrite ?lookup_insert_eq, ?lookup_insert_ne by done;
          rewrite ?Hco; proj; by rewrite ?Hro.
      * rewrite sendTo_eq; unfold sentTo, isOpen; proj. rewrite lookup_insert_eq. proj.
        rewrite Ho. repeat split; try done.
        intros o [= <-] _. rewrite lookup_insert_ne by done. by rewrite Hco.
    + rewrite sendTo_eq; unfold sentTo, isOpen; proj. rewrite lookup_insert_eq. proj.
      rewrite Ho. repeat split; try done.
      intros o [= <-] Hne'. destruct Hne. done.
  - rewrite sendTo_eq; unfold sentTo, isOpen; proj. rewrite lookup_insert_eq. proj.
    rewrite Ho. repeat split; done.
Qed.

Lemma delivered_frame ms m st st' :
  wsConnections st' = wsConnections st → conns st' = conns st →
  delivered ms m st' = delivered ms m st.
Proof.
  intros Hw Hc. unfold delivered. f_equal. unfold sentToPeer, sentTo, isOpen.
  by rewrite Hw, Hc.
Qed.

Lemma elem_of_add (p : JSString) (ms : list JSString) :
  p ∈ (if bool_decide (p ∈ ms) then ms else ms ++ [p]).
Proof.
  case_bool_decide; [done|]. apply elem_of_app. right. by apply list_elem_of_singleton.
Qed.

Lemma restoreRoom_effect ws p r room pre :
  rooms (storage pre) !! r = Some room →
  let s := restoreRoom ws p r pre in
  conns s = conns pre
  ∧ wsConnections s = wsConnections pre
  ∧ (p ∈ getRoomMembers r (storage s) ∨ hostOf r s = Some p)
  ∧ (hostPeerId room ≠ Some p → p ∈ getRoomMembers r (storage s))
  ∧ (hostPeerId room = None →
       hostOf r s = Some p
       ∧ hostWsConnections s !! r = Some ws
       ∧ cleanupTimers s !! r = None
       ∧ (∀ t, cleanupTimers pre !! r = Some t → timers s !! t = None)
       ∧ outbox s
         = outbox pre ++ delivered (getRoomMembers r (storage s)) (MHostReconnected r p) s)
  ∧ (∃ rest, outbox s = outbox pre ++ rest).
Proof.
  intros Hroom. cbn zeta. unfold restoreRoom, getRoom. rewrite Hroom.
  unfold addRoomMember, getRoomMembers. proj.
  set (ms := default [] (roomMembers (storage pre) !! r)).
  assert (Hin : p ∈ (if bool_decide (p ∈ ms) then ms else ms ++ [p])).
  { case_bool_decide; [done|]. apply elem_of_app. right. by apply list_elem_of_singleton. }
  unfold cancelCleanup, clearTimeout, hostOf.
  destruct (bool_decide (p ∈ ms)) eqn:Hmem;
    [apply bool_decide_eq_true in Hmem | apply bool_decide_eq_false in Hmem];
    (destruct (bool_decide (hostPeerId room = Some p)) eqn:Hh;
      [apply bool_decide_eq_true in Hh | apply bool_decide_eq_false in Hh]);
    cbn [negb andb];
    destruct (hostPeerId room) as [[|x h]|] eqn:Eh; cbn [truthyStr negb];
    rewrite ?notifyAll_eq; proj;
    destruct (cleanupTimers pre !! r) as [n|] eqn:Hn;
    proj; rewrite ?Hroom, ?lookup_insert_eq, ?lookup_delete_eq;
    cbn [mbind option_bind hostPeerId default id]; fold ms.
  all: split; [done|]; split; [done|].
  all: split; [first [by left | by right | right; congruence | left; apply elem_of_add] |].
  all: split; [first [done | intros; congruence | intros; apply elem_of_add] |].
  all: split; [| first [by exists []; rewrite app_nil_r | by eexists]].
  all: intros E; try congruence.
  all: repeat split; try done.
  all: try (intros t [= <-]; by rewrite lookup_delete_eq).
Qed.

Lemma delivered_elem ms m st p w :
  p ∈ ms → wsConnections st !! p = Some w → isOpen w st = true →
  (w, m) ∈ delivered ms m st.
Proof.
  intros Hp Hw Ho. unfold delivered. apply list_elem_of_bind. exists p. split; [|done].
  unfold sentToPeer, sentTo. rewrite Hw, Ho. apply list_elem_of_here.
Qed.

Lemma delivered_app ms1 ms2 m st :
  delivered (ms1 ++ ms2) m st = delivered ms1 m st ++ delivered ms2 m st.
Proof. unfold delivered. apply bind_app. Qed.

Lemma restoreRoom_cases ws p r room pre :
  rooms (storage pre) !! r = Some room →
  let s := restoreRoom ws p r pre in
  conns s = conns pre
  ∧ wsConnections s = wsConnections pre
  ∧ (p ∈ getRoomMembers r (storage pre) →
     getRoomMembers r (storage s) = getRoomMembers r (storage pre))
  ∧ (truthyStr (hostPeerId room) = true →
       (hostPeerId room ≠ Some p → p ∈ getRoomMembers r (storage s))
       ∧ rooms (storage s) = rooms (storage pre)
       ∧ hostWsConnections s = hostWsConnections pre
       ∧ timers s = timers pre
       ∧ cleanupTimers s = cleanupTimers pre
       ∧ outbox s = outbox pre)
  ∧ (hostPeerId room = None →
       hostOf r s = Some p
       ∧ hostWsConnections s !! r = Some ws
       ∧ cleanupTimers s !! r = None
       ∧ (∀ t, cleanupTimers pre !! r = Some t → timers s !! t = None)
       ∧ ∃ rest, outbox s = outbox pre ++ rest
                 ∧ ∀ m w, m ∈ getRoomMembers r (storage pre) →
                          wsConnections pre !! m = Some w → isOpen w pre = true →
                          (w, MHostReconnected r p) ∈ rest).
Proof.
  intros Hroom. cbn zeta. unfold restoreRoom, getRoom. rewrite Hroom.
  unfold addRoomMember, getRoomMembers. proj.
  set (ms := default [] (roomMembers (storage pre) !! r)).
  unfold cancelCleanup, clearTimeout, hostOf.
  destruct (bool_decide (p ∈ ms)) eqn:Hmem;
    [apply bool_decide_eq_true in Hmem | apply bool_decide_eq_false in Hmem];
    (destruct (bool_decide (hostPeerId room = Some p)) eqn:Hh;
      [apply bool_decide_eq_true in Hh | apply bool_decide_eq_false in Hh]);
    cbn [negb andb];
    destruct (hostPeerId room) as [[|x h]|] eqn:Eh; cbn [truthyStr negb];
    rewrite ?notifyAll_eq; proj;
    destruct (cleanupTimers pre !! r) as [n|] eqn:Hn;
    proj; rewrite ?Hroom, ?lookup_insert_eq, ?lookup_delete_eq;
    cbn [mbind option_bind hostPeerId default id]; fold ms.
  all: split; [done|]; split; [done|].
  all: split; [first [done | intros; by rewrite bool_decide_eq_true_2 by done] |].
  all: split; [first [by intros [=] | intros _; repeat split; try done;
                      first [intros; congruence | intros; apply elem_of_add]] |].
  all: intros E; try congruence.
  all: repeat split; try done.
  all: try (intros t [= <-]; by rewrite lookup_delete_eq).
  all: eexists; split; [reflexivity|].
  all: intros m w Hm Hw Ho; unfold getRoomMembers; proj; rewrite ?lookup_insert_eq;
    cbn [default id]; fold ms.
  all: try (rewrite bool_decide_eq_true_2 by done).
  all: try (rewrite bool_decide_eq_false_2 by done; rewrite delivered_app;
            apply elem_of_app; left).
  all: by apply (delivered_elem _ _ _ m w).
Qed.

(** C4, as amended.  A [hello] on a new open connection that carries the
    token of a session [v] seen less than the TTL ago gives the connection
    the identity of the session and answers [peer-id] with [restored] and
    the session's room; the registry then maps the identity to the new
    socket, and a different socket registered for it before is no longer
    open.  If the session's room still has a record: an identity that is
    listed as member stays listed and the member list is unchanged; if the
    record names a host, the record, the host transport and the timers stay
    as they are and nothing but the reply is sent (also when that host has
    gone), and the identity, unless it is that host, is among the members
    afterwards; if the record names no host, the identity becomes the host
    on this socket, the cleanup timer of the room is cancelled, and every
    other member listed before that has an open transport is sent
    [host-reconnected]. *)
Theorem session_restore_round_trip ws c tok v message now fresh st :
  conns st !! ws = Some c →
  asTruthy (c_peerId c) = None →
  c_readyState c = OPEN →
  messageType message = Some (js "hello") →
  get_field (js "sessionToken") message = Some (JStr tok) →
  isValidSessionToken (Some (JStr tok)) = true →
  sessions (storage st) !! tok = Some v →
  now - s_lastSeen v < ttl * 1000 →
  let p := s_peerId v in
  let reply := (ws, MPeerIdRestored p (s_roomId v)) in
  let st' := onMessage ttl ws (Parsed message) now fresh st in
  connOf ws p st'
  ∧ (∃ rest, outbox st' = outbox st ++ reply :: rest)
  ∧ wsConnections st' !! p = Some ws
  ∧ isOpen ws st' = true
  ∧ (∀ oldWs, wsConnections st !! p = Some oldWs → oldWs ≠ ws → isOpen oldWs st' = false)
  ∧ (∀ r room, asTruthy (s_roomId v) = Some r → rooms (storage st) !! r = Some room →
       (p ∈ getRoomMembers r (storage st) →
        getRoomMembers r (storage st') = getRoomMembers r (storage st))
       ∧ (truthyStr (hostPeerId room) = true →
            (hostPeerId room ≠ Some p → p ∈ getRoomMembers r (storage st'))
            ∧ rooms (storage st') = rooms (storage st)
            ∧ hostWsConnections st' = hostWsConnections st
            ∧ timers st' = timers st
            ∧ cleanupTimers st' = cleanupTimers st
            ∧ outbox st' = outbox st ++ [reply])
       ∧ (hostPeerId room = None →
            hostOf r st' = Some p
            ∧ hostWsConnections st' !! r = Some ws
            ∧ cleanupTimers st' !! r = None
            ∧ (∀ t, cleanupTimers st !! r = Some t → timers st' !! t = None)
            ∧ ∃ rest, outbox st' = outbox st ++ reply :: rest
                      ∧ ∀ m w, m ∈ getRoomMembers r (storage st) → m ≠ p →
                               wsConnections st' !! m = Some w → isOpen w st' = true →
                               (w, MHostReconnected r p) ∈ rest)).
Proof.
  intros Hc Hp Ho Hty Htok Hvalid Hs Hfresh. cbn zeta.
  unfold onMessage, onHandshake. rewrite Hc, Hty, Hp.
  rewrite bool_decide_eq_false_2 by (intros X; by apply X).
  rewrite Htok, Hvalid, (get_string_of_field _ _ _ Htok). cbn [negb].
  unfold getSession. rewrite storage_setConnToken, Hs.
  destruct (Z.ltb_spec (now - s_lastSeen v) (ttl * 1000)) as [_|]; [|lia].
  set (st0 := setConnToken ws (Some tok) st).
  assert (Hst0 : conns st0 !! ws = Some (mkConn (c_ip c) (c_peerId c) (Some tok) OPEN)
                 ∧ wsConnections st0 = wsConnections st
                 ∧ storage st0 = storage st
                 ∧ hostWsConnections st0 = hostWsConnections st
                 ∧ timers st0 = timers st ∧ cleanupTimers st0 = cleanupTimers st
                 ∧ outbox st0 = outbox st).
  { subst st0. unfold setConnToken. rewrite Hc. proj. rewrite lookup_insert_eq.
    by rewrite Ho. }
  destruct Hst0 as (Hc0 & Hw0 & Hs0 & Hh0 & Ht0 & Hct0 & Ho0). clearbody st0.
  destruct (restoreSession_pre ws _ (c_ip c) tok v now st0 Hc0 eq_refl)
    as (pre & -> & Hcp & Hold & Hwp & Hrp & Hmp & Hhp & Htp & Hctp & Hop).
  proj. rewrite Hw0 in *. rewrite Hs0 in *. rewrite Hh0, Ht0, Hct0, Ho0 in *.
  assert (Hopen_pre : isOpen ws pre = true).
  { unfold isOpen. by rewrite Hcp. }
  assert (Hms : ∀ r0, getRoomMembers r0 (storage pre) = getRoomMembers r0 (storage st)).
  { intros r0. unfold getRoomMembers. by rewrite Hmp. }
  destruct (asTruthy (s_roomId v)) as [r|] eqn:Hr.
  - destruct (rooms (storage st) !! r) as [room|] eqn:Hroom.
    + assert (Hroom' : rooms (storage pre) !! r = Some room) by (by rewrite Hrp).
      destruct (restoreRoom_cases ws (s_peerId v) r room pre Hroom')
        as (Ec & Ew & Emem & Ehosted & Ehost).
      destruct (restoreRoom_effect ws (s_peerId v) r room pre Hroom')
        as (_ & _ & _ & _ & _ & [rest Erest]).
      set (s := restoreRoom ws (s_peerId v) r pre) in *. clearbody s.
      split; [eexists; rewrite Ec; split; [exact Hcp | done] |].
      split; [exists rest; by rewrite Erest, Hop, <- app_assoc |].
      split; [by rewrite Ew, Hwp, lookup_insert_eq |].
      split; [by rewrite (isOpen_conns ws pre s Ec) |].
      split; [intros o H1 H2; rewrite (isOpen_conns o pre s Ec); by apply Hold |].
      intros r0 room0 Hr0 Hroom0. simplify_eq.
      split; [intros Hin; rewrite <- Hms; apply Emem; by rewrite Hms|].
      split.
      * intros Htr. destruct (Ehosted Htr) as (E1 & E2 & E3 & E4 & E5 & E6).
        split; [done|]. split; [by rewrite E2|]. split; [by rewrite E3|].
        split; [by rewrite E4|]. split; [by rewrite E5|]. by rewrite E6, Hop.
      * intros Hnone. destruct (Ehost Hnone) as (E1 & E2 & E3 & E4 & rest' & E5 & E6).
        split; [done|]. split; [done|]. split; [done|].
        split; [intros t Ht; apply E4; by rewrite Hctp |].
        exists rest'. split; [by rewrite E5, Hop, <- app_assoc|].
        intros m w Hm Hmp' Hw Hopen. apply (E6 m w).
        -- by rewrite Hms.
        -- rewrite Ew, Hwp, lookup_insert_ne in Hw by done. by rewrite Hwp, lookup_insert_ne.
        -- by rewrite <- (isOpen_conns w pre s Ec).
    + assert (restoreRoom ws (s_peerId v) r pre = pre) as ->.
      { unfold restoreRoom, getRoom. by rewrite Hrp, Hroom. }
      split; [eexists; split; [exact Hcp | done] |].
      split; [exists []; by rewrite Hop |].
      split; [by rewrite Hwp, lookup_insert_eq |].
      split; [done|]. split; [done|].
      intros r0 room0 Hr0 Hroom0. simplify_eq.
  - split; [eexists; split; [exact Hcp | done] |].
    split; [exists []; by rewrite Hop |].
    split; [by rewrite Hwp, lookup_insert_eq |].
    split; [done|]. split; [done|].
    intros r0 room0 [=].
Qed.

End Restore.

Lemma departedHost_reachable : reachable Scenario.ttl departedHost.
Proof.
  apply (reachable_run Scenario.ttl departedHostEvents initial).
  - constructor.
  - vm_compute. reflexivity.
Qed.

(** Up to [reconnecting], the member list of room X is empty or holds M
    alone. *)
Lemma members_before_reconnecting k :
  getRoomMembers Scenario.roomX
    (storage (run Scenario.ttl (take k reconnectingEvents) initial)) = []
  ∨ getRoomMembers Scenario.roomX
      (storage (run Scenario.ttl (take k reconnectingEvents) initial)) = [Scenario.idM].
Proof.
  do 8 (destruct k as [|k]; [vm_compute; auto|]).
  rewrite take_ge; [vm_compute; auto|].
  assert (E : length reconnectingEvents = 8%nat) by (vm_compute; reflexivity).
  rewrite E. lia.
Qed.

(** In [departedHost] room X still records H, which is in neither the
    registry nor the ledger; M, whose session is in X, says hello again on
    socket 4 and is not installed as host: the handler only looks at the
    stored [hostPeerId].  In [reconnecting] the host H of X, which was
    never listed as a member of X, says hello again and is listed. *)
Lemma restore_keeps_departed_host_counterexample :
  ¬ restoreInstallsWhenHostless Scenario.ttl
  ∧ ¬ restoreAddsOnlyFormerMembers Scenario.ttl.
Proof.
  split.
  { intros H.
    specialize (H 4%nat (mkConn Scenario.ipA None None OPEN) Scenario.tokenM
                  (mkSession Scenario.idM (Some Scenario.roomX) 3)
                  (JObj [(js "type", JStr (js "hello"));
                         (js "sessionToken", JStr Scenario.tokenM)])
                  120 Scenario.idX Scenario.roomX (mkRoom (Some Scenario.idH) (Some 1))
                  departedHost departedHost_reachable).
    assert (E : hostOf Scenario.roomX
                  (onMessage Scenario.ttl 4
                     (Parsed (JObj [(js "type", JStr (js "hello"));
                                    (js "sessionToken", JStr Scenario.tokenM)]))
                     120 Scenario.idX departedHost) = Some Scenario.idH)
      by (vm_compute; reflexivity).
    rewrite E in H. discriminate H.
    - vm_compute. reflexivity.
    - reflexivity.
    - reflexivity.
    - reflexivity.
    - reflexivity.
    - reflexivity.
    - vm_compute. reflexivity.
    - vm_compute. reflexivity.
    - reflexivity.
    - vm_compute. reflexivity.
    - intros q Hq.
      assert (Eq : hostOf Scenario.roomX departedHost = Some Scenario.idH)
        by (vm_compute; reflexivity).
      rewrite Eq in Hq. injection Hq as <-. split; vm_compute; reflexivity. }
  intros H.
  pose proof (H reconnectingEvents 3%nat (mkConn Scenario.ipA None None OPEN) Scenario.tokenH
                (mkSession Scenario.idH (Some Scenario.roomX) 1)
                (JObj [(js "type", JStr (js "hello"));
                       (js "sessionToken", JStr Scenario.tokenH)])
                20 Scenario.idX Scenario.roomX) as H1.
  clear H.
  assert (A1 : enabledAll Scenario.ttl reconnectingEvents initial = true)
    by (vm_compute; reflexivity).
  assert (A2 : conns (run Scenario.ttl reconnectingEvents initial) !! 3%nat
               = Some (mkConn Scenario.ipA None None OPEN)) by (vm_compute; reflexivity).
  specialize (H1 A1 A2 eq_refl eq_refl eq_refl eq_refl eq_refl). clear A1 A2.
  assert (A3 : sessions (storage (run Scenario.ttl reconnectingEvents initial)) !! Scenario.tokenH
               = Some (mkSession Scenario.idH (Some Scenario.roomX) 1))
    by (vm_compute; reflexivity).
  assert (A4 : 20 - s_lastSeen (mkSession Scenario.idH (Some Scenario.roomX) 1)
               < Scenario.ttl * 1000) by (vm_compute; reflexivity).
  specialize (H1 A3 A4 eq_refl). clear A3 A4.
  assert (A5 : getRoomMembers Scenario.roomX
                 (storage (onMessage Scenario.ttl 3
                             (Parsed (JObj [(js "type", JStr (js "hello"));
                                            (js "sessionToken", JStr Scenario.tokenH)]))
                             20 Scenario.idX (run Scenario.ttl reconnectingEvents initial)))
               = [Scenario.idM; Scenario.idH]) by (vm_compute; reflexivity).
  rewrite A5 in H1. clear A5.
  assert (A6 : s_peerId (mkSession Scenario.idH (Some Scenario.roomX) 1)
               ∈ [Scenario.idM; Scenario.idH]).
  { apply list_elem_of_further, list_elem_of_here. }
  specialize (H1 A6). clear A6.
  destruct H1 as [k Hk].
  destruct (members_before_reconnecting k) as [E|E]; rewrite E in Hk; clear E.
  - exact (not_elem_of_nil _ Hk).
  - apply list_elem_of_singleton in Hk. vm_compute in Hk. discriminate Hk.
Qed.

Lemma secondSocket_reachable : reachable Scenario.ttl secondSocket.
Proof.
  apply (reachable_run Scenario.ttl secondSocketEvents initial).
  - constructor.
  - vm_compute. reflexivity.
Qed.

Lemma session_restore_round_trip_witness :
  (connOf 3 Scenario.idH
     (onMessage Scenario.ttl 3 (Scenario.hello Scenario.tokenH) 50 Scenario.idX reconnecting)
   ∧ hostOf Scenario.roomX
       (onMessage Scenario.ttl 3 (Scenario.hello Scenario.tokenH) 50 Scenario.idX reconnecting)
     = Some Scenario.idH
   ∧ cleanupTimers
       (onMessage Scenario.ttl 3 (Scenario.hello Scenario.tokenH) 50 Scenario.idX reconnecting)
     !! Scenario.roomX = None)
  ∧ (wsConnections
       (onMessage Scenario.ttl 3 (Scenario.hello Scenario.tokenM) 50 Scenario.idX secondSocket)
     !! Scenario.idM = Some 3%nat
     ∧ isOpen 2
         (onMessage Scenario.ttl 3 (Scenario.hello Scenario.tokenM) 50 Scenario.idX secondSocket)
       = false
     ∧ getRoomMembers Scenario.roomX
         (storage
            (onMessage Scenario.ttl 3 (Scenario.hello Scenario.tokenM) 50 Scenario.idX
               secondSocket))
       = getRoomMembers Scenario.roomX (storage secondSocket)).
Proof.
  split.
  - pose proof (session_restore_round_trip Scenario.ttl 3
      (mkConn Scenario.ipA None None OPEN) Scenario.tokenH
      (mkSession Scenario.idH (Some Scenario.roomX) 1)
      (JObj [(js "type", JStr (js "hello")); (js "sessionToken", JStr Scenario.tokenH)])
      50 Scenario.idX reconnecting) as H.
    destruct H as (H1 & _ & _ & _ & _ & H3);
      [vm_compute; reflexivity .. |].
    destruct (H3 Scenario.roomX (mkRoom None None)) as (_ & _ & H5);
      [vm_compute; reflexivity .. |].
    destruct H5 as (H5 & _ & H6 & _); [reflexivity|].
    exact (conj H1 (conj H5 H6)).
  - pose proof (session_restore_round_trip Scenario.ttl 3
      (mkConn Scenario.ipA None None OPEN) Scenario.tokenM
      (mkSession Scenario.idM (Some Scenario.roomX) 3)
      (JObj [(js "type", JStr (js "hello")); (js "sessionToken", JStr Scenario.tokenM)])
      50 Scenario.idX secondSocket) as H.
    destruct H as (_ & _ & H2 & _ & H3 & H4);
      [vm_compute; reflexivity .. |].
    destruct (H4 Scenario.roomX (mkRoom (Some Scenario.idH) (Some 1))) as (H5 & _);
      [vm_compute; reflexivity .. |].
    refine (conj H2 (conj (H3 2%nat _ _) (H5 _))).
    + vm_compute. reflexivity.
    + discriminate.
    + vm_compute. apply list_elem_of_here.
Defined.

(** ** Host migration and the cleanup timer *)

Section Quiet.

Variable ttl : Z.
Variable r : JSString.

Lemma closedIn_app out1 out2 : closedIn r (out1 ++ out2) = closedIn r out1 ++ closedIn r out2.
Proof. apply filter_app. Qed.

Lemma closedIn_sentTo ws m st : isRoomClosed r m = false → closedIn r (sentTo ws m st) = [].
Proof.
  intros H. unfold sentTo, closedIn. destruct (isOpen ws st); [|done].
  rewrite filter_cons_False; [done|]. simpl. by rewrite H.
Qed.

Lemma closedIn_sentToPeer p m st :
  isRoomClosed r m = false → closedIn r (sentToPeer p m st) = [].
Proof.
  intros H. unfold sentToPeer. destruct (wsConnections st !! p); [|done].
  by apply closedIn_sentTo.
Qed.

Lemma closedIn_delivered ms m st :
  isRoomClosed r m = false → closedIn r (delivered ms m st) = [].
Proof.
  intros H. unfold delivered. induction ms as [|p ms IH]; [done|].
  rewrite bind_cons, closedIn_app, closedIn_sentToPeer by done. exact IH.
Qed.

Lemma closedIn_sentToMaybe (w : option nat) m st :
  isRoomClosed r m = false →
  closedIn r (match w with Some ws => sentTo ws m st | None => [] end) = [].
Proof. intros H. destruct w; [by apply closedIn_sentTo | done]. Qed.

Lemma quiet_refl st : quiet r st st.
Proof. done. Qed.

Lemma quiet_trans st1 st2 st3 : quiet r st1 st2 → quiet r st2 st3 → quiet r st1 st3.
Proof. unfold quiet. congruence. Qed.

Lemma quiet_outbox st st' : outbox st' = outbox st → quiet r st st'.
Proof. unfold quiet, closedNotices. by intros ->. Qed.

Ltac quiet_close :=
  unfold quiet, closedNotices; proj;
  rewrite ?closedIn_app, ?closedIn_sentTo, ?closedIn_sentToPeer, ?closedIn_delivered,
    ?closedIn_sentToMaybe, ?app_nil_r by done;
  try done.

Lemma quiet_sendTo ws m st : isRoomClosed r m = false → quiet r st (sendTo ws m st).
Proof. intros. rewrite sendTo_eq. quiet_close. Qed.

Lemma quiet_notifyAll ms m st : isRoomClosed r m = false → quiet r st (notifyAll ms m st).
Proof. intros. rewrite notifyAll_eq. quiet_close. Qed.

Lemma outbox_wsClose w st : outbox (wsClose w st) = outbox st.
Proof. unfold wsClose. by repeat case_match. Qed.

Lemma outbox_setConnPeer w p st : outbox (setConnPeer w p st) = outbox st.
Proof. unfold setConnPeer. by repeat case_match. Qed.

Lemma outbox_setConnToken w t st : outbox (setConnToken w t st) = outbox st.
Proof. unfold setConnToken. by repeat case_match. Qed.

Lemma quiet_onActive ws c peerId message ty now st :
  quiet r st (onActive ws c peerId message ty now st).
Proof.
  unfold_handlers. repeat case_match; sends; quiet_close.
Qed.

Lemma quiet_restoreRoom ws p r0 st : quiet r st (restoreRoom ws p r0 st).
Proof.
  unfold restoreRoom, cancelCleanup, clearTimeout. repeat case_match; sends; quiet_close.
Qed.

Lemma quiet_restoreSession ws ip tok v now st :
  quiet r st (restoreSession ws ip tok v now st).
Proof.
  rewrite restoreSession_unfold. cbn zeta.
  match goal with
  | |- quiet r st match _ with Some roomId => restoreRoom _ _ roomId ?pre | None => _ end =>
      assert (Hpre : quiet r st pre)
  end.
  { sends. unfold quiet, closedNotices. proj.
    rewrite closedIn_app, closedIn_sentTo, app_nil_r by done.
    repeat case_match; rewrite ?outbox_wsClose; proj; by rewrite outbox_setConnPeer. }
  destruct (asTruthy (s_roomId v)); [|done].
  eapply quiet_trans; [exact Hpre|]. apply quiet_restoreRoom.
Qed.

Lemma quiet_onHandshake ws c message ty now fresh st :
  quiet r st (onHandshake ttl ws c message ty now fresh st).
Proof.
  unfold onHandshake.
  assert (H0 : quiet r st (setConnToken ws (get_string (js "sessionToken") message) st))
    by (apply quiet_outbox, outbox_setConnToken).
  assert (Hnew : ∀ ip tok s, quiet r s (newSession ws ip tok fresh now s)).
  { intros. unfold newSession. sends. unfold quiet, closedNotices. proj.
    rewrite closedIn_app, closedIn_sentTo, app_nil_r by done. by rewrite outbox_setConnPeer. }
  repeat case_match; try (by apply quiet_sendTo); try done.
  - eapply quiet_trans; [exact H0|]. sends. unfold quiet, closedNotices.
    rewrite outbox_wsClose. quiet_close.
  - eapply quiet_trans; [exact H0|]. apply quiet_restoreSession.
  - eapply quiet_trans; [exact H0|]. apply Hnew.
  - eapply quiet_trans; [exact H0|]. apply Hnew.
Qed.

Lemma quiet_onClose ws now st : quiet r st (onClose ws now st).
Proof.
  unfold onClose. unfold_handlers. repeat case_match; sends; quiet_close.
Qed.

Lemma outbox_removeMembers (l : list (JSString * Session)) : ∀ st,
  outbox (foldl (λ acc kv,
                match asTruthy (s_roomId kv.2) with
                | Some roomId => upd_storage (removeRoomMember roomId (s_peerId kv.2)) acc
                | None => acc
                end) st l) = outbox st.
Proof.
  induction l as [|kv l IH]; intros st; [done|]. simpl. rewrite IH.
  by destruct (asTruthy _).
Qed.

(** [room-closed] for [r] is sent by the timeout of [r] and by nothing
    else. *)
Lemma quiet_unless_timer e st :
  quiet r st (apply ttl e st)
  ∨ ∃ t now due, e = ETimer t now ∧ timers st !! t = Some (r, due).
Proof.
  destruct e as [ws ip|ws data now fresh|ws now|t now|now|now]; cbn [apply].
  - left. unfold onConnection, trackConnection. case_match; quiet_close.
  - left. unfold onMessage.
    repeat case_match; auto using quiet_onActive, quiet_onHandshake;
      try (by apply quiet_sendTo); done.
  - left. apply quiet_onClose.
  - unfold onTimer. destruct (timers st !! t) as [[r0 due]|] eqn:Ht; [|by left].
    destruct (decide (r0 = r)) as [->|Hne]; [right; eauto|]. left.
    assert (isRoomClosed r (MRoomClosed r0 "Host did not return") = false)
      by (simpl; by rewrite bool_decide_eq_false_2).
    unfold cleanupCallback, clearTimeout. repeat case_match; sends; quiet_close.
  - left. by apply quiet_outbox.
  - left. apply quiet_outbox. unfold sweepSessions, cleanupExpiredSessions.
    by rewrite outbox_removeMembers.
Qed.

End Quiet.

Section Arming.

Variable ttl : Z.
Variable r : JSString.

Lemma armsOnlyHostless_sub st st' :
  (∀ t x, timers st' !! t = Some x → timers st !! t = Some x) → armsOnlyHostless r st st'.
Proof. intros H t due Ht. left. by apply H. Qed.

Lemma timers_wsClose w st : timers (wsClose w st) = timers st.
Proof. unfold wsClose. by repeat case_match. Qed.

Lemma timers_setConnPeer w p st : timers (setConnPeer w p st) = timers st.
Proof. unfold setConnPeer. by repeat case_match. Qed.

Lemma timers_setConnToken w t st : timers (setConnToken w t st) = timers st.
Proof. unfold setConnToken. by repeat case_match. Qed.

Ltac timers_close :=
  unfold armsOnlyHostless, hostOf; proj; intros t' due' Ht';
  repeat match goal with
    | H : <[_ := _]> _ !! _ = Some _ |- _ =>
        apply lookup_insert_Some in H; destruct H as [[<- [= <- <-]] | [? ?]]
    | H : delete _ _ !! _ = Some _ |- _ =>
        apply lookup_delete_Some in H; destruct H as [? ?]
    end;
  first [ by left | right; by rewrite ?lookup_insert_eq ].

Lemma armsOnlyHostless_onActive ws c peerId message ty now st :
  armsOnlyHostless r st (onActive ws c peerId message ty now st).
Proof.
  unfold_handlers. repeat case_match; sends; timers_close.
Qed.

Lemma armsOnlyHostless_onClose ws now st : armsOnlyHostless r st (onClose ws now st).
Proof.
  unfold onClose. unfold_handlers. repeat case_match; sends; timers_close.
Qed.

Lemma armsOnlyHostless_onTimer t st : armsOnlyHostless r st (onTimer t st).
Proof.
  unfold_handlers. repeat case_match; sends; timers_close.
Qed.

Lemma timers_restoreSession ws ip tok v now st t x :
  timers (restoreSession ws ip tok v now st) !! t = Some x → timers st !! t = Some x.
Proof.
  rewrite restoreSession_unfold. cbn zeta.
  match goal with
  | |- timers match _ with Some roomId => restoreRoom _ _ roomId ?pre | None => _ end !! _ = _ → _ =>
      assert (Hpre : timers pre = timers st)
  end.
  { sends. proj. repeat case_match; rewrite ?timers_wsClose; proj; by rewrite timers_setConnPeer. }
  destruct (asTruthy (s_roomId v)); [|by rewrite Hpre].
  rewrite <- Hpre. unfold restoreRoom, cancelCleanup, clearTimeout.
  repeat case_match; sends; proj; try done.
  all: intros Hdel; apply lookup_delete_Some in Hdel; by destruct Hdel.
Qed.

Lemma armsOnlyHostless_onHandshake ws c message ty now fresh st :
  armsOnlyHostless r st (onHandshake ttl ws c message ty now fresh st).
Proof.
  apply armsOnlyHostless_sub. intros t x. unfold onHandshake.
  assert (Hnew : ∀ ip tok s, timers (newSession ws ip tok fresh now s) = timers s).
  { intros. unfold newSession. sends. proj. by rewrite timers_setConnPeer. }
  repeat case_match; sends; proj; rewrite ?timers_wsClose, ?Hnew; proj;
    rewrite ?timers_setConnToken; try done.
  intros Hres. apply timers_restoreSession in Hres. by rewrite timers_setConnToken in Hres.
Qed.

Lemma timers_removeMembers (l : list (JSString * Session)) : ∀ st,
  timers (foldl (λ acc kv,
                match asTruthy (s_roomId kv.2) with
                | Some roomId => upd_storage (removeRoomMember roomId (s_peerId kv.2)) acc
                | None => acc
                end) st l) = timers st.
Proof.
  induction l as [|kv l IH]; intros st; [done|]. simpl. rewrite IH.
  by destruct (asTruthy _).
Qed.

Lemma armsOnlyHostless_apply e st : armsOnlyHostless r st (apply ttl e st).
Proof.
  destruct e as [ws ip|ws data now fresh|ws now|t now|now|now]; cbn [apply].
  - apply armsOnlyHostless_sub. unfold onConnection, trackConnection. by case_match.
  - unfold onMessage.
    repeat case_match;
      auto using armsOnlyHostless_onActive, armsOnlyHostless_onHandshake;
      apply armsOnlyHostless_sub; sends; done.
  - apply armsOnlyHostless_onClose.
  - apply armsOnlyHostless_onTimer.
  - by apply armsOnlyHostless_sub.
  - apply armsOnlyHostless_sub. unfold sweepSessions, cleanupExpiredSessions.
    by rewrite timers_removeMembers.
Qed.

End Arming.

Section Awaiting.

Variables (r : JSString) (t : nat) (due : Z).
Variables (rs : gmap JSString Room) (cts : gmap JSString nat)
  (tms : gmap nat (JSString * Z)) (next : nat).

Hypothesis Haw : awaitingF r t due rs cts tms.
Hypothesis Htr : timersTracked tms cts.
Hypothesis Hinj : timersInjective cts.
Hypothesis Hbd : timerIdsBounded cts next.

Lemma outcomeF_same : outcomeF r t due rs cts tms.
Proof. by left. Qed.

Lemma outcomeF_install_cancel r0 n p created :
  cts !! r0 = Some n →
  outcomeF r t due (<[r0 := mkRoom (Some p) created]> rs) (delete r0 cts) (delete n tms).
Proof.
  intros Hn. destruct Haw as ((room & Hroom & Hhost) & Hct & Htm).
  destruct (decide (r0 = r)) as [->|Hne].
  - right. simplify_map_eq. repeat split; eauto.
  - left. assert (n ≠ t) by (intros ->; apply Hne; eauto).
    repeat split; simplify_map_eq; eauto.
Qed.

Lemma outcomeF_install_plain r0 p created :
  cts !! r0 = None →
  outcomeF r t due (<[r0 := mkRoom (Some p) created]> rs) cts tms.
Proof.
  intros Hn. destruct Haw as ((room & Hroom & Hhost) & Hct & Htm).
  assert (r0 ≠ r) by congruence.
  left. repeat split; simplify_map_eq; eauto.
Qed.

Lemma outcomeF_vacate_rearm r0 room0 q n0 d :
  rs !! r0 = Some room0 → hostPeerId room0 = Some q → cts !! r0 = Some n0 →
  outcomeF r t due (<[r0 := mkRoom None None]> rs) (<[r0 := next]> cts)
    (<[next := (r0, d)]> (delete n0 tms)).
Proof.
  intros Hr0 Hq Hn0. destruct Haw as ((room & Hroom & Hhost) & Hct & Htm).
  assert (r0 ≠ r) by (intros ->; congruence).
  assert (n0 ≠ t) by (intros ->; eauto).
  assert (next ≠ t) by (pose proof (Hbd _ _ Hct); lia).
  left. repeat split; simplify_map_eq; eauto.
Qed.

Lemma outcomeF_vacate_arm r0 room0 q d :
  rs !! r0 = Some room0 → hostPeerId room0 = Some q →
  outcomeF r t due (<[r0 := mkRoom None None]> rs) (<[r0 := next]> cts)
    (<[next := (r0, d)]> tms).
Proof.
  intros Hr0 Hq. destruct Haw as ((room & Hroom & Hhost) & Hct & Htm).
  assert (r0 ≠ r) by (intros ->; congruence).
  assert (next ≠ t) by (pose proof (Hbd _ _ Hct); lia).
  left. repeat split; simplify_map_eq; eauto.
Qed.

Lemma outcomeF_vacate_only r0 room0 q :
  rs !! r0 = Some room0 → hostPeerId room0 = Some q →
  outcomeF r t due (<[r0 := mkRoom None None]> rs) cts tms.
Proof.
  intros Hr0 Hq. destruct Haw as ((room & Hroom & Hhost) & Hct & Htm).
  assert (r0 ≠ r) by (intros ->; congruence).
  left. repeat split; simplify_map_eq; eauto.
Qed.

(** Another timeout fires. *)
Lemma outcomeF_other_fired t0 r0 d0 :
  tms !! t0 = Some (r0, d0) → t0 ≠ t →
  outcomeF r t due rs cts (delete t0 tms)
  ∧ outcomeF r t due (delete r0 rs) (delete r0 cts) (delete t0 tms).
Proof.
  intros Ht0 Hne. destruct Haw as ((room & Hroom & Hhost) & Hct & Htm).
  assert (r0 ≠ r).
  { intros ->. pose proof (Htr _ _ _ Ht0). congruence. }
  split; left; repeat split; simplify_map_eq; eauto.
Qed.

End Awaiting.

Section AwaitingStep.

Variable ttl : Z.
Variables (r : JSString) (t : nat) (due : Z).

Ltac outcome_close :=
  unfold outcome; proj;
  repeat match goal with
    | H : bool_decide _ = true |- _ => apply bool_decide_eq_true in H
    end;
  eauto 4 using outcomeF_same, outcomeF_install_cancel, outcomeF_install_plain,
    outcomeF_vacate_rearm, outcomeF_vacate_arm, outcomeF_vacate_only.

Lemma outcome_onActive ws c peerId message ty now st :
  Inv st → awaiting r t due st → outcome r t due (onActive ws c peerId message ty now st).
Proof.
  intros [_ _ _ _ _ _ Htr Hbd Hinj] Haw.
  change (awaitingF r t due (rooms (storage st)) (cleanupTimers st) (timers st)) in Haw.
  unfold_handlers. repeat case_match; sends; sends_hyps; unfold getRoom in *; proj.
  all: outcome_close.
Qed.

Lemma rooms_wsClose w st : rooms (storage (wsClose w st)) = rooms (storage st).
Proof. by rewrite storage_wsClose. Qed.

Lemma cleanupTimers_wsClose w st : cleanupTimers (wsClose w st) = cleanupTimers st.
Proof. unfold wsClose. by repeat case_match. Qed.

Lemma cleanupTimers_setConnPeer w p st : cleanupTimers (setConnPeer w p st) = cleanupTimers st.
Proof. unfold setConnPeer. by repeat case_match. Qed.

Lemma cleanupTimers_setConnToken w k st :
  cleanupTimers (setConnToken w k st) = cleanupTimers st.
Proof. unfold setConnToken. by repeat case_match. Qed.

Lemma outcome_frame st st' :
  rooms (storage st') = rooms (storage st) → cleanupTimers st' = cleanupTimers st →
  timers st' = timers st → awaiting r t due st → outcome r t due st'.
Proof. intros E1 E2 E3 H. unfold outcome. rewrite E1, E2, E3. by left. Qed.

Lemma outcome_restoreSession ws ip tok v now st :
  Inv st → awaiting r t due st → outcome r t due (restoreSession ws ip tok v now st).
Proof.
  intros [_ _ _ _ _ _ Htr Hbd Hinj] Haw.
  change (awaitingF r t due (rooms (storage st)) (cleanupTimers st) (timers st)) in Haw.
  rewrite restoreSession_unfold. cbn zeta.
  match goal with
  | |- outcome r t due
         match _ with Some roomId => restoreRoom _ _ roomId ?pre | None => _ end =>
      assert (Hpre : rooms (storage pre) = rooms (storage st)
                     ∧ cleanupTimers pre = cleanupTimers st
                     ∧ timers pre = timers st);
      [| set (st1 := pre) in *; clearbody st1]
  end.
  { sends. proj.
    repeat case_match; rewrite ?storage_wsClose, ?cleanupTimers_wsClose, ?timers_wsClose;
      proj; by rewrite storage_setConnPeer, cleanupTimers_setConnPeer, timers_setConnPeer. }
  destruct Hpre as (E1 & E2 & E3). rewrite <- E1, <- E2, <- E3 in *.
  destruct (asTruthy (s_roomId v)); [|by left].
  unfold restoreRoom, cancelCleanup, clearTimeout.
  repeat case_match; sends; sends_hyps; unfold getRoom in *; proj.
  all: outcome_close.
Qed.

Lemma outcome_onHandshake ws c message ty now fresh st :
  Inv st → awaiting r t due st →
  outcome r t due (onHandshake ttl ws c message ty now fresh st).
Proof.
  intros HI Haw. unfold onHandshake.
  set (st0 := setConnToken ws (get_string (js "sessionToken") message) st).
  assert (E0 : rooms (storage st0) = rooms (storage st)
               ∧ cleanupTimers st0 = cleanupTimers st ∧ timers st0 = timers st).
  { subst st0. by rewrite storage_setConnToken, cleanupTimers_setConnToken,
                  timers_setConnToken. }
  destruct E0 as (E1 & E2 & E3).
  assert (Hnew : ∀ ip tok, outcome r t due (newSession ws ip tok fresh now st0)).
  { intros. apply (outcome_frame st); [| | |done]; unfold newSession; sends; proj.
    - by rewrite storage_setConnPeer.
    - by rewrite cleanupTimers_setConnPeer.
    - by rewrite timers_setConnPeer. }
  case_match; [apply (outcome_frame st); [by sends ..| done]|].
  case_match.
  { apply (outcome_frame st); [sends; by rewrite storage_wsClose
                              |sends; by rewrite cleanupTimers_wsClose
                              |sends; by rewrite timers_wsClose | done]. }
  case_match; [|by apply (outcome_frame st)].
  case_match; [|apply Hnew]. case_match; [|apply Hnew].
  assert (HI0 : Inv st0) by (by apply Inv_setConnToken).
  apply outcome_restoreSession; [done|].
  unfold awaiting. by rewrite E1, E2, E3.
Qed.

Lemma outcome_onClose ws now st :
  Inv st → awaiting r t due st → outcome r t due (onClose ws now st).
Proof.
  intros [_ _ _ _ _ _ Htr Hbd Hinj] Haw.
  change (awaitingF r t due (rooms (storage st)) (cleanupTimers st) (timers st)) in Haw.
  unfold onClose. unfold_handlers.
  repeat case_match; sends; sends_hyps; unfold getRoom in *; proj.
  all: outcome_close.
Qed.

Lemma rooms_cts_removeMembers (l : list (JSString * Session)) : ∀ st,
  cleanupTimers (foldl (λ acc kv,
                match asTruthy (s_roomId kv.2) with
                | Some roomId => upd_storage (removeRoomMember roomId (s_peerId kv.2)) acc
                | None => acc
                end) st l) = cleanupTimers st.
Proof.
  induction l as [|kv l IH]; intros st; [done|]. simpl. rewrite IH.
  by destruct (asTruthy _).
Qed.

(** A room that awaits its cleanup keeps awaiting it, with the same timeout
    and due time, until a host is installed (which cancels the timeout) or
    the timeout fires. *)
Lemma awaiting_step e st :
  Inv st → awaiting r t due st → enabled e st = true →
  outcome r t due (apply ttl e st) ∨ ∃ now, e = ETimer t now ∧ due ≤ now.
Proof.
  intros HI Haw He.
  destruct e as [ws ip|ws data now fresh|ws now|t0 now|now|now]; cbn [apply].
  - left. apply (outcome_frame st); [..|done]; unfold onConnection, trackConnection;
      by case_match.
  - left. unfold onMessage.
    repeat case_match; auto using outcome_onActive, outcome_onHandshake;
      apply (outcome_frame st); try done; by sends.
  - left. by apply outcome_onClose.
  - destruct (decide (t0 = t)) as [->|Hne].
    + right. exists now. split; [done|]. simpl in He. unfold isDue in He.
      destruct Haw as (_ & _ & Ht). rewrite Ht in He. by apply bool_decide_eq_true in He.
    + left. unfold onTimer. destruct (timers st !! t0) as [[r0 d0]|] eqn:Ht0; [|by left].
      destruct HI as [_ _ _ _ _ _ Htr Hbd Hinj].
      destruct (outcomeF_other_fired r t due _ _ _ Haw Htr t0 r0 d0 Ht0 Hne) as [O1 O2].
      unfold cleanupCallback, clearTimeout, getRoom.
      repeat case_match; sends; unfold outcome; proj; done.
  - left. by apply (outcome_frame st).
  - left. apply (outcome_frame st); [..|done]; unfold sweepSessions, cleanupExpiredSessions.
    + by rewrite rooms_removeMembers.
    + by rewrite rooms_cts_removeMembers.
    + by rewrite timers_removeMembers.
Qed.

End AwaitingStep.

Section Migration.

Variable ttl : Z.
Variable r : JSString.

Lemma noTimerFor_of_untracked st :
  Inv st → cleanupTimers st !! r = None → noTimerFor r st.
Proof.
  intros HI Hn t due Ht. pose proof (inv_timers _ HI _ _ _ Ht). congruence.
Qed.

(** The host of [r] loses its transport. *)
Lemma onClose_host_arms ws c h peer room now st :
  conns st !! ws = Some c →
  asTruthy (c_peerId c) = Some h →
  getPeer h (storage st) = Some peer →
  asTruthy (p_roomId peer) = Some r →
  rooms (storage st) !! r = Some room →
  hostPeerId room = Some h →
  awaiting r (nextTimer st) (now + ROOM_CLEANUP_DELAY) (onClose ws now st)
  ∧ quiet r st (onClose ws now st).
Proof.
  intros Hc Hp Hpeer Hroomid Hroom Hhost. split; [|apply quiet_onClose].
  unfold onClose. rewrite Hc, Hp. unfold getPeer in *. proj. rewrite Hpeer.
  assert (Hu : ∀ s, storage (untrackConnection (p_ip peer) ws s) = storage s
                    ∧ cleanupTimers (untrackConnection (p_ip peer) ws s) = cleanupTimers s
                    ∧ timers (untrackConnection (p_ip peer) ws s) = timers s
                    ∧ nextTimer (untrackConnection (p_ip peer) ws s) = nextTimer s).
  { intros s. unfold untrackConnection. by repeat case_match. }
  set (s0 := set_conns _ st).
  destruct (Hu s0) as (U1 & U2 & U3 & U4).
  set (s1 := untrackConnection (p_ip peer) ws s0) in *. clearbody s1.
  rewrite Hroomid. unfold getRoom. rewrite U1. subst s0. proj. rewrite Hroom.
  rewrite bool_decide_eq_true_2 by done.
  unfold hostGone, scheduleRoomCleanup, clearTimeout, getRoom, awaiting.
  rewrite notifyAll_eq. proj. rewrite lookup_insert_eq.
  destruct (cleanupTimers s1 !! r) as [n|] eqn:Hn; proj;
    rewrite ?lookup_insert_eq, ?U4; repeat split; eauto; by rewrite lookup_insert_eq.
Qed.

(** The timeout of a room that still awaits its cleanup fires. *)
Lemma onTimer_awaiting t due st :
  awaiting r t due st →
  let st' := onTimer t st in
  rooms (storage st') !! r = None
  ∧ roomMembers (storage st') !! r = None
  ∧ cleanupTimers st' !! r = None
  ∧ timers st' !! t = None
  ∧ outbox st'
    = outbox st
      ++ delivered (getRoomMembers r (storage st)) (MRoomClosed r "Host did not return") st.
Proof.
  intros ((room & Hroom & Hhost) & Hct & Htm). cbn zeta.
  unfold onTimer, cleanupCallback, clearTimeout, getRoom. rewrite Htm. proj.
  rewrite Hroom, Hhost. cbn [truthyStr negb]. rewrite notifyAll_eq. proj.
  by rewrite !lookup_delete_eq.
Qed.

(** The timeout fires for a room that has a host again, or no record any
    more: the timeout is gone and nothing else happens. *)
Lemma onTimer_recheck t due st :
  timers st !! t = Some (r, due) →
  (∀ room, rooms (storage st) !! r = Some room → truthyStr (hostPeerId room) = true) →
  onTimer t st = clearTimeout t st.
Proof.
  intros Htm Hhost. unfold onTimer, cleanupCallback, getRoom. rewrite Htm.
  unfold clearTimeout at 1 2. proj.
  destruct (rooms (storage st) !! r) as [room|] eqn:Hroom; [|done].
  by rewrite (Hhost room eq_refl).
Qed.

Lemma elem_of_delivered ms m st p w :
  p ∈ ms → wsConnections st !! p = Some w → isOpen w st = true →
  (w, m) ∈ delivered ms m st.
Proof.
  intros Hp Hw Ho. unfold delivered. apply list_elem_of_bind. exists p. split; [|done].
  unfold sentToPeer, sentTo. rewrite Hw, Ho. apply list_elem_of_here.
Qed.

(** Without a pending timeout for [r], no event closes [r]; and no
    timeout for [r] is pending afterwards unless the event left [r] without
    host. *)
Lemma noTimerFor_step e st :
  noTimerFor r st →
  quiet r st (apply ttl e st)
  ∧ (noTimerFor r (apply ttl e st) ∨ hostOf r (apply ttl e st) = None).
Proof.
  intros Hno. split.
  - destruct (quiet_unless_timer ttl r e st) as [H|(t & now & due & _ & Ht)]; [done|].
    by destruct (Hno t due).
  - destruct (hostOf r (apply ttl e st)) eqn:Hh; [left|by right].
    intros t due Ht.
    destruct (armsOnlyHostless_apply ttl r e st t due Ht) as [H|H]; [|congruence].
    by destruct (Hno t due).
Qed.

(** As long as [r] keeps a host, nothing is sent about its closing. *)
Lemma quiet_while_hosted es : ∀ st,
  noTimerFor r st → staysHosted ttl r es st →
  quiet r st (run ttl es st) ∧ noTimerFor r (run ttl es st).
Proof.
  induction es as [|e es IH]; intros st Hno Hh; [done|].
  destruct Hh as [Hh1 Hh2]. destruct (noTimerFor_step e st Hno) as [Hq [Hno'|Habs]]; [|done].
  destruct (IH _ Hno' Hh2) as [Hq' Hno'']. split; [|done].
  eapply quiet_trans; [exact Hq | exact Hq'].
Qed.

(** Unless a host is installed, a room that awaits its cleanup awaits it
    until its timeout fires, which happens at or after the due time. *)
Lemma awaiting_until_fired t due es : ∀ st,
  Inv st → awaiting r t due st → enabledAll ttl es st = true → staysHostless ttl r es st →
  awaiting r t due (run ttl es st)
  ∨ ∃ es1 now es2, es = es1 ++ ETimer t now :: es2 ∧ due ≤ now
                   ∧ awaiting r t due (run ttl es1 st).
Proof.
  induction es as [|e es IH]; intros st HI Haw He Hh; [by left|].
  simpl in He. apply andb_true_iff in He as [He1 He2]. destruct Hh as [Hh1 Hh2].
  destruct (awaiting_step ttl r t due e st HI Haw He1) as [[Ho|Ho]|(now & -> & Hdue)].
  - assert (HI' : Inv (apply ttl e st)).
    { eapply Inv_step; [exact HI|]. by constructor. }
    destruct (IH _ HI' Ho He2 Hh2) as [H|(es1 & now & es2 & -> & Hdue & H)]; [by left|].
    right. exists (e :: es1), now, es2. split; [done|]. split; [exact Hdue|exact H].
  - destruct Ho as ((p & Hp) & _). unfold hostOf in Hh1. congruence.
  - right. exists [], now, es. split; [done|]. split; [exact Hdue|exact Haw].
Qed.

(** A [claim-host] for a room that awaits its cleanup. *)
Lemma claim_while_awaiting ws c peerId message t due now fresh st :
  Inv st → awaiting r t due st →
  activeConn ws c peerId st →
  c_readyState c = OPEN →
  messageType message = Some (js "claim-host") →
  get_field (js "roomId") message = Some (JStr r) →
  isValidRoomId (Some (JStr r)) = true →
  (checkRateLimit peerId now st).1 = true →
  let st' := onMessage ttl ws (Parsed message) now fresh st in
  outbox st' = outbox st ++ [(ws, MClaimHostSuccess r)]
  ∧ hostOf r st' = Some peerId
  ∧ hostWsConnections st' !! r = Some ws
  ∧ cleanupTimers st' !! r = None
  ∧ timers st' !! t = None
  ∧ noTimerFor r st'.
Proof.
  intros HI ((room & Hroom & Hhost) & Hct & Htm) Hact Hopen Hty Hrid Hvalid Hok. cbn zeta.
  rewrite (onMessage_routed ttl ws c peerId _ _ now fresh st Hact) by done.
  rewrite classify_claim_host. cbn zeta.
  destruct Hact as [Hc Hp].
  destruct (admitted_frame c peerId now st) as (Er & Ep & Em & Ew & Eh & Ec & Et & Ect & En & Eo).
  set (st1 := admitted c peerId now st) in *. clearbody st1.
  assert (Hs : ∀ m s, conns s = conns st1 → sentTo ws m s = [(ws, m)]).
  { intros m s Hs. eapply sentTo_open; [|done]. by rewrite Hs, Ec. }
  unfold claimHost, getRoom, hasPeer.
  rewrite Hrid, Hvalid, (get_string_of_field _ _ _ Hrid). cbn [negb].
  rewrite Er, Hroom, Hhost.
  unfold installHost, cancelCleanup, clearTimeout, withToken, hostOf. rewrite Ect, Hct.
  assert (Hno : ∀ t' d', delete t (timers st) !! t' ≠ Some (r, d')).
  { intros t' d' Ht'. apply lookup_delete_Some in Ht' as [Hne Ht'].
    pose proof (inv_timers _ HI _ _ _ Ht'). congruence. }
  unfold noTimerFor.
  destruct (c_sessionToken c); sends; proj;
    rewrite ?Hs by done; rewrite ?Eo, ?Et, ?lookup_insert_eq, ?lookup_delete_eq;
    repeat split; done.
Qed.

End Migration.

Section Pending.

Variable ttl : Z.
Variable r : JSString.

Lemma armsOnlyVacated_sub st st' :
  (∀ t x, timers st' !! t = Some x → timers st !! t = Some x) → armsOnlyVacated r st st'.
Proof. intros H t due Ht. left. by apply H. Qed.

Ltac vacated_close :=
  unfold armsOnlyVacated; proj; intros t' due' Ht';
  repeat match goal with
    | H : <[_ := _]> _ !! _ = Some _ |- _ =>
        apply lookup_insert_Some in H; destruct H as [[<- [= <- <-]] | [? ?]]
    | H : delete _ _ !! _ = Some _ |- _ =>
        apply lookup_delete_Some in H; destruct H as [? ?]
    end;
  first [ by left | right; rewrite ?lookup_insert_eq; by eexists ].

Lemma armsOnlyVacated_onActive ws c peerId message ty now st :
  armsOnlyVacated r st (onActive ws c peerId message ty now st).
Proof.
  unfold_handlers. unfold getRoom. repeat case_match; sends; vacated_close.
Qed.

Lemma armsOnlyVacated_onClose ws now st : armsOnlyVacated r st (onClose ws now st).
Proof.
  unfold onClose. unfold_handlers. unfold getRoom. repeat case_match; sends; vacated_close.
Qed.

Lemma timers_onTimer_sub t st t' x :
  timers (onTimer t st) !! t' = Some x → timers st !! t' = Some x.
Proof.
  unfold onTimer, cleanupCallback, clearTimeout.
  repeat case_match; sends; proj; try done.
  all: intros Hdel; apply lookup_delete_Some in Hdel; by destruct Hdel.
Qed.

Lemma timers_onHandshake_sub ws c message ty now fresh st t x :
  timers (onHandshake ttl ws c message ty now fresh st) !! t = Some x → timers st !! t = Some x.
Proof.
  unfold onHandshake.
  assert (Hnew : ∀ ip tok s, timers (newSession ws ip tok fresh now s) = timers s).
  { intros. unfold newSession. sends. proj. by rewrite timers_setConnPeer. }
  repeat case_match; sends; proj; rewrite ?timers_wsClose, ?Hnew; proj;
    rewrite ?timers_setConnToken; try done.
  intros Hres. apply timers_restoreSession in Hres. by rewrite timers_setConnToken in Hres.
Qed.

Lemma armsOnlyVacated_apply e st : armsOnlyVacated r st (apply ttl e st).
Proof.
  destruct e as [ws ip|ws data now fresh|ws now|t now|now|now]; cbn [apply].
  - apply armsOnlyVacated_sub. unfold onConnection, trackConnection. by case_match.
  - unfold onMessage.
    repeat case_match; auto using armsOnlyVacated_onActive;
      apply armsOnlyVacated_sub; sends; try done.
    intros t x. apply timers_onHandshake_sub.
  - apply armsOnlyVacated_onClose.
  - apply armsOnlyVacated_sub. intros t' x. apply timers_onTimer_sub.
  - by apply armsOnlyVacated_sub.
  - apply armsOnlyVacated_sub. unfold sweepSessions, cleanupExpiredSessions.
    by rewrite timers_removeMembers.
Qed.

End Pending.

Lemma pendingAwaits_step ttl e st :
  Inv st → enabled e st = true → pendingAwaits st → pendingAwaits (apply ttl e st).
Proof.
  intros HI He HP t r due Ht.
  assert (HI' : Inv (apply ttl e st)).
  { eapply Inv_step; [exact HI|]. by constructor. }
  destruct (armsOnlyVacated_apply ttl r e st t due Ht) as [Hold|Hnew].
  - destruct (awaiting_step ttl r t due e st HI (HP _ _ _ Hold) He)
      as [[Ho|Ho]|(now & -> & Hdue)].
    + exact Ho.
    + destruct Ho as (_ & _ & Hn). congruence.
    + cbn [apply] in Ht.
      destruct (onTimer_awaiting r t due st (HP _ _ _ Hold)) as (_ & _ & _ & Hn & _).
      congruence.
  - split; [exact Hnew|]. split; [|exact Ht]. by apply (inv_timers _ HI' t r due).
Qed.

Lemma pendingAwaits_reachable ttl st : reachable ttl st → pendingAwaits st.
Proof.
  induction 1 as [|st e st' Hr IH Hs]; [by intros t r due H|].
  destruct Hs as [e st He]. apply pendingAwaits_step; eauto using Inv_reachable.
Qed.

Lemma joinedElsewhere_reachable : reachable Scenario.ttl joinedElsewhere.
Proof.
  apply (reachable_run Scenario.ttl joinedElsewhereEvents initial).
  - constructor.
  - vm_compute. reflexivity.
Qed.

Lemma unheardMember_reachable : reachable Scenario.ttl unheardMember.
Proof.
  apply (reachable_run Scenario.ttl unheardMemberEvents initial).
  - constructor.
  - vm_compute. reflexivity.
Qed.

(** In [joinedElsewhere] the host H of X has joined Y: when its socket
    closes, the handler looks at Y only, and no timeout is armed for X.  In
    [unheardMember] the member M of X is connected on socket 3 but has no
    entry in the registry: when the timeout of X fires, nothing is sent to
    it.  From [hostLost], M claims X with success; then G joins, M loses its
    transport, and the timeout armed for that closes X: a [room-closed]
    goes to G. *)
Lemma host_migration_counterexample :
  ¬ hostLossStartsGrace Scenario.ttl
  ∧ ¬ closingReachesMembers Scenario.ttl
  ∧ ¬ migrationSilencesRoom Scenario.ttl.
Proof.
  split; [|split].
  - intros H.
    pose proof (H 1%nat (mkConn Scenario.ipA (Some Scenario.idH) (Some Scenario.tokenH) OPEN)
                  Scenario.idH Scenario.roomX (mkRoom (Some Scenario.idH) (Some 1)) 100
                  joinedElsewhere joinedElsewhere_reachable) as H1.
    assert (A1 : conns joinedElsewhere !! 1%nat
                 = Some (mkConn Scenario.ipA (Some Scenario.idH) (Some Scenario.tokenH) OPEN))
      by (vm_compute; reflexivity).
    specialize (H1 A1). specialize (H1 eq_refl).
    assert (A2 : wsConnections joinedElsewhere !! Scenario.idH = Some 1%nat)
      by (vm_compute; reflexivity).
    specialize (H1 A2).
    assert (A3 : rooms (storage joinedElsewhere) !! Scenario.roomX
                 = Some (mkRoom (Some Scenario.idH) (Some 1))) by (vm_compute; reflexivity).
    specialize (H1 A3 eq_refl).
    destruct H1 as (t & _ & _ & Ht).
    assert (E : timers (onClose 1 100 joinedElsewhere) = ∅) by (vm_compute; reflexivity).
    rewrite E, lookup_empty in Ht. discriminate Ht.
  - intros H.
    assert (A1 : awaiting Scenario.roomX 0 30200 unheardMember).
    { split; [exists (mkRoom None None); split; vm_compute; reflexivity|].
      split; vm_compute; reflexivity. }
    assert (A2 : Scenario.idM ∈ getRoomMembers Scenario.roomX (storage unheardMember)).
    { vm_compute. apply list_elem_of_here. }
    assert (A3 : connOf 3 Scenario.idM unheardMember).
    { exists (mkConn Scenario.ipA (Some Scenario.idM) (Some Scenario.tokenM) OPEN).
      split; vm_compute; reflexivity. }
    assert (A4 : isOpen 3 unheardMember = true) by (vm_compute; reflexivity).
    pose proof (H Scenario.roomX 0%nat 30200 Scenario.idM 3%nat unheardMember
                  unheardMember_reachable A1 A2 A3 A4) as Hin.
    clear H.
    assert (E : closedNotices Scenario.roomX (onTimer 0 unheardMember) = [])
      by (vm_compute; reflexivity).
    assert (Hc : (3%nat, MRoomClosed Scenario.roomX "Host did not return")
                 ∈ closedNotices Scenario.roomX (onTimer 0 unheardMember)).
    { unfold closedNotices, closedIn. apply list_elem_of_filter. split; [|exact Hin].
      vm_compute. reflexivity. }
    rewrite E in Hc. exact (not_elem_of_nil _ Hc).
  - intros H.
    pose proof (H Scenario.roomX 0%nat 30010 2%nat
                  (mkConn Scenario.ipA (Some Scenario.idM) (Some Scenario.tokenM) OPEN)
                  Scenario.idM (Scenario.roomMsg "claim-host" Scenario.roomX) 20 Scenario.idX
                  secondLossEvents Scenario.hostLost hostLost_reachable) as H1.
    clear H.
    assert (A1 : awaiting Scenario.roomX 0 30010 Scenario.hostLost).
    { split; [exists (mkRoom None None); split; vm_compute; reflexivity|].
      split; vm_compute; reflexivity. }
    specialize (H1 A1). clear A1.
    assert (A2 : activeConn 2 (mkConn Scenario.ipA (Some Scenario.idM) (Some Scenario.tokenM) OPEN)
                   Scenario.idM Scenario.hostLost) by (split; vm_compute; reflexivity).
    specialize (H1 A2 eq_refl eq_refl eq_refl eq_refl). clear A2.
    assert (A3 : (checkRateLimit Scenario.idM 20 Scenario.hostLost).1 = true)
      by (vm_compute; reflexivity).
    specialize (H1 A3). clear A3.
    assert (A4 : enabledAll Scenario.ttl secondLossEvents
                   (onMessage Scenario.ttl 2
                      (Parsed (Scenario.roomMsg "claim-host" Scenario.roomX)) 20 Scenario.idX
                      Scenario.hostLost) = true) by (vm_compute; reflexivity).
    specialize (H1 A4). clear A4.
    assert (E1 : closedNotices Scenario.roomX
                   (run Scenario.ttl secondLossEvents
                      (onMessage Scenario.ttl 2
                         (Parsed (Scenario.roomMsg "claim-host" Scenario.roomX)) 20 Scenario.idX
                         Scenario.hostLost))
                 = [(3%nat, MRoomClosed Scenario.roomX "Host did not return")])
      by (vm_compute; reflexivity).
    rewrite E1 in H1. clear E1.
    assert (E2 : closedNotices Scenario.roomX
                   (onMessage Scenario.ttl 2
                      (Parsed (Scenario.roomMsg "claim-host" Scenario.roomX)) 20 Scenario.idX
                      Scenario.hostLost) = []) by (vm_compute; reflexivity).
    rewrite E2 in H1. discriminate H1.
Qed.

(** C3, as amended.  Host migration with grace period, for a room [r].
    In a reachable state [st]:
    - when the transport of the host of [r] closes, and the ledger has
      [r] as the current room of the closing identity and [r] records that
      identity as host, the room keeps its record without host and a
      cleanup timeout for [r] is armed, due [ROOM_CLEANUP_DELAY] later;
      nothing about closing [r] is sent;
    - while that timeout is pending, a valid [claim-host] for [r] succeeds:
      the claimant is told so and becomes the recorded host, the timeout is
      cancelled and none is pending for [r] afterwards;
    - with no timeout pending for [r], no run of events in which [r] keeps
      a host sends a [room-closed] for [r];
    - if nothing installs a host, the room awaits its cleanup until the
      timeout fires, which cannot happen before the due time;
    - when it fires then, the room record and its member list are deleted
      and [room-closed] goes to every member that has an open transport in
      the registry;
    - a pending timeout for [r] always finds [r] with a record and without
      host.
    In any state, a timeout for [r] that fires while [r] has a host (or no
    record) fails the re-check of the callback: the fired timeout is gone
    and nothing else happens. *)
Theorem host_migration_grace_period ttl r :
  (∀ st, reachable ttl st →
     (∀ ws c h peer room now,
        conns st !! ws = Some c →
        asTruthy (c_peerId c) = Some h →
        getPeer h (storage st) = Some peer →
        asTruthy (p_roomId peer) = Some r →
        rooms (storage st) !! r = Some room →
        hostPeerId room = Some h →
        awaiting r (nextTimer st) (now + ROOM_CLEANUP_DELAY) (onClose ws now st)
        ∧ quiet r st (onClose ws now st))
     ∧ (∀ t due ws c peerId message now fresh,
          awaiting r t due st →
          activeConn ws c peerId st →
          c_readyState c = OPEN →
          messageType message = Some (js "claim-host") →
          get_field (js "roomId") message = Some (JStr r) →
          isValidRoomId (Some (JStr r)) = true →
          (checkRateLimit peerId now st).1 = true →
          let st' := onMessage ttl ws (Parsed message) now fresh st in
          outbox st' = outbox st ++ [(ws, MClaimHostSuccess r)]
          ∧ hostOf r st' = Some peerId
          ∧ hostWsConnections st' !! r = Some ws
          ∧ cleanupTimers st' !! r = None
          ∧ timers st' !! t = None
          ∧ noTimerFor r st')
     ∧ (∀ es, noTimerFor r st → staysHosted ttl r es st →
              quiet r st (run ttl es st) ∧ noTimerFor r (run ttl es st))
     ∧ (∀ t due es,
          awaiting r t due st → enabledAll ttl es st = true → staysHostless ttl r es st →
          awaiting r t due (run ttl es st)
          ∨ ∃ es1 now es2, es = es1 ++ ETimer t now :: es2 ∧ due ≤ now
                           ∧ awaiting r t due (run ttl es1 st))
     ∧ (∀ t due,
          awaiting r t due st →
          let st' := onTimer t st in
          rooms (storage st') !! r = None
          ∧ roomMembers (storage st') !! r = None
          ∧ cleanupTimers st' !! r = None
          ∧ timers st' !! t = None
          ∧ outbox st'
            = outbox st
              ++ delivered (getRoomMembers r (storage st))
                   (MRoomClosed r "Host did not return") st
          ∧ ∀ p w, p ∈ getRoomMembers r (storage st) →
                   wsConnections st !! p = Some w → isOpen w st = true →
                   (w, MRoomClosed r "Host did not return") ∈ outbox st')
     ∧ (∀ t due, timers st !! t = Some (r, due) → awaiting r t due st))
  ∧ (∀ st t due,
       timers st !! t = Some (r, due) →
       (∀ room, rooms (storage st) !! r = Some room → truthyStr (hostPeerId room) = true) →
       onTimer t st = clearTimeout t st).
Proof.
  split; [|intros st t due; apply onTimer_recheck].
  intros st Hr. pose proof (Inv_reachable ttl st Hr) as HI.
  split; [|split; [|split; [|split; [|split]]]].
  - intros. by eapply onClose_host_arms.
  - intros. by eapply claim_while_awaiting.
  - intros es. apply quiet_while_hosted.
  - intros t due es. by apply awaiting_until_fired.
  - intros t due Haw. destruct (onTimer_awaiting r t due st Haw) as (A & B & C & D & E).
    cbn zeta. repeat (split; [done|]).
    intros p w Hp Hw Ho. rewrite E. apply elem_of_app. right.
    by eapply elem_of_delivered.
  - intros t due Ht. by apply (pendingAwaits_reachable ttl st Hr).
Qed.

Lemma lateTimer_hosted room :
  rooms (storage lateTimer) !! Scenario.roomX = Some room → truthyStr (hostPeerId room) = true.
Proof.
  assert (E : rooms (storage lateTimer) !! Scenario.roomX
              = Some (mkRoom (Some Scenario.idH) (Some 1))) by (vm_compute; reflexivity).
  rewrite E. intros [= <-]. reflexivity.
Qed.

Lemma host_migration_grace_period_witness :
  awaiting Scenario.roomX (nextTimer Scenario.hostAndMember) (10 + ROOM_CLEANUP_DELAY)
    (onClose 1 10 Scenario.hostAndMember)
  ∧ (hostOf Scenario.roomX
     (onMessage Scenario.ttl 2 (Parsed (Scenario.roomMsg "claim-host" Scenario.roomX)) 20
        Scenario.idX Scenario.hostLost) = Some Scenario.idM
   ∧ noTimerFor Scenario.roomX
       (onMessage Scenario.ttl 2 (Parsed (Scenario.roomMsg "claim-host" Scenario.roomX)) 20
          Scenario.idX Scenario.hostLost))
  ∧ (rooms (storage (onTimer 0 Scenario.hostLost)) !! Scenario.roomX = None
     ∧ (2%nat, MRoomClosed Scenario.roomX "Host did not return")
       ∈ outbox (onTimer 0 Scenario.hostLost))
  ∧ awaiting Scenario.roomX 0 30010 Scenario.hostLost
  ∧ onTimer 7 lateTimer = clearTimeout 7 lateTimer.
Proof.
  set (cM := mkConn Scenario.ipA (Some Scenario.idM) (Some Scenario.tokenM) OPEN).
  destruct (host_migration_grace_period Scenario.ttl Scenario.roomX) as [Hreach Hrecheck].
  destruct (Hreach Scenario.hostLost hostLost_reachable)
    as (_ & Hclaim & _ & _ & Hfire & Hpending).
  assert (Haw : awaiting Scenario.roomX 0 30010 Scenario.hostLost).
  { apply Hpending. vm_compute. reflexivity. }
  split.
  { set (cH := mkConn Scenario.ipA (Some Scenario.idH) (Some Scenario.tokenH) OPEN).
    set (pH := mkPeer (Some Scenario.roomX) (Some Scenario.ipA) (Some Scenario.tokenH)).
    destruct (Hreach Scenario.hostAndMember hostAndMember_reachable) as (Hclose & _).
    destruct (Hclose 1%nat cH Scenario.idH pH (mkRoom (Some Scenario.idH) (Some 1)) 10)
      as (A & _); [vm_compute; reflexivity ..|].
    exact A. }
  split.
  { destruct (Hclaim 0%nat 30010 2%nat cM Scenario.idM
                (Scenario.roomMsg "claim-host" Scenario.roomX) 20 Scenario.idX Haw)
      as (_ & A & _ & _ & _ & B);
      [split; vm_compute; reflexivity | vm_compute; reflexivity .. |].
    exact (conj A B). }
  split.
  { destruct (Hfire 0%nat 30010 Haw) as (A & _ & _ & _ & _ & B).
    split; [exact A|].
    apply (B Scenario.idM 2%nat); vm_compute; [|reflexivity..].
    apply list_elem_of_In. simpl. tauto. }
  split; [exact Haw|].
  apply (Hrecheck lateTimer 7%nat 0).
  - vm_compute. reflexivity.
  - exact lateTimer_hosted.
Defined.

Section Frames.

Variable ttl : Z.

Lemma connStep_refl c : connStep c c.
Proof. by repeat split. Qed.

Lemma connStep_trans c1 c2 c3 : connStep c1 c2 → connStep c2 c3 → connStep c1 c3.
Proof.
  intros (A1 & A2 & A3) (B1 & B2 & B3). split; [congruence|]. split; [|by rewrite B3].
  intros H. destruct (A2 H) as [E1 E2]. rewrite <- E1 in H.
  destruct (B2 H) as [F1 F2]. split; congruence.
Qed.

Lemma connsKept_refl st : connsKept st st.
Proof. intros ws c H. eauto using connStep_refl. Qed.

Lemma connsKept_eq st st' : conns st' = conns st → connsKept st st'.
Proof. intros E ws c H. rewrite E. eauto using connStep_refl. Qed.

Lemma connsKept_trans st1 st2 st3 : connsKept st1 st2 → connsKept st2 st3 → connsKept st1 st3.
Proof.
  intros A B ws c H. destruct (A _ _ H) as (c2 & H2 & S2).
  destruct (B _ _ H2) as (c3 & H3 & S3). eauto using connStep_trans.
Qed.

Lemma connsKept_wsClose w st : connsKept st (wsClose w st).
Proof.
  intros ws c H. unfold wsClose.
  destruct (conns st !! w) as [cw|] eqn:Hw; [|eauto using connStep_refl].
  destruct (c_readyState cw) eqn:Hr; eauto using connStep_refl.
  proj. destruct (decide (ws = w)) as [->|Hne].
  - rewrite lookup_insert_eq. eexists. split; [done|].
    assert (cw = c) as -> by congruence. repeat split; try done; cbn; congruence.
  - rewrite lookup_insert_ne by done. eauto using connStep_refl.
Qed.

Lemma connsKept_setConnPeer w p c st :
  conns st !! w = Some c → asTruthy (c_peerId c) = None → connsKept st (setConnPeer w p st).
Proof.
  intros Hw Hp ws c0 H. unfold setConnPeer. rewrite Hw. proj.
  destruct (decide (ws = w)) as [->|Hne].
  - rewrite lookup_insert_eq. eexists. split; [done|].
    assert (c0 = c) as -> by congruence. split; [done|]. split; [by intros []|done].
  - rewrite lookup_insert_ne by done. eauto using connStep_refl.
Qed.

Lemma connsKept_setConnToken w t c st :
  conns st !! w = Some c → asTruthy (c_peerId c) = None → connsKept st (setConnToken w t st).
Proof.
  intros Hw Hp ws c0 H. unfold setConnToken. rewrite Hw. proj.
  destruct (decide (ws = w)) as [->|Hne].
  - rewrite lookup_insert_eq. eexists. split; [done|].
    assert (c0 = c) as -> by congruence. split; [done|]. split; [by intros []|done].
  - rewrite lookup_insert_ne by done. eauto using connStep_refl.
Qed.

Lemma conns_onActive ws c peerId message ty now st :
  conns (onActive ws c peerId message ty now st) = conns st.
Proof. unfold_handlers. repeat case_match; sends; proj; done. Qed.

Lemma wsConnections_onActive ws c peerId message ty now st :
  wsConnections (onActive ws c peerId message ty now st) = wsConnections st.
Proof. unfold_handlers. repeat case_match; sends; proj; done. Qed.

Lemma connectionsByIp_onActive ws c peerId message ty now st :
  connectionsByIp (onActive ws c peerId message ty now st) = connectionsByIp st.
Proof. unfold_handlers. repeat case_match; sends; proj; done. Qed.

Lemma conns_restoreRoom ws p r st : conns (restoreRoom ws p r st) = conns st.
Proof. unfold restoreRoom, cancelCleanup, clearTimeout. repeat case_match; sends; proj; done. Qed.

Lemma wsConnections_restoreRoom ws p r st :
  wsConnections (restoreRoom ws p r st) = wsConnections st.
Proof. unfold restoreRoom, cancelCleanup, clearTimeout. repeat case_match; sends; proj; done. Qed.

Lemma connectionsByIp_restoreRoom ws p r st :
  connectionsByIp (restoreRoom ws p r st) = connectionsByIp st.
Proof. unfold restoreRoom, cancelCleanup, clearTimeout. repeat case_match; sends; proj; done. Qed.

Lemma messageRates_restoreRoom ws p r st :
  messageRates (restoreRoom ws p r st) = messageRates st.
Proof. unfold restoreRoom, cancelCleanup, clearTimeout. repeat case_match; sends; proj; done. Qed.

Lemma wsConnections_wsClose w st : wsConnections (wsClose w st) = wsConnections st.
Proof. unfold wsClose. by repeat case_match. Qed.

Lemma wsConnections_setConnPeer w p st : wsConnections (setConnPeer w p st) = wsConnections st.
Proof. unfold setConnPeer. by repeat case_match. Qed.

Lemma wsConnections_setConnToken w t st : wsConnections (setConnToken w t st) = wsConnections st.
Proof. unfold setConnToken. by repeat case_match. Qed.

Lemma connectionsByIp_wsClose w st : connectionsByIp (wsClose w st) = connectionsByIp st.
Proof. unfold wsClose. by repeat case_match. Qed.

Lemma connectionsByIp_setConnPeer w p st :
  connectionsByIp (setConnPeer w p st) = connectionsByIp st.
Proof. unfold setConnPeer. by repeat case_match. Qed.

Lemma connectionsByIp_setConnToken w t st :
  connectionsByIp (setConnToken w t st) = connectionsByIp st.
Proof. unfold setConnToken. by repeat case_match. Qed.

Lemma messageRates_wsClose w st : messageRates (wsClose w st) = messageRates st.
Proof. unfold wsClose. by repeat case_match. Qed.

Lemma messageRates_setConnPeer w p st : messageRates (setConnPeer w p st) = messageRates st.
Proof. unfold setConnPeer. by repeat case_match. Qed.

Lemma messageRates_setConnToken w t st : messageRates (setConnToken w t st) = messageRates st.
Proof. unfold setConnToken. by repeat case_match. Qed.

Lemma conns_wsClose_storage w f st :
  conns (wsClose w (upd_storage f st)) = conns (wsClose w st).
Proof. unfold wsClose. proj. by repeat case_match. Qed.

(** The part of a session restore before the room is looked at. *)
Lemma restoreSession_fields ws ip tok v now st :
  let st' := restoreSession ws ip tok v now st in
  let closed :=
    match wsConnections st !! s_peerId v with
    | Some oldWs => if bool_decide (oldWs ≠ ws) then wsClose oldWs (setConnPeer ws (s_peerId v) st)
                    else setConnPeer ws (s_peerId v) st
    | None => setConnPeer ws (s_peerId v) st
    end in
  conns st' = conns closed
  ∧ wsConnections st' = <[s_peerId v := ws]> (wsConnections st)
  ∧ connectionsByIp st' = connectionsByIp st
  ∧ messageRates st' = messageRates st.
Proof.
  cbn zeta. rewrite restoreSession_unfold. cbn zeta.
  rewrite wsConnections_setConnPeer.
  assert (H : ∀ pre,
    conns (match asTruthy (s_roomId v) with
           | Some roomId => restoreRoom ws (s_peerId v) roomId pre | None => pre end) = conns pre
    ∧ wsConnections (match asTruthy (s_roomId v) with
           | Some roomId => restoreRoom ws (s_peerId v) roomId pre | None => pre end)
      = wsConnections pre
    ∧ connectionsByIp (match asTruthy (s_roomId v) with
           | Some roomId => restoreRoom ws (s_peerId v) roomId pre | None => pre end)
      = connectionsByIp pre
    ∧ messageRates (match asTruthy (s_roomId v) with
           | Some roomId => restoreRoom ws (s_peerId v) roomId pre | None => pre end)
      = messageRates pre).
  { intros pre. destruct (asTruthy (s_roomId v)); [|done].
    by rewrite conns_restoreRoom, wsConnections_restoreRoom, connectionsByIp_restoreRoom,
      messageRates_restoreRoom. }
  match goal with |- conns ?X = _ ∧ _ => idtac end.
  match goal with
  | |- conns (match _ with Some r => restoreRoom _ _ r ?pre | None => _ end) = _ ∧ _ =>
      destruct (H pre) as (-> & -> & -> & ->)
  end.
  sends. proj.
  destruct (wsConnections st !! s_peerId v) as [oldWs|]; [case_bool_decide|];
    proj; rewrite ?connectionsByIp_wsClose, ?messageRates_wsClose, ?wsConnections_wsClose,
            ?conns_wsClose_storage; proj;
    rewrite ?connectionsByIp_setConnPeer, ?messageRates_setConnPeer,
            ?wsConnections_setConnPeer; done.
Qed.

Lemma newSession_fields ws ip tok fresh now st :
  let st' := newSession ws ip tok fresh now st in
  conns st' = conns (setConnPeer ws fresh st)
  ∧ wsConnections st' = <[fresh := ws]> (wsConnections st)
  ∧ connectionsByIp st' = connectionsByIp st
  ∧ messageRates st' = messageRates st.
Proof.
  cbn zeta. unfold newSession. sends. proj.
  by rewrite wsConnections_setConnPeer, connectionsByIp_setConnPeer, messageRates_setConnPeer.
Qed.

(** The first message of a connection touches neither the connection
    counts nor the rate counters, registers at most the connection itself,
    and keeps the closure variables of every other connection. *)
Lemma onHandshake_fields ws c message ty now fresh st :
  conns st !! ws = Some c → asTruthy (c_peerId c) = None →
  let st' := onHandshake ttl ws c message ty now fresh st in
  connsKept st st'
  ∧ (wsConnections st' = wsConnections st
     ∨ ∃ p, wsConnections st' = <[p := ws]> (wsConnections st))
  ∧ connectionsByIp st' = connectionsByIp st
  ∧ messageRates st' = messageRates st.
Proof.
  intros Hc Hp. cbn zeta. unfold onHandshake.
  case_bool_decide; [sends; proj; split; [by apply connsKept_eq|]; auto|].
  set (st0 := setConnToken ws (get_string (js "sessionToken") message) st).
  assert (K0 : connsKept st st0) by (by eapply connsKept_setConnToken).
  assert (Hc0 : ∃ c0, conns st0 !! ws = Some c0 ∧ asTruthy (c_peerId c0) = None).
  { subst st0. unfold setConnToken. rewrite Hc. proj. rewrite lookup_insert_eq. eauto. }
  destruct Hc0 as (c0 & Hc0 & Hp0).
  assert (E0 : wsConnections st0 = wsConnections st
               ∧ connectionsByIp st0 = connectionsByIp st
               ∧ messageRates st0 = messageRates st).
  { subst st0. by rewrite wsConnections_setConnToken, connectionsByIp_setConnToken,
      messageRates_setConnToken. }
  destruct E0 as (Ew & Ei & Em). clearbody st0.
  destruct (negb _).
  { sends. rewrite wsConnections_wsClose, connectionsByIp_wsClose, messageRates_wsClose. proj.
    split; [|by auto].
    eapply connsKept_trans; [exact K0|].
    eapply connsKept_trans; [|apply connsKept_wsClose]. by apply connsKept_eq. }
  destruct (get_string _ _) as [tok|]; [|split; [done|by auto]].
  assert (Hnew : let st' := newSession ws (c_ip c) tok fresh now st0 in
    connsKept st st'
    ∧ (wsConnections st' = wsConnections st
       ∨ ∃ p, wsConnections st' = <[p := ws]> (wsConnections st))
    ∧ connectionsByIp st' = connectionsByIp st
    ∧ messageRates st' = messageRates st).
  { cbn zeta. destruct (newSession_fields ws (c_ip c) tok fresh now st0) as (A & B & C & D).
    rewrite B, C, D, Ew, Ei, Em. split; [|by eauto].
    eapply connsKept_trans; [exact K0|].
    eapply connsKept_trans; [by eapply connsKept_setConnPeer|]. by apply connsKept_eq. }
  destruct (getSession tok (storage st0)) as [v|]; [|exact Hnew].
  destruct (_ <? _); [|exact Hnew].
  destruct (restoreSession_fields ws (c_ip c) tok v now st0) as (A & B & C & D).
  rewrite B, C, D, Ew, Ei, Em. split; [|by eauto].
  eapply connsKept_trans; [exact K0|].
  eapply connsKept_trans; [by eapply (connsKept_setConnPeer ws (s_peerId v))|].
  eapply connsKept_trans; [|apply connsKept_eq; exact A].
  destruct (wsConnections st0 !! s_peerId v) as [oldWs|]; [case_bool_decide|];
    auto using connsKept_wsClose, connsKept_refl.
Qed.

End Frames.

Section EventFrames.

Variable ttl : Z.

Lemma onClose_fields ws now c st :
  conns st !! ws = Some c →
  let st' := onClose ws now st in
  conns st' = <[ws := mkConn (c_ip c) (c_peerId c) (c_sessionToken c) CLOSED]> (conns st)
  ∧ wsConnections st'
    = match asTruthy (c_peerId c) with
      | Some p => delete p (wsConnections st)
      | None => wsConnections st
      end
  ∧ (connectionsByIp st' = connectionsByIp st
     ∨ ∃ ip, connectionsByIp st' = connectionsByIp (untrackConnection ip ws st)).
Proof.
  intros Hc. cbn zeta. unfold onClose. rewrite Hc.
  unfold hostGone, scheduleRoomCleanup, clearTimeout, untrackConnection.
  repeat case_match; sends; proj; repeat split; try done.
  all: try (by left).
  all: right.
  all: try (eexists (Some _); by simplify_option_eq).
Qed.

Lemma onMessage_fields ws data now fresh st :
  let st' := onMessage ttl ws data now fresh st in
  connsKept st st'
  ∧ (wsConnections st' = wsConnections st
     ∨ ∃ p, wsConnections st' = <[p := ws]> (wsConnections st))
  ∧ connectionsByIp st' = connectionsByIp st.
Proof.
  cbn zeta. unfold onMessage.
  destruct (conns st !! ws) as [c|] eqn:Hc; [|split; [apply connsKept_refl|by auto]].
  destruct data as [|message]; [sends; split; [by apply connsKept_eq|by auto]|].
  destruct (messageType message) as [ty|]; [|sends; split; [by apply connsKept_eq|by auto]].
  destruct (asTruthy (c_peerId c)) as [p|] eqn:Hp.
  - rewrite wsConnections_onActive, connectionsByIp_onActive.
    split; [apply connsKept_eq, conns_onActive|by auto].
  - destruct (onHandshake_fields ttl ws c message ty now fresh st Hc Hp) as (A & B & C & _).
    done.
Qed.

Lemma onTimer_fields t st :
  conns (onTimer t st) = conns st
  ∧ wsConnections (onTimer t st) = wsConnections st
  ∧ connectionsByIp (onTimer t st) = connectionsByIp st
  ∧ messageRates (onTimer t st) = messageRates st.
Proof. unfold onTimer, cleanupCallback, clearTimeout. repeat case_match; sends; proj; done. Qed.

Lemma removeMembers_fields (l : list (JSString * Session)) : ∀ st,
  let st' := foldl (λ acc kv,
                match asTruthy (s_roomId kv.2) with
                | Some roomId => upd_storage (removeRoomMember roomId (s_peerId kv.2)) acc
                | None => acc
                end) st l in
  conns st' = conns st
  ∧ wsConnections st' = wsConnections st
  ∧ connectionsByIp st' = connectionsByIp st
  ∧ messageRates st' = messageRates st.
Proof.
  induction l as [|kv l IH]; intros st; [done|]. cbn zeta. simpl.
  destruct (IH (match asTruthy (s_roomId kv.2) with
                | Some roomId => upd_storage (removeRoomMember roomId (s_peerId kv.2)) st
                | None => st
                end)) as (-> & -> & -> & ->).
  by destruct (asTruthy _).
Qed.

Lemma sweepSessions_fields now st :
  conns (sweepSessions ttl now st) = conns st
  ∧ wsConnections (sweepSessions ttl now st) = wsConnections st
  ∧ connectionsByIp (sweepSessions ttl now st) = connectionsByIp st
  ∧ messageRates (sweepSessions ttl now st) = messageRates st.
Proof.
  unfold sweepSessions, cleanupExpiredSessions.
  match goal with
  | |- conns (foldl _ ?s ?l) = _ ∧ _ => destruct (removeMembers_fields l s) as (-> & -> & -> & ->)
  end.
  done.
Qed.

(** What any event does to a connection that exists. *)
Lemma apply_conns e st ws c :
  enabled e st = true →
  conns st !! ws = Some c →
  ∃ c', conns (apply ttl e st) !! ws = Some c'
        ∧ c_ip c' = c_ip c
        ∧ (asTruthy (c_peerId c) ≠ None →
           c_peerId c' = c_peerId c ∧ c_sessionToken c' = c_sessionToken c)
        ∧ (c_readyState c' = CLOSED → c_readyState c = CLOSED ∨ ∃ now, e = EClose ws now).
Proof.
  intros He Hc.
  assert (Hkept : ∀ st', connsKept st st' →
    ∃ c', conns st' !! ws = Some c'
          ∧ c_ip c' = c_ip c
          ∧ (asTruthy (c_peerId c) ≠ None →
             c_peerId c' = c_peerId c ∧ c_sessionToken c' = c_sessionToken c)
          ∧ (c_readyState c' = CLOSED → c_readyState c = CLOSED ∨ ∃ now, e = EClose ws now)).
  { intros st' K. destruct (K _ _ Hc) as (c' & Hc' & A & B & C). exists c'.
    repeat split; try done; try (by apply B). intros X. left. by apply C. }
  destruct e as [w ip|w data now fresh|w now|t now|now|now]; cbn [apply enabled] in *.
  - apply bool_decide_eq_true in He. apply Hkept. unfold onConnection, trackConnection.
    case_match; [by apply connsKept_eq|].
    intros ws' c' H'. proj. rewrite lookup_insert_ne by congruence. eauto using connStep_refl.
  - apply Hkept. by destruct (onMessage_fields w data now fresh st) as (K & _).
  - unfold alive in He. destruct (conns st !! w) as [cw|] eqn:Hw; [|done].
    destruct (onClose_fields w now cw st Hw) as (-> & _).
    destruct (decide (ws = w)) as [->|Hne].
    + rewrite lookup_insert_eq. eexists. split; [done|].
      assert (cw = c) as -> by congruence. repeat split; eauto.
    + rewrite lookup_insert_ne by done. exists c. repeat split; auto.
  - apply Hkept, connsKept_eq. by destruct (onTimer_fields t st) as (-> & _).
  - by apply Hkept, connsKept_eq.
  - apply Hkept, connsKept_eq. by destruct (sweepSessions_fields now st) as (-> & _).
Qed.

End EventFrames.

(** X1.  Once a connection has completed its handshake, no run of events
    changes the identity, the session token or the address it closes over:
    a later [hello] or any other message cannot switch a connection to
    another identity. *)
Theorem connection_identity_fixed ttl es : ∀ st ws c p,
  conns st !! ws = Some c →
  asTruthy (c_peerId c) = Some p →
  enabledAll ttl es st = true →
  ∃ c', conns (run ttl es st) !! ws = Some c'
        ∧ c_peerId c' = c_peerId c
        ∧ c_sessionToken c' = c_sessionToken c
        ∧ c_ip c' = c_ip c.
Proof.
  induction es as [|e es IH]; intros st ws c p Hc Hp He; [by exists c|].
  simpl in He. apply andb_true_iff in He as [He1 He2].
  destruct (apply_conns ttl e st ws c He1 Hc) as (c1 & Hc1 & Hip & Hid & _).
  destruct Hid as [Hid Htok]; [congruence|].
  destruct (IH (apply ttl e st) ws c1 p Hc1) as (c' & Hc' & A & B & C);
    [congruence|done|].
  exists c'. split; [exact Hc'|]. repeat split; congruence.
Qed.

Lemma connection_identity_fixed_witness :
  ∃ c', conns (run Scenario.ttl
                 [EMessage 1 (Scenario.hello Scenario.tokenM) 5 Scenario.idX;
                  EClose 1 10]
                 Scenario.oneActive) !! 1%nat = Some c'
        ∧ c_peerId c' = Some Scenario.idH
        ∧ c_sessionToken c' = Some Scenario.tokenH
        ∧ c_ip c' = Scenario.ipA.
Proof.
  apply (connection_identity_fixed Scenario.ttl
           [EMessage 1 (Scenario.hello Scenario.tokenM) 5 Scenario.idX; EClose 1 10]
           Scenario.oneActive 1%nat
           (mkConn Scenario.ipA (Some Scenario.idH) (Some Scenario.tokenH) OPEN) Scenario.idH);
    vm_compute; reflexivity.
Defined.

Section ConnectionCap.

Variable ttl : Z.

Lemma connsDom_refl st : connsDom st st.
Proof. by intros ws. Qed.

Lemma connsDom_eq st st' : conns st' = conns st → connsDom st st'.
Proof. intros E ws. by rewrite E. Qed.

Lemma connsDom_trans st1 st2 st3 : connsDom st1 st2 → connsDom st2 st3 → connsDom st1 st3.
Proof. intros A B ws H. auto. Qed.

Lemma connsDom_wsClose w st : connsDom st (wsClose w st).
Proof.
  intros ws H. unfold wsClose. repeat case_match; proj; try done.
  rewrite lookup_insert_ne; [done|congruence].
Qed.

Lemma connsDom_setConnPeer w p st : connsDom st (setConnPeer w p st).
Proof.
  intros ws H. unfold setConnPeer. repeat case_match; proj; try done.
  rewrite lookup_insert_ne; [done|congruence].
Qed.

Lemma connsDom_setConnToken w t st : connsDom st (setConnToken w t st).
Proof.
  intros ws H. unfold setConnToken. repeat case_match; proj; try done.
  rewrite lookup_insert_ne; [done|congruence].
Qed.

Lemma connsDom_onHandshake ws c message ty now fresh st :
  connsDom st (onHandshake ttl ws c message ty now fresh st).
Proof.
  unfold onHandshake.
  case_bool_decide; [sends; by apply connsDom_eq|].
  eapply connsDom_trans; [apply (connsDom_setConnToken ws (get_string (js "sessionToken") message))|].
  set (st0 := setConnToken _ _ st). clearbody st0.
  destruct (negb _).
  { sends. eapply connsDom_trans; [|apply connsDom_wsClose]. by apply connsDom_eq. }
  destruct (get_string _ _) as [tok|]; [|apply connsDom_refl].
  assert (Hnew : connsDom st0 (newSession ws (c_ip c) tok fresh now st0)).
  { destruct (newSession_fields ws (c_ip c) tok fresh now st0) as (A & _).
    eapply connsDom_trans; [apply (connsDom_setConnPeer ws fresh)|]. by apply connsDom_eq. }
  destruct (getSession tok (storage st0)) as [v|]; [|exact Hnew].
  destruct (_ <? _); [|exact Hnew].
  destruct (restoreSession_fields ws (c_ip c) tok v now st0) as (A & _).
  eapply connsDom_trans; [|apply connsDom_eq; exact A].
  eapply connsDom_trans; [apply (connsDom_setConnPeer ws (s_peerId v))|].
  destruct (wsConnections st0 !! s_peerId v) as [oldWs|]; [case_bool_decide|];
    auto using connsDom_wsClose, connsDom_refl.
Qed.

Lemma connsDom_onMessage ws data now fresh st :
  connsDom st (onMessage ttl ws data now fresh st).
Proof.
  unfold onMessage. repeat case_match; sends;
    auto using connsDom_refl, connsDom_onHandshake.
  all: apply connsDom_eq; try done. apply conns_onActive.
Qed.

Lemma untrack_lookup ip w st ip' (S' : gset nat) :
  connectionsByIp (untrackConnection ip w st) !! ip' = Some S' →
  ∃ S, connectionsByIp st !! ip' = Some S ∧ S' ⊆ S ∧ (S = S' ∨ S' ≠ ∅).
Proof.
  unfold untrackConnection. destruct ip as [i|]; [|by eauto].
  destruct (connectionsByIp st !! i) as [S0|] eqn:H0; [|by eauto].
  case_bool_decide as Hsz; proj.
  - intros H. apply lookup_delete_Some in H as [Hne H1]. eauto.
  - intros H. apply lookup_insert_Some in H as [[<- <-]|[Hne H1]]; [|by eauto].
    exists S0. split; [done|]. split; [by apply subseteq_difference_l|]. right.
    intros E. apply Hsz. rewrite E. apply size_empty.
Qed.

Lemma untrack_keeps ip w st ip' (S : gset nat) w' :
  connectionsByIp st !! ip' = Some S → w' ∈ S → w' ≠ w →
  ∃ S', connectionsByIp (untrackConnection ip w st) !! ip' = Some S' ∧ w' ∈ S'.
Proof.
  intros H Hin Hne. unfold untrackConnection. destruct ip as [i|]; [|by eauto].
  destruct (connectionsByIp st !! i) as [S0|] eqn:H0; [|by eauto].
  destruct (decide (i = ip')) as [->|Hi].
  - assert (S0 = S) as -> by congruence.
    rewrite bool_decide_eq_false_2.
    + proj. rewrite lookup_insert_eq. eexists. split; [done|]. set_solver.
    + intros Hsz. apply size_empty_inv in Hsz. set_solver.
  - case_bool_decide; proj.
    + rewrite lookup_delete_ne by done. eauto.
    + rewrite lookup_insert_ne by done. eauto.
Qed.

Lemma ipInv_frame st st' :
  connectionsByIp st' = connectionsByIp st → connsKept st st' → connsDom st st' →
  ipTracked st ∧ aliveTracked st → ipTracked st' ∧ aliveTracked st'.
Proof.
  intros E K D [HT HA]. split.
  - intros ip S HS. rewrite E in HS. destruct (HT ip S HS) as (A & B & C).
    repeat split; [done..|]. intros ws Hws. destruct (C ws Hws) as (c & Hc & Hip).
    destruct (K ws c Hc) as (c' & Hc' & Hip' & _). exists c'. split; [done|congruence].
  - intros ws c' Hc' Hr. rewrite E.
    destruct (conns st !! ws) as [c|] eqn:Hc; [|by rewrite (D ws Hc) in Hc'].
    destruct (K ws c Hc) as (c2 & Hc2 & Hip & _ & Hcl).
    assert (c2 = c') as -> by congruence. rewrite Hip. apply (HA ws c Hc).
    intros X. by apply Hcl in X.
Qed.

Lemma ipInv_step e st :
  enabled e st = true →
  ipTracked st ∧ aliveTracked st →
  ipTracked (apply ttl e st) ∧ aliveTracked (apply ttl e st).
Proof.
  intros He [HT HA].
  destruct e as [w ip|w data now fresh|w now|t now|now|now]; cbn [apply enabled] in *.
  - apply bool_decide_eq_true in He. unfold onConnection.
    destruct (checkConnectionLimit ip st) eqn:Hlim; cbn [negb]; [|done].
    unfold trackConnection. split.
    + intros ip' S'. proj. intros HS.
      apply lookup_insert_Some in HS as [[<- <-]|[Hne HS1]].
      * split.
        { intros E. apply (not_elem_of_empty (C:=gset nat) w). rewrite <- E.
          apply elem_of_union_l, elem_of_singleton. done. }
        split.
        { unfold checkConnectionLimit in Hlim.
          destruct (connectionsByIp st !! ip) as [S0|] eqn:H0; cbn [default].
          - apply bool_decide_eq_true in Hlim.
            pose proof (size_union_alt {[w]} S0) as Hu.
            assert (S0 ∖ {[w]} ⊆ S0) as Hsub by (by apply subseteq_difference_l).
            pose proof (subseteq_size _ _ Hsub) as Hs.
            rewrite size_singleton in Hu. unfold id. lia.
          - rewrite union_empty_r_L, size_singleton. unfold maxConnectionsPerIp. lia. }
        intros ws Hws. apply elem_of_union in Hws as [Hws|Hws].
        { apply elem_of_singleton in Hws as ->. rewrite lookup_insert_eq. by eexists. }
        destruct (connectionsByIp st !! ip) as [S0|] eqn:H0; cbn [default] in Hws; [|set_solver].
        destruct (HT ip S0 H0) as (_ & _ & C). destruct (C ws Hws) as (c & Hc & Hip).
        rewrite lookup_insert_ne by congruence. eauto.
      * destruct (HT ip' S' HS1) as (A & B & C). repeat split; [done..|].
        intros ws Hws. destruct (C ws Hws) as (c & Hc & Hip).
        rewrite lookup_insert_ne by congruence. eauto.
    + intros ws c. proj. intros Hc Hr.
      apply lookup_insert_Some in Hc as [[<- <-]|[Hne Hc]]; proj.
      * rewrite lookup_insert_eq. eexists. split; [done|set_solver].
      * destruct (HA ws c Hc Hr) as (S & HS & Hin).
        destruct (decide (ip = c_ip c)) as [->|Hi].
        -- rewrite lookup_insert_eq, HS. cbn [default]. eexists. split; [done|set_solver].
        -- rewrite lookup_insert_ne by done. eauto.
  - destruct (onMessage_fields ttl w data now fresh st) as (K & _ & E).
    apply (ipInv_frame st); auto using connsDom_onMessage.
  - unfold alive in He. destruct (conns st !! w) as [cw|] eqn:Hw; [|done].
    destruct (onClose_fields w now cw st Hw) as (Ec & _ & Ei). split.
    + intros ip S HS.
      assert (∃ S0, connectionsByIp st !! ip = Some S0 ∧ S ⊆ S0 ∧ (S0 = S ∨ S ≠ ∅))
        as (S0 & H0 & Hsub & Hne).
      { destruct Ei as [Ei|[i Ei]]; rewrite Ei in HS; [by eauto|].
        by apply untrack_lookup in HS. }
      destruct (HT ip S0 H0) as (A & B & C). split; [by destruct Hne as [->|]|].
      split; [pose proof (subseteq_size S S0 Hsub); lia|].
      intros ws Hws. destruct (C ws (Hsub ws Hws)) as (c & Hc & Hip). rewrite Ec.
      destruct (decide (ws = w)) as [->|Hn].
      * rewrite lookup_insert_eq. eexists. split; [done|].
        assert (cw = c) as -> by congruence. done.
      * rewrite lookup_insert_ne by done. eauto.
    + intros ws c. rewrite Ec. intros Hc Hr.
      apply lookup_insert_Some in Hc as [[<- <-]|[Hne Hc]]; [done|].
      destruct (HA ws c Hc Hr) as (S & HS & Hin).
      destruct Ei as [Ei|[i Ei]]; rewrite Ei; [by eauto|].
      eapply untrack_keeps; eauto.
  - destruct (onTimer_fields t st) as (A & _ & C & _).
    apply (ipInv_frame st); auto using connsKept_eq, connsDom_eq.
  - apply (ipInv_frame st); auto using connsKept_eq, connsDom_eq.
  - destruct (sweepSessions_fields ttl now st) as (A & _ & C & _).
    apply (ipInv_frame st); auto using connsKept_eq, connsDom_eq.
Qed.

Lemma ipInv_reachable st : reachable ttl st → ipTracked st ∧ aliveTracked st.
Proof.
  induction 1 as [|st e st' _ IH Hs].
  - split; [intros ip S H|intros ws c H]; unfold initial in H; proj;
      by rewrite lookup_empty in H.
  - destruct Hs as [e st He]. by apply ipInv_step.
Qed.

End ConnectionCap.

(** X2.  In every reachable state no address has more than
    [maxConnectionsPerIp] sockets counted against it, a counted set is never
    empty, every counted socket is a connection accepted from that address,
    and every connection that has not closed is counted: so no address ever
    holds more than [maxConnectionsPerIp] connections that have not closed. *)
Theorem connection_cap_per_address ttl st :
  reachable ttl st →
  (∀ ip S, connectionsByIp st !! ip = Some S →
     S ≠ ∅ ∧ (size S ≤ maxConnectionsPerIp)%nat
     ∧ ∀ ws, ws ∈ S → ∃ c, conns st !! ws = Some c ∧ c_ip c = ip)
  ∧ (∀ ip (l : list nat),
       NoDup l →
       (∀ ws, ws ∈ l → alive ws st = true ∧ ∃ c, conns st !! ws = Some c ∧ c_ip c = ip) →
       (length l ≤ maxConnectionsPerIp)%nat).
Proof.
  intros Hr. destruct (ipInv_reachable ttl st Hr) as [HT HA]. split; [exact HT|].
  intros ip l Hnd Hl. destruct l as [|w0 l0] eqn:El; [cbn; unfold maxConnectionsPerIp; lia|].
  rewrite <- El in *.
  assert (∃ S, connectionsByIp st !! ip = Some S ∧ ∀ ws, ws ∈ l → ws ∈ S) as (S & HS & Hin).
  { destruct (Hl w0) as (Ha & c0 & Hc0 & Hip0); [subst l; apply list_elem_of_here|].
    unfold alive in Ha. rewrite Hc0 in Ha.
    destruct (HA w0 c0 Hc0) as (S & HS & _); [by destruct (c_readyState c0)|].
    rewrite Hip0 in HS. exists S. split; [done|]. intros ws Hws.
    destruct (Hl ws Hws) as (Ha' & c & Hc & Hip).
    unfold alive in Ha'. rewrite Hc in Ha'.
    destruct (HA ws c Hc) as (S2 & HS2 & Hin2); [by destruct (c_readyState c)|].
    rewrite Hip in HS2. congruence. }
  destruct (HT ip S HS) as (_ & Hb & _).
  assert (length l ≤ size S)%nat; [|lia].
  unfold size, set_size. cbn. apply submseteq_length, NoDup_submseteq; [done|].
  intros x Hx. apply elem_of_elements. auto.
Qed.

Lemma connection_cap_per_address_witness :
  (length [1%nat; 2%nat] ≤ maxConnectionsPerIp)%nat.
Proof.
  destruct (connection_cap_per_address Scenario.ttl Scenario.hostAndMember
              hostAndMember_reachable) as [_ H].
  apply (H Scenario.ipA [1%nat; 2%nat]).
  - apply NoDup_cons. split; [|apply NoDup_singleton].
    intros H1. apply list_elem_of_singleton in H1. discriminate.
  - intros ws Hws. split.
    + apply elem_of_cons in Hws as [->|Hws]; [vm_compute; reflexivity|].
      apply list_elem_of_singleton in Hws as ->. vm_compute; reflexivity.
    + apply elem_of_cons in Hws as [->|Hws]; [eexists; split; vm_compute; reflexivity|].
      apply list_elem_of_singleton in Hws as ->. eexists; split; vm_compute; reflexivity.
Defined.

Section Registry.

Variable ttl : Z.

Lemma alive_apply e st ws :
  enabled e st = true → alive ws st = true → (∀ now, e ≠ EClose ws now) →
  alive ws (apply ttl e st) = true.
Proof.
  intros He Ha Hne. unfold alive in *.
  destruct (conns st !! ws) as [c|] eqn:Hc; [|done].
  destruct (apply_conns ttl e st ws c He Hc) as (c' & -> & _ & _ & Hcl).
  destruct (c_readyState c') eqn:Hr; try done.
  destruct (Hcl eq_refl) as [Hx|[now Hx]]; [by rewrite Hx in Ha|by destruct (Hne now)].
Qed.

Lemma registryAlive_step e st :
  Inv st → enabled e st = true → registryAlive st → registryAlive (apply ttl e st).
Proof.
  intros HI He HA p w Hpw.
  assert (Hold : wsConnections st !! p = Some w → (∀ now, e ≠ EClose w now) →
                 alive w (apply ttl e st) = true).
  { intros H Hne. apply alive_apply; [done|by apply (HA p)|done]. }
  destruct e as [w0 ip|w0 data now fresh|w0 now|t now|now|now]; cbn [apply enabled] in *.
  - apply Hold; [|done]. revert Hpw. unfold onConnection, trackConnection. by case_match.
  - destruct (onMessage_fields ttl w0 data now fresh st) as (_ & [E|[q E]] & _);
      rewrite E in Hpw; [by apply Hold|].
    apply lookup_insert_Some in Hpw as [[<- <-]|[_ Hpw]]; [|by apply Hold].
    pose proof He as He'. apply andb_true_iff in He' as [Ha _].
    apply (alive_apply (EMessage w0 data now fresh) st w0); [exact He|exact Ha|done].
  - unfold alive in He. destruct (conns st !! w0) as [c0|] eqn:Hc0; [|done].
    destruct (onClose_fields w0 now c0 st Hc0) as (_ & E & _). rewrite E in Hpw.
    assert (Hp : wsConnections st !! p = Some w) by
      (destruct (asTruthy (c_peerId c0)); [by apply lookup_delete_Some in Hpw as [_ ?]|done]).
    apply Hold; [done|]. intros now' [= <- <-].
    destruct (inv_registry_conn _ HI _ _ Hp) as (c & Hc & Hid).
    assert (c = c0) as -> by congruence.
    pose proof (inv_conn_id _ HI _ _ _ Hc0 Hid) as Hne.
    rewrite Hid, (asTruthy_of_Some p) in Hpw by done.
    by rewrite lookup_delete_eq in Hpw.
  - destruct (onTimer_fields t st) as (_ & E & _). rewrite E in Hpw. by apply Hold.
  - by apply Hold.
  - destruct (sweepSessions_fields ttl now st) as (_ & E & _). rewrite E in Hpw. by apply Hold.
Qed.

Lemma registryAlive_reachable st : reachable ttl st → registryAlive st.
Proof.
  induction 1 as [|st e st' Hr IH Hs]; [by intros p w H|].
  destruct Hs as [e st He]. apply registryAlive_step; eauto using Inv_reachable.
Qed.

End Registry.

(** X3.  In every reachable state, an identity in the transport registry
    is registered on a connection that completed its handshake as that
    identity and whose [close] event has not been handled; the identity is in
    the peer ledger, and no other identity is registered on that socket. *)
Theorem registry_holds_live_connections ttl st p w :
  reachable ttl st →
  wsConnections st !! p = Some w →
  alive w st = true
  ∧ connOf w p st
  ∧ is_Some (peers (storage st) !! p)
  ∧ ∀ q, wsConnections st !! q = Some w → q = p.
Proof.
  intros Hr Hp. pose proof (Inv_reachable ttl st Hr) as HI.
  split; [by eapply registryAlive_reachable|].
  split; [by apply (inv_registry_conn _ HI)|].
  split; [by eapply (inv_registry_ledger _ HI)|].
  intros q Hq.
  destruct (inv_registry_conn _ HI _ _ Hp) as (c & Hc & Hid).
  destruct (inv_registry_conn _ HI _ _ Hq) as (c' & Hc' & Hid'). congruence.
Qed.

Lemma registry_holds_live_connections_witness :
  alive 2 Scenario.hostLost = true
  ∧ connOf 2 Scenario.idM Scenario.hostLost
  ∧ is_Some (peers (storage Scenario.hostLost) !! Scenario.idM)
  ∧ ∀ q, wsConnections Scenario.hostLost !! q = Some 2%nat → q = Scenario.idM.
Proof.
  apply (registry_holds_live_connections Scenario.ttl Scenario.hostLost Scenario.idM 2%nat
           hostLost_reachable).
  vm_compute. reflexivity.
Defined.

(** X4.  At most one timeout is pending per room: two pending timeouts of
    the same room are the same timeout, it is the one [cleanupTimers]
    records for the room, and its handle is below the next handle to be
    handed out. *)
Theorem one_pending_timeout_per_room ttl st r t1 t2 d1 d2 :
  reachable ttl st →
  timers st !! t1 = Some (r, d1) →
  timers st !! t2 = Some (r, d2) →
  t1 = t2 ∧ d1 = d2 ∧ cleanupTimers st !! r = Some t1 ∧ (t1 < nextTimer st)%nat.
Proof.
  intros Hr H1 H2. pose proof (Inv_reachable ttl st Hr) as HI.
  pose proof (inv_timers _ HI _ _ _ H1) as C1.
  pose proof (inv_timers _ HI _ _ _ H2) as C2.
  assert (t1 = t2) as <- by congruence.
  repeat split; [congruence|done|]. by apply (inv_timer_ids _ HI r).
Qed.

Lemma one_pending_timeout_per_room_witness :
  0%nat = 0%nat ∧ 30010 = 30010
  ∧ cleanupTimers Scenario.hostLost !! Scenario.roomX = Some 0%nat
  ∧ (0 < nextTimer Scenario.hostLost)%nat.
Proof.
  apply (one_pending_timeout_per_room Scenario.ttl Scenario.hostLost Scenario.roomX
           0%nat 0%nat 30010 30010 hostLost_reachable); vm_compute; reflexivity.
Defined.

(** X5.  Neither a message that fails to parse or has no string type, nor
    anything a connection sends before it has an identity (the handshake
    included), is counted by the rate limiter. *)
Theorem unrouted_messages_are_not_counted ttl ws c data now fresh st :
  conns st !! ws = Some c →
  data = BadJson
  ∨ (∃ v, data = Parsed v ∧ messageType v = None)
  ∨ asTruthy (c_peerId c) = None →
  messageRates (onMessage ttl ws data now fresh st) = messageRates st.
Proof.
  intros Hc Hcase. unfold onMessage. rewrite Hc.
  destruct data as [|v]; [by sends|].
  destruct (messageType v) as [ty|] eqn:Hty; [|by sends].
  destruct Hcase as [?|[(v' & [= <-] & ?)|Hp]]; [done|congruence|].
  rewrite Hp. by destruct (onHandshake_fields ttl ws c v ty now fresh st Hc Hp) as (_ & _ & _ & ?).
Qed.

Lemma unrouted_messages_are_not_counted_witness :
  messageRates (onMessage Scenario.ttl 2 (Scenario.hello Scenario.tokenM) 2 Scenario.idM
                  (run Scenario.ttl [EConnection 2 Scenario.ipA] Scenario.oneActive))
  = messageRates (run Scenario.ttl [EConnection 2 Scenario.ipA] Scenario.oneActive).
Proof.
  apply (unrouted_messages_are_not_counted Scenario.ttl 2
           (mkConn Scenario.ipA None None OPEN)).
  - vm_compute. reflexivity.
  - right. right. reflexivity.
Defined.

(** X6.  The sweep of the rate table is invisible to the rate limiter: it
    drops exactly the entries whose window started more than ten windows
    ago, and for any later message the verdict of the rate check and the
    entry it leaves for the sender are the same with and without the
    sweep. *)
Theorem sweep_rates_is_transparent peerId now now' st :
  now ≤ now' →
  let swept := sweepRates now st in
  (∀ p rd, messageRates swept !! p = Some rd
           ↔ messageRates st !! p = Some rd ∧ now - windowStart rd ≤ windowMs * 10)
  ∧ (checkRateLimit peerId now' swept).1 = (checkRateLimit peerId now' st).1
  ∧ messageRates (checkRateLimit peerId now' swept).2 !! peerId
    = messageRates (checkRateLimit peerId now' st).2 !! peerId.
Proof.
  intros Hle. cbn zeta.
  assert (Hl : ∀ p rd, messageRates (sweepRates now st) !! p = Some rd
           ↔ messageRates st !! p = Some rd ∧ now - windowStart rd ≤ windowMs * 10).
  { intros p rd. unfold sweepRates. proj. rewrite map_lookup_filter_Some. cbn. split.
    - intros [H1 H2]. split; [done|lia].
    - intros [H1 H2]. split; [done|lia]. }
  split; [exact Hl|].
  unfold checkRateLimit. proj. rewrite !lookup_insert_eq.
  destruct (messageRates st !! peerId) as [rd|] eqn:Hrd.
  - destruct (decide (now - windowStart rd ≤ windowMs * 10)) as [Hk|Hk].
    + by rewrite (proj2 (Hl peerId rd) (conj Hrd Hk)).
    + assert (messageRates (sweepRates now st) !! peerId = None) as ->.
      { destruct (messageRates (sweepRates now st) !! peerId) as [rd'|] eqn:E; [|done].
        apply Hl in E as [E1 E2]. assert (rd' = rd) as -> by congruence. done. }
      destruct (Z.ltb_spec windowMs (now' - windowStart rd)) as [_|Hx]; [done|].
      unfold windowMs in *. lia.
  - assert (messageRates (sweepRates now st) !! peerId = None) as ->; [|done].
    destruct (messageRates (sweepRates now st) !! peerId) as [rd'|] eqn:E; [|done].
    apply Hl in E as [E1 E2]. congruence.
Qed.

Lemma sweep_rates_is_transparent_witness :
  (checkRateLimit Scenario.idH 20000 (sweepRates 20000 fiftyHeartbeats)).1
  = (checkRateLimit Scenario.idH 20000 fiftyHeartbeats).1.
Proof.
  destruct (sweep_rates_is_transparent Scenario.idH 20000 20000 fiftyHeartbeats)
    as (_ & H & _); [lia|exact H].
Defined.

(** X7.  Counting a socket and then uncounting it leaves the connection
    counts as they were, provided the socket was not counted for that
    address before; uncounting the last socket of an address removes the
    address from the table. *)
Theorem untrack_after_track ip ws st :
  (∀ S, connectionsByIp st !! ip = Some S → (ws ∉ S) ∧ S ≠ ∅) →
  untrackConnection (Some ip) ws (trackConnection ip ws st) = st
  ∧ (connectionsByIp st !! ip = None →
     connectionsByIp (trackConnection ip ws st) !! ip = Some {[ws]}).
Proof.
  intros H. split.
  - unfold untrackConnection, trackConnection. proj. rewrite lookup_insert_eq.
    destruct (connectionsByIp st !! ip) as [S|] eqn:HS; cbn [default]; unfold id.
    + destruct (H S eq_refl) as [Hin Hne].
      assert (({[ws]} ∪ S) ∖ {[ws]} = S) as ->.
      { apply set_eq. intros x. rewrite elem_of_difference, elem_of_union, elem_of_singleton.
        split; [by intros [[->|?] ?]|]. intros Hx. split; [by right|]. by intros ->. }
      rewrite bool_decide_eq_false_2 by (intros Hz; by apply size_empty_inv, leibniz_equiv in Hz).
      proj. rewrite insert_insert_eq, insert_id by done. by destruct st.
    + rewrite union_empty_r_L, difference_diag_L.
      rewrite bool_decide_eq_true_2 by apply size_empty.
      proj. rewrite delete_insert_id by done. by destruct st.
  - intros Hn. unfold trackConnection. proj. rewrite lookup_insert_eq, Hn. cbn [default].
    by rewrite union_empty_r_L.
Qed.

Lemma untrack_after_track_witness :
  untrackConnection (Some Scenario.ipA) 7 (trackConnection Scenario.ipA 7 Scenario.hostAndMember)
  = Scenario.hostAndMember.
Proof.
  destruct (untrack_after_track Scenario.ipA 7 Scenario.hostAndMember) as [H _]; [|exact H].
  intros S HS.
  assert (S = {[1%nat; 2%nat]}) as ->.
  { apply (inj Some). rewrite <- HS. vm_compute. reflexivity. }
  split.
  - rewrite elem_of_union, !elem_of_singleton. intros [?|?]; discriminate.
  - intros E. apply (not_elem_of_empty (C:=gset nat) 1%nat). rewrite <- E.
    apply elem_of_union_l, elem_of_singleton. reflexivity.
Defined.

(** X8.  The close handler of a socket that carries an identity deletes
    the registry entry, the ledger entry and the rate counter of that
    identity, whichever socket the registry holds for it; the other
    connections are left as they are.  So when the identity is meanwhile
    connected on another open socket, as after a session restore that
    superseded the closing one, it stays connected there but is in neither
    registry nor ledger: nothing can be sent to it by identity. *)
Theorem close_forgets_identity ws c p now st :
  conns st !! ws = Some c →
  asTruthy (c_peerId c) = Some p →
  let st' := onClose ws now st in
  wsConnections st' !! p = None
  ∧ hasPeer (Some p) (storage st') = false
  ∧ messageRates st' !! p = None
  ∧ (∀ w, w ≠ ws → conns st' !! w = conns st !! w)
  ∧ (∀ w m, w ≠ ws → connOf w p st → isOpen w st = true →
            connOf w p st' ∧ isOpen w st' = true ∧ sentToPeer p m st' = []).
Proof.
  intros Hc Hp. cbn zeta.
  assert (H : wsConnections (onClose ws now st) !! p = None
              ∧ peers (storage (onClose ws now st)) !! p = None
              ∧ messageRates (onClose ws now st) !! p = None
              ∧ conns (onClose ws now st)
                = <[ws := mkConn (c_ip c) (c_peerId c) (c_sessionToken c) CLOSED]> (conns st)).
  { unfold onClose. rewrite Hc, Hp. unfold getPeer, getRoom. proj.
    unfold untrackConnection, hostGone, scheduleRoomCleanup, getRoom, clearTimeout.
    repeat case_match; rewrite ?notifyAll_eq; proj; rewrite ?lookup_delete_eq;
      repeat case_match; proj; by rewrite ?lookup_delete_eq. }
  destruct H as (Hw & Hl & Hm & Hcs).
  split; [done|]. split; [unfold hasPeer; rewrite Hl; apply bool_decide_eq_false_2; by intros [? ?]|].
  split; [done|].
  split; [intros w Hne; by rewrite Hcs, lookup_insert_ne|].
  intros w m Hne Hcon Hopen.
  split; [|split].
  - destruct Hcon as (c' & Hc' & Hid). exists c'. by rewrite Hcs, lookup_insert_ne.
  - unfold isOpen in *. by rewrite Hcs, lookup_insert_ne.
  - unfold sentToPeer. by rewrite Hw.
Qed.

Lemma close_forgets_identity_witness :
  connOf 3 Scenario.idM (onClose 2 10 superseded)
  ∧ isOpen 3 (onClose 2 10 superseded) = true
  ∧ sentToPeer Scenario.idM MHeartbeatAck (onClose 2 10 superseded) = [].
Proof.
  pose proof (close_forgets_identity 2
                (mkConn Scenario.ipA (Some Scenario.idM) (Some Scenario.tokenM) CLOSING)
                Scenario.idM 10 superseded) as H.
  assert (A1 : conns superseded !! 2%nat
               = Some (mkConn Scenario.ipA (Some Scenario.idM) (Some Scenario.tokenM) CLOSING))
    by (vm_compute; reflexivity).
  specialize (H A1 eq_refl). clear A1.
  destruct H as (_ & _ & _ & _ & H).
  assert (A2 : (3 ≠ 2)%nat) by lia.
  assert (A3 : connOf 3 Scenario.idM superseded).
  { exists (mkConn Scenario.ipA (Some Scenario.idM) (Some Scenario.tokenM) OPEN).
    split; vm_compute; reflexivity. }
  assert (A4 : isOpen 3 superseded = true) by (vm_compute; reflexivity).
  exact (H 3%nat MHeartbeatAck A2 A3 A4).
Defined.

Lemma superseded_reachable : reachable Scenario.ttl superseded.
Proof.
  apply (reachable_run Scenario.ttl supersededEvents initial).
  - constructor.
  - vm_compute. reflexivity.
Qed.

Section RoomRequests.

Variable ttl : Z.

(** X9.  A well-formed [join-room] of an authenticated peer, within the
    rate limit, is accepted exactly when the host slot of the room is taken,
    that is, when [claim-host] would be refused.  Accepted, the peer is told
    the recorded host, is added to the members, the ledger puts it in the
    room, the room records stay as they are, and [peer-connecting] goes to
    the host transport of the room if that socket is open.  Refused, the
    peer is told why (no such room, or its host is gone) and nothing else
    changes. *)
Theorem join_room_iff_host_live ws c peerId message roomId now fresh st :
  activeConn ws c peerId st →
  c_readyState c = OPEN →
  messageType message = Some (js "join-room") →
  get_field (js "roomId") message = Some (JStr roomId) →
  isValidRoomId (Some (JStr roomId)) = true →
  (checkRateLimit peerId now st).1 = true →
  let st1 := admitted c peerId now st in
  let st' := onMessage ttl ws (Parsed message) now fresh st in
  if hostSlotFree roomId st then
    st' = set_outbox
            (outbox st
             ++ [(ws, MJoinRoomFailed (Some (JStr roomId))
                        (match rooms (storage st) !! roomId with
                         | None => "Room does not exist"
                         | Some _ => "Room host is disconnected"
                         end))]) st1
  else
    ∃ room, rooms (storage st) !! roomId = Some room
      ∧ outbox st'
        = outbox st
          ++ (ws, MJoinRoomSuccess roomId (hostPeerId room))
             :: match hostWsConnections st !! roomId with
                | Some hostWs => sentTo hostWs (MPeerConnecting peerId) st
                | None => []
                end
      ∧ peerId ∈ getRoomMembers roomId (storage st')
      ∧ (p_roomId <$> getPeer peerId (storage st')) = Some (Some roomId)
      ∧ rooms (storage st') = rooms (storage st)
      ∧ hostWsConnections st' = hostWsConnections st
      ∧ timers st' = timers st.
Proof.
  intros Hact Hopen Hty Hrid Hvalid Hok. cbn zeta.
  rewrite (onMessage_routed ttl ws c peerId _ _ now fresh st Hact) by done.
  rewrite classify_join_room. cbn zeta.
  destruct Hact as [Hc Hp].
  destruct (admitted_frame c peerId now st) as (Er & Ep & Em & Ew & Eh & Ec & Et & Ect & En & Eo).
  set (st1 := admitted c peerId now st) in *. clearbody st1.
  assert (Hs : ∀ m s, conns s = conns st1 → sentTo ws m s = [(ws, m)]).
  { intros m s Hs. eapply sentTo_open; [|done]. by rewrite Hs, Ec. }
  unfold joinRoom, hostSlotFree, getRoom, hasPeer.
  rewrite Hrid, Hvalid, (get_string_of_field _ _ _ Hrid). cbn [negb]. rewrite Er, Ep.
  destruct (rooms (storage st) !! roomId) as [room|] eqn:Hroom.
  - destruct (match hostPeerId room with
              | Some p => bool_decide (is_Some (peers (storage st) !! p))
              | None => false
              end) eqn:Hlive; cbn [negb].
    + exists room. split; [done|]. unfold withToken.
      destruct (c_sessionToken c); sends; proj; rewrite ?Hs by done;
        rewrite Eo, Eh, Et, Er; unfold getRoomMembers, getPeer; proj;
        rewrite !lookup_insert_eq; cbn [default fmap option_fmap option_map].
      all: repeat split; try done.
      all: try (unfold sentTo, isOpen; proj; rewrite ?Ec; rewrite <- ?app_assoc;
                by destruct (hostWsConnections st !! roomId)).
      all: try (unfold peerWithRoom; by destruct (peers _ !! _)).
      all: unfold id; case_bool_decide; [done|apply elem_of_app; right; apply list_elem_of_here].
    + sends. proj. rewrite Hs by done. by rewrite Eo.
  - sends. proj. rewrite Hs by done. by rewrite Eo.
Qed.

End RoomRequests.

Lemma join_room_iff_host_live_witness :
  Scenario.idG
  ∈ getRoomMembers Scenario.roomX
      (storage (onMessage Scenario.ttl 3 (Parsed (Scenario.roomMsg "join-room" Scenario.roomX))
                  20 Scenario.idX twoRooms)).
Proof.
  pose proof (join_room_iff_host_live Scenario.ttl 3
                (mkConn Scenario.ipA (Some Scenario.idG) (Some Scenario.tokenG) OPEN)
                Scenario.idG (Scenario.roomMsg "join-room" Scenario.roomX) Scenario.roomX
                20 Scenario.idX twoRooms) as H.
  assert (A1 : activeConn 3 (mkConn Scenario.ipA (Some Scenario.idG) (Some Scenario.tokenG) OPEN)
                 Scenario.idG twoRooms) by (split; vm_compute; reflexivity).
  assert (A2 : (checkRateLimit Scenario.idG 20 twoRooms).1 = true) by (vm_compute; reflexivity).
  specialize (H A1 eq_refl eq_refl eq_refl eq_refl A2). clear A1 A2.
  assert (E : hostSlotFree Scenario.roomX twoRooms = false) by (vm_compute; reflexivity).
  rewrite E in H. clear E.
  destruct H as (room & _ & _ & H & _).
  exact H.
Defined.
